(** * Astronomical-Calculation: the position / aspect / synastry engine

    A shallow embedding of [src/engine/astrology.js] (classes
    [SwissEphemeris] and [AstrologyEngine]) and the properties of its
    Julian-day conversion, house assignment, aspect classification and
    compatibility score.

    Finite JavaScript numbers are modelled by exact rationals [Q]: every
    finite value the engine handles is a rational, and the arithmetic is
    carried out without rounding.  Decimal literals of the source ([0.4],
    [24.9], [360.98564736629]) denote the rationals they spell.  Numeric
    results are compared with [==] ([Qeq]).  Where a value may also be
    [NaN] or infinite (an argument of the ephemeris, a Julian day, a
    property of a chart) it has type [Js.number]. *)

From Stdlib Require Import QArith Qround Qabs Qminmax ZArith List String Bool.
From Stdlib Require Import Lqa Lia DecimalString.
Import ListNotations.

Open Scope Q_scope.

(** ** JavaScript numeric primitives *)

Module Js.

(** [x < y] on numbers. *)
Definition ltb (x y : Q) : bool := negb (Qle_bool y x).
(** [x <= y] on numbers. *)
Definition leb (x y : Q) : bool := Qle_bool x y.
(** [x >= y] and [x > y]. *)
Definition geb (x y : Q) : bool := Qle_bool y x.
Definition gtb (x y : Q) : bool := negb (Qle_bool x y).

(** [Number.isInteger]. *)
Definition isInteger (x : Q) : bool := Pos.eqb (Qden (Qred x)) 1.

(** [Math.floor], [Math.abs], [Math.min]. *)
Definition floor (x : Q) : Q := inject_Z (Qfloor x).
Definition abs (x : Q) : Q := Qabs x.
Definition min (x y : Q) : Q := Qmin x y.

(** The remainder operator [x % m]: the quotient is truncated towards
    zero, so the result has the sign of the dividend. *)
Definition trunc (x : Q) : Z :=
  if Qle_bool 0 x then Qfloor x else Qceiling x.
Definition rem (x m : Q) : Q := x - m * inject_Z (trunc (x / m)).

(** [x.toFixed(2)] for [0 <= x < 1e21]: the integer [n] with [n / 100]
    closest to [x] (the larger one on a tie), printed with two decimals.
    The engine only applies it to an aspect difference within an orb,
    that is to a value of [[0, 8]]. *)
Definition digits (n : Z) : string :=
  NilZero.string_of_uint (N.to_uint (Z.to_N n)).
Definition twoDigits (n : Z) : string :=
  if (n <? 10)%Z then ("0" ++ digits n)%string else digits n.
Definition toFixed2 (x : Q) : string :=
  let n := Qfloor (x * 100 + (1 # 2)) in
  (digits (n / 100) ++ "." ++ twoDigits (n mod 100))%string.

(** A thrown exception: [throw new Error(msg)], or the [TypeError] of a
    property read on [undefined]. *)
Inductive exn : Type :=
| Error (msg : string)
| TypeError
| Rejected.

(** A computation that returns or throws. *)
Inductive result (A : Type) : Type :=
| Ok (a : A)
| Throw (e : exn).
Arguments Ok {A} & a.
Arguments Throw {A} e.

Definition bind {A B : Type} (m : result A) (k : A -> result B) : result B :=
  match m with
  | Ok a => k a
  | Throw e => Throw e
  end.

(** A number that need not be finite.  Zero carries no sign: the engine
    divides by literals only. *)
Inductive number : Type :=
| Finite (q : Q)
| NaN
| Infinity
| NegInfinity.

Coercion Finite : Q >-> number.

(** [Number.isFinite]. *)
Definition isFinite (x : number) : bool :=
  match x with
  | Finite _ => true
  | _ => false
  end.

(** [x < y], [x <= y], [x > y] and [x >= y]: no comparison with [NaN]
    holds. *)
Definition number_ltb (x y : number) : bool :=
  match x, y with
  | Finite a, Finite b => ltb a b
  | NegInfinity, Finite _ | NegInfinity, Infinity | Finite _, Infinity => true
  | _, _ => false
  end.
Definition number_leb (x y : number) : bool :=
  match x, y with
  | Finite a, Finite b => leb a b
  | NaN, _ | _, NaN => false
  | NegInfinity, _ | _, Infinity => true
  | _, _ => false
  end.
Definition number_gtb (x y : number) : bool := number_ltb y x.
Definition number_geb (x y : number) : bool := number_leb y x.

(** [x + y], [x - y], [x * y], [x / y] and [x % y]. *)
Definition number_add (x y : number) : number :=
  match x, y with
  | Finite a, Finite b => Finite (a + b)
  | NaN, _ | _, NaN => NaN
  | Infinity, NegInfinity | NegInfinity, Infinity => NaN
  | Infinity, _ | _, Infinity => Infinity
  | _, _ => NegInfinity
  end.
Definition number_sub (x y : number) : number :=
  match x, y with
  | Finite a, Finite b => Finite (a - b)
  | NaN, _ | _, NaN => NaN
  | Infinity, Infinity | NegInfinity, NegInfinity => NaN
  | Infinity, _ | _, NegInfinity => Infinity
  | _, _ => NegInfinity
  end.
Definition number_mul (x y : number) : number :=
  match x, y with
  | Finite a, Finite b => Finite (a * b)
  | NaN, _ | _, NaN => NaN
  | Finite a, Infinity | Infinity, Finite a =>
      if ltb 0 a then Infinity else if ltb a 0 then NegInfinity else NaN
  | Finite a, NegInfinity | NegInfinity, Finite a =>
      if ltb 0 a then NegInfinity else if ltb a 0 then Infinity else NaN
  | Infinity, Infinity | NegInfinity, NegInfinity => Infinity
  | _, _ => NegInfinity
  end.
Definition number_div (x y : number) : number :=
  match x, y with
  | Finite a, Finite b =>
      if Qeq_bool b 0
      then if ltb 0 a then Infinity else if ltb a 0 then NegInfinity else NaN
      else Finite (a / b)
  | NaN, _ | _, NaN => NaN
  | Finite _, _ => Finite 0
  | Infinity, Finite b => if ltb b 0 then NegInfinity else Infinity
  | NegInfinity, Finite b => if ltb b 0 then Infinity else NegInfinity
  | _, _ => NaN
  end.
Definition number_rem (x m : number) : number :=
  match x, m with
  | Finite a, Finite b => if Qeq_bool b 0 then NaN else Finite (rem a b)
  | Finite a, Infinity | Finite a, NegInfinity => Finite a
  | _, _ => NaN
  end.

End Js.

Import Js.

Notation "'let*' x ':=' m 'in' k" := (Js.bind m (fun x => k))
  (at level 10, x name, m at level 100, k at level 200).

(** ** class SwissEphemeris *)

Module SwissEphemeris.

Definition SE_GREG_CAL : Z := 1.
Definition SE_JUL_CAL : Z := 0.

Definition SE_HSYS_PLACIDUS : string := "P".
Definition SE_HSYS_KOCH : string := "K".
Definition SE_HSYS_EQUAL : string := "E".

(** The condition under which [swe_julday] throws, for a year, a month
    and a day that are finite.  Neither comparison of the hour holds when
    the hour is [NaN]. *)
Definition swe_julday_invalid (year month day : Q) (hour : number) : bool :=
  negb (isInteger year)
  || negb (isInteger month)
  || negb (isInteger day)
  || ltb month 1
  || gtb month 12
  || ltb day 1
  || gtb day 31
  || number_ltb hour 0
  || number_geb hour 24.

(** [swe_julday(year, month, day, hour, calendar)].  [Number.isInteger]
    fails on a year, a month or a day that is not finite; an omitted
    [hour] is [undefined], which the comparisons and the arithmetic turn
    into [NaN]. *)
Definition swe_julday (year month day hour : number) (calendar : Z)
  : result number :=
  match year, month, day with
  | Finite year, Finite month, Finite day =>
      if swe_julday_invalid year month day hour
      then Throw (Error "Invalid date or time parameters")
      else
        let a := floor ((14 - month) / 12) in
        let y := year + 4800 - a in
        let m := month + 12 * a - 3 in
        let jd :=
          day + floor ((153 * m + 2) / 5) + 365 * y + floor (y / 4) in
        let* jd :=
          if (calendar =? SE_GREG_CAL)%Z
          then Ok (jd - floor (y / 100) + floor (y / 400) - 32045)
          else if (calendar =? SE_JUL_CAL)%Z
          then Ok (jd - 32083)
          else Throw (Error "Invalid calendar type") in
        Ok (number_add jd (number_div (number_sub hour 12) 24.0))
  | _, _, _ => Throw (Error "Invalid date or time parameters")
  end.

(** [calculateLocalSiderealTime(jd, longitude)].  The first guard,
    [!Number.isFinite(jd) || !Number.isFinite(longitude)], is the last
    branch of the match. *)
Definition calculateLocalSiderealTime (jd longitude : number) : result Q :=
  match jd, longitude with
  | Finite jd, Finite longitude =>
      if gtb (abs longitude) 180
      then Throw (Error "Longitude out of range")
      else
        let t := (jd - 2451545.0) / 36525.0 in
        let gmst :=
          280.46061837 + 360.98564736629 * (jd - 2451545.0)
          + 0.000387933 * t * t in
        let lst := (gmst + longitude) / 15.0 in
        Ok (rem (rem lst 24 + 24) 24)
  | _, _ => Throw (Error "Invalid Julian Day or longitude")
  end.

Record HouseResult : Type := mkHouseResult {
  houses : list Q;
  ascendant : option Q;
  mc : option Q
}.

(** The body of the loop [for (let i = 0; i < 12; i++)]. *)
Definition housePosition (lst : Q) (i : nat) : Q :=
  rem (lst * 15 + inject_Z (Z.of_nat i) * 30) 360.

(** [swe_houses(tjd_ut, lat, lon, hsys)].  The first guard, on
    [Number.isFinite] of the three numbers, is the last branch of the
    match. *)
Definition swe_houses (tjd_ut lat lon : number) (hsys : string)
  : result HouseResult :=
  match tjd_ut, lat, lon with
  | Finite tjd_ut, Finite lat, Finite lon =>
      if gtb (abs lat) 90 || gtb (abs lon) 180
      then Throw (Error "Latitude or longitude out of range")
      else if negb (existsb (String.eqb hsys)
                      [SE_HSYS_PLACIDUS; SE_HSYS_KOCH; SE_HSYS_EQUAL])
      then Throw (Error "Invalid house system")
      else
        let* lst := calculateLocalSiderealTime tjd_ut lon in
        let houses := map (housePosition lst) (seq 0 12) in
        Ok {| houses := houses;
              ascendant := nth_error houses 0;
              mc := nth_error houses 9 |}
  | _, _, _ => Throw (Error "Invalid Julian Day, latitude, or longitude")
  end.

(** *** Positions of the celestial bodies *)

Definition SE_SUN : Z := 0.
Definition SE_MOON : Z := 1.
Definition SE_MERCURY : Z := 2.
Definition SE_VENUS : Z := 3.
Definition SE_MARS : Z := 4.
Definition SE_JUPITER : Z := 5.
Definition SE_SATURN : Z := 6.
Definition SE_URANUS : Z := 7.
Definition SE_NEPTUNE : Z := 8.
Definition SE_PLUTO : Z := 9.
Definition SE_TRUE_NODE : Z := 11.
Definition SE_CHIRON : Z := 15.

Definition SEFLG_SPEED : Z := 256.
Definition SEFLG_SWIEPH : Z := 2.
Definition SEFLG_SIDEREAL : Z := 64.

Definition SE_SIDM_FAGAN_BRADLEY : Z := 0.
Definition SE_SIDM_LAHIRI : Z := 1.

(** The table [orbitalElements] of [swe_calc_ut]: for each body its mean
    longitude [L] at J2000 and its motion [M] per Julian century. *)
Definition orbitalElements : list (Z * (Q * Q)) :=
  [ (SE_SUN, (280.46, 36000.771));
    (SE_MOON, (218.316, 481267.881));
    (SE_MERCURY, (252.25, 149472.674));
    (SE_VENUS, (181.979, 58517.816));
    (SE_MARS, (355.433, 19140.299));
    (SE_JUPITER, (34.351, 3034.906));
    (SE_SATURN, (50.077, 1222.114));
    (SE_URANUS, (314.055, 428.479));
    (SE_NEPTUNE, (304.348, 218.486));
    (SE_PLUTO, (238.958, 145.209));
    (SE_TRUE_NODE, (125.045, -1934.136));
    (SE_CHIRON, (207.224, 1364.681)) ].

(** [planet in orbitalElements] and [orbitalElements[planet]], for an
    integer [planet]. *)
Fixpoint orbitalElements_get (table : list (Z * (Q * Q))) (planet : Z)
  : option (Q * Q) :=
  match table with
  | [] => None
  | (id, elements) :: rest =>
      if (planet =? id)%Z then Some elements
      else orbitalElements_get rest planet
  end.

Record CalcResult : Type := mkCalcResult {
  calc_longitude : Q;
  calc_latitude : Q;
  calc_distance : Q;
  calc_longitudeSpeed : Q;
  calc_latitudeSpeed : Q;
  calc_distanceSpeed : Q
}.

(** The idiom [((x % 360) + 360) % 360]. *)
Definition normalize360 (x : Q) : Q := rem (rem x 360 + 360) 360.

(** [swe_calc_ut(tjd_ut, planet, flags)] of an instance whose sidereal
    mode is [siderealMode].  The first guard, [!Number.isFinite(tjd_ut)],
    is the last branch of the outer match and comes before the checks of
    [planet]; the argument [planet] is [None] when the caller passes
    [undefined], which like [NaN] and the infinities is not an integer. *)
Definition swe_calc_ut (siderealMode : Z) (tjd_ut : number)
    (planet : option number) (flags : Z) : result CalcResult :=
  match tjd_ut with
  | Finite tjd_ut =>
      match planet with
      | Some (Finite planet) =>
          if negb (isInteger planet) || ltb planet 0
          then Throw (Error "Invalid planet identifier")
          else
            let T := (tjd_ut - 2451545.0) / 36525.0 in
            let* longitude :=
              match orbitalElements_get orbitalElements (Qfloor planet) with
              | Some (L, M) => Ok (L + M * T)
              | None => Throw (Error "Unsupported celestial body")
              end in
            let longitude :=
              if negb (Z.land flags SEFLG_SIDEREAL =? 0)%Z
              then
                let ayanamsa :=
                  if (siderealMode =? SE_SIDM_FAGAN_BRADLEY)%Z
                  then 24.9 else 23.8 in
                longitude - ayanamsa
              else longitude in
            let longitude := normalize360 longitude in
            Ok {| calc_longitude := longitude;
                  calc_latitude := 0;
                  calc_distance := 1;
                  calc_longitudeSpeed := 0;
                  calc_latitudeSpeed := 0;
                  calc_distanceSpeed := 0 |}
      | _ => Throw (Error "Invalid planet identifier")
      end
  | _ => Throw (Error "Invalid Julian Day Number")
  end.

(** [swe_set_sid_mode(mode)]: the new value of [this.siderealMode]; when
    it throws the mode is left as it was. *)
Definition swe_set_sid_mode (mode : Z) : result Z :=
  if negb (mode =? SE_SIDM_FAGAN_BRADLEY)%Z && negb (mode =? SE_SIDM_LAHIRI)%Z
  then Throw (Error "Invalid sidereal mode")
  else Ok mode.

End SwissEphemeris.

(** ** class AstrologyEngine *)

Module AstrologyEngine.

Import SwissEphemeris.

(** *** Aspects *)

(** An entry of the aspect tables declared inside [findAspect] and
    [calculateAspectStrength]. *)
Record Aspect : Type := mkAspect {
  aspect_name : string;
  aspect_angle : Q;
  aspect_orb : Q;
  aspect_strength : Q
}.

(** The [orb] field of a classification: the text produced by
    [toFixed(2)] on a match, the number [0] otherwise. *)
Inductive OrbValue : Type :=
| OrbText (s : string)
| OrbNumber (q : Q).

Record AspectResult : Type := mkAspectResult {
  name : string;
  orb : OrbValue;
  strength : Q
}.

(** The angular separation both classifiers start from:
    [Math.min(diff, 360 - diff)] with [diff = Math.abs(pos1 - pos2)]. *)
Definition separation (pos1 pos2 : Q) : Q :=
  let diff := abs (pos1 - pos2) in
  min diff (360 - diff).

(** "Major and minor aspects with orbs": the table of [findAspect]. *)
Definition findAspect_aspects : list Aspect :=
  [ mkAspect "Conjunction" 0 8 1.0;
    mkAspect "Semisextile" 30 3 0.3;
    mkAspect "Sextile" 60 6 0.8;
    mkAspect "Square" 90 8 0.6;
    mkAspect "Trine" 120 8 0.9;
    mkAspect "Sesquiquadrate" 135 3 0.4;
    mkAspect "Quincunx" 150 3 0.3;
    mkAspect "Opposition" 180 8 0.7 ].

(** The loop [for (const aspect of aspects)] of [findAspect]. *)
Fixpoint findAspect_scan (angle : Q) (aspects : list Aspect) : AspectResult :=
  match aspects with
  | [] => {| name := "None"; orb := OrbNumber 0; strength := 0 |}
  | aspect :: rest =>
      let aspectDiff := abs (angle - aspect_angle aspect) in
      if leb aspectDiff (aspect_orb aspect)
      then
        let exactness := 1 - aspectDiff / aspect_orb aspect in
        {| name := aspect_name aspect;
           orb := OrbText (toFixed2 aspectDiff);
           strength := aspect_strength aspect * exactness |}
      else findAspect_scan angle rest
  end.

(** [findAspect(pos1, pos2)]. *)
Definition findAspect (pos1 pos2 : Q) : AspectResult :=
  findAspect_scan (separation pos1 pos2) findAspect_aspects.

(** "Major aspects with orbs": the table of [calculateAspectStrength]
    (its entries carry no name; the names are those of the comments). *)
Definition calculateAspectStrength_aspects : list Aspect :=
  [ mkAspect "Conjunction" 0 8 1.0;
    mkAspect "Sextile" 60 6 0.8;
    mkAspect "Square" 90 8 0.6;
    mkAspect "Trine" 120 8 0.9;
    mkAspect "Opposition" 180 8 0.7 ].

(** The loop of [calculateAspectStrength]. *)
Fixpoint calculateAspectStrength_scan (angle : Q) (aspects : list Aspect) : Q :=
  match aspects with
  | [] => 0
  | aspect :: rest =>
      let aspectDiff := abs (angle - aspect_angle aspect) in
      if leb aspectDiff (aspect_orb aspect)
      then
        let exactness := 1 - aspectDiff / aspect_orb aspect in
        aspect_strength aspect * exactness
      else calculateAspectStrength_scan angle rest
  end.

(** [calculateAspectStrength(pos1, pos2)]. *)
Definition calculateAspectStrength (pos1 pos2 : Q) : Q :=
  calculateAspectStrength_scan (separation pos1 pos2)
    calculateAspectStrength_aspects.

(** *** Houses *)

(** A comparison one of whose operands may be [undefined] is false. *)
Definition cmp_opt (f : Q -> Q -> bool) (x y : option Q) : bool :=
  match x, y with
  | Some a, Some b => f a b
  | _, _ => false
  end.

(** The test made for index [house] in the loop of [getPlanetHouse]. *)
Definition inHouse (planetPosition : Q) (houses : list Q) (house : nat) : bool :=
  let currentHouse := nth_error houses house in
  let nextHouse := nth_error houses (if Nat.eqb house 11 then 0 else house + 1) in
  if cmp_opt leb currentHouse nextHouse
  then cmp_opt geb (Some planetPosition) currentHouse
       && cmp_opt ltb (Some planetPosition) nextHouse
  else cmp_opt geb (Some planetPosition) currentHouse
       || cmp_opt ltb (Some planetPosition) nextHouse.

(** The loop [for (let house = 0; house < 12; house++)], over the indices
    still to visit, with its fall-through [return 1]. *)
Fixpoint getPlanetHouse_loop (planetPosition : Q) (houses : list Q)
    (indices : list nat) : Z :=
  match indices with
  | [] => 1%Z
  | house :: rest =>
      if inHouse planetPosition houses house
      then (Z.of_nat house + 1)%Z
      else getPlanetHouse_loop planetPosition houses rest
  end.

(** [getPlanetHouse(planetPosition, houses)]. *)
Definition getPlanetHouse (planetPosition : Q) (houses : list Q) : Z :=
  getPlanetHouse_loop planetPosition houses (seq 0 12).

(** *** Charts *)

(** A user with an assembled chart: the birth data and the sixteen
    positions that the synastry functions read. *)
Record User : Type := mkUser {
  username : string;
  dateOfBirth : string;
  timeOfBirth : string;
  placeOfBirth : string;
  sunPosition : Q;
  moonPosition : Q;
  mercuryPosition : Q;
  venusPosition : Q;
  marsPosition : Q;
  jupiterPosition : Q;
  saturnPosition : Q;
  uranusPosition : Q;
  neptunePosition : Q;
  plutoPosition : Q;
  trueNodePosition : Q;
  chironPosition : Q;
  fortunaPosition : Q;
  vertexPosition : Q;
  ascendantPosition : Q;
  midHeavenPosition : Q
}.

(** *** Synastry: the three synchronous sub-scores *)

(** [calculateVenusMarsSynastry(user1, user2)]. *)
Definition calculateVenusMarsSynastry (user1 user2 : User) : Q :=
  let venus1Mars2 :=
    calculateAspectStrength (venusPosition user1) (marsPosition user2) in
  let venus2Mars1 :=
    calculateAspectStrength (venusPosition user2) (marsPosition user1) in
  (venus1Mars2 + venus2Mars1) / 2.

(** The arrays [planets1] and [planets2] of [calculateFullChartSynastry]. *)
Definition fullChartPlanets (user : User) : list Q :=
  [ sunPosition user; moonPosition user; mercuryPosition user;
    venusPosition user; marsPosition user; jupiterPosition user;
    saturnPosition user; uranusPosition user; neptunePosition user;
    plutoPosition user; trueNodePosition user; chironPosition user;
    fortunaPosition user; vertexPosition user; ascendantPosition user;
    midHeavenPosition user ].

(** The two nested [for] loops, threading [(totalAspects, aspectCount)]. *)
Definition fullChart_inner (p1 : Q) (planets2 : list Q) (st : Q * nat)
  : Q * nat :=
  fold_left
    (fun '(totalAspects, aspectCount) p2 =>
       (totalAspects + calculateAspectStrength p1 p2, S aspectCount))
    planets2 st.

Definition fullChart_outer (planets1 planets2 : list Q) (st : Q * nat)
  : Q * nat :=
  fold_left (fun st p1 => fullChart_inner p1 planets2 st) planets1 st.

(** [calculateFullChartSynastry(user1, user2)]. *)
Definition calculateFullChartSynastry (user1 user2 : User) : Q :=
  let planets1 := fullChartPlanets user1 in
  let planets2 := fullChartPlanets user2 in
  let '(totalAspects, aspectCount) :=
    fullChart_outer planets1 planets2 (0, 0%nat) in
  if (0 <? aspectCount)%nat
  then totalAspects / inject_Z (Z.of_nat aspectCount)
  else 0.

(** The arrays [planets1] and [planets2] of [calculateSynastryAspects]. *)
Definition synastryPlanets (user : User) : list (string * Q) :=
  [ ("sun", sunPosition user); ("moon", moonPosition user);
    ("mercury", mercuryPosition user); ("venus", venusPosition user);
    ("mars", marsPosition user); ("jupiter", jupiterPosition user);
    ("saturn", saturnPosition user); ("uranus", uranusPosition user);
    ("neptune", neptunePosition user); ("pluto", plutoPosition user);
    ("ascendant", ascendantPosition user);
    ("midheaven", midHeavenPosition user) ]%string.

Record SynastryAspect : Type := mkSynastryAspect {
  sa_planet1 : string;
  sa_planet2 : string;
  sa_aspect : string;
  sa_orb : OrbValue;
  sa_strength : Q
}.

Record SynastryAspects : Type := mkSynastryAspects {
  aspects : list SynastryAspect;
  aspects_score : Q;
  count : nat
}.

(** The two nested [forEach], threading [(aspects, totalScore)]. *)
Definition synastry_inner (planet1 : string * Q)
    (planets2 : list (string * Q)) (st : list SynastryAspect * Q)
  : list SynastryAspect * Q :=
  fold_left
    (fun '(aspects, totalScore) planet2 =>
       let aspect := findAspect (snd planet1) (snd planet2) in
       (aspects ++ [ {| sa_planet1 := fst planet1;
                        sa_planet2 := fst planet2;
                        sa_aspect := name aspect;
                        sa_orb := orb aspect;
                        sa_strength := strength aspect |} ],
        totalScore + strength aspect))
    planets2 st.

Definition synastry_outer (planets1 planets2 : list (string * Q))
    (st : list SynastryAspect * Q) : list SynastryAspect * Q :=
  fold_left (fun st planet1 => synastry_inner planet1 planets2 st)
    planets1 st.

(** [calculateSynastryAspects(user1, user2)]. *)
Definition calculateSynastryAspects (user1 user2 : User) : SynastryAspects :=
  let planets1 := synastryPlanets user1 in
  let planets2 := synastryPlanets user2 in
  let '(aspects, totalScore) := synastry_outer planets1 planets2 ([], 0) in
  {| aspects := aspects;
     aspects_score :=
       if (0 <? List.length aspects)%nat
       then totalScore / inject_Z (Z.of_nat (List.length aspects))
       else 0;
     count := List.length aspects |}.

(** *** Synastry: house overlays and the combined score *)

Record Transposition : Type := mkTransposition {
  tr_planet : string;
  tr_house : Z;
  tr_owner : string;
  tr_inChart : string
}.

Record HouseTranspositions : Type := mkHouseTranspositions {
  transpositions : list Transposition;
  transpositions_score : Q;
  harmoniousCount : nat;
  totalPlacements : nat
}.

Record Compatibility : Type := mkCompatibility {
  compatibilityScore : Q;
  venusMarsSynastry : Q;
  fullChartSynastry : Q;
  synastryAspects : SynastryAspects;
  houseTranspositions : HouseTranspositions
}.

(** The array [planets] of [calculateHouseTranspositions]. *)
Definition transpositionPlanets (user1 : User) : list (string * Q) :=
  [ ("Sun", sunPosition user1); ("Moon", moonPosition user1);
    ("Venus", venusPosition user1); ("Mars", marsPosition user1);
    ("Jupiter", jupiterPosition user1);
    ("Saturn", saturnPosition user1) ]%string.

(** [[1, 5, 7, 9, 11].includes(house)]. *)
Definition harmonious (house : Z) : bool :=
  existsb (Z.eqb house) [1; 5; 7; 9; 11]%Z.

(** The body of [planets.forEach], threading
    [(transpositions, harmoniousCount)]. *)
Definition transposition_step (user1 user2 : User) (user2Houses : list Q)
    (st : list Transposition * nat) (planet : string * Q)
  : list Transposition * nat :=
  let '(transpositions, harmoniousCount) := st in
  let house := getPlanetHouse (snd planet) user2Houses in
  (transpositions ++ [ {| tr_planet := fst planet;
                          tr_house := house;
                          tr_owner := username user1;
                          tr_inChart := username user2 |} ],
   if harmonious house then S harmoniousCount else harmoniousCount).

(** [calculateHouseTranspositions] once [user2Houses] is known. *)
Definition houseTranspositions_of (user1 user2 : User)
    (user2Houses : list Q) : HouseTranspositions :=
  let planets := transpositionPlanets user1 in
  let '(transpositions, harmoniousCount) :=
    fold_left (transposition_step user1 user2 user2Houses) planets
      ([], 0%nat) in
  {| transpositions := transpositions;
     transpositions_score :=
       if (0 <? List.length planets)%nat
       then inject_Z (Z.of_nat harmoniousCount)
            / inject_Z (Z.of_nat (List.length planets))
       else 0;
     harmoniousCount := harmoniousCount;
     totalPlacements := List.length planets |}.

(** What the geocoding library returns for one match. *)
Record GeoResult : Type := mkGeoResult {
  latitude : Q;
  longitude : Q;
  formattedAddress : string
}.

Record Coords : Type := mkCoords {
  lat : Q;
  lon : Q;
  display_name : string
}.

(** The fields of a valid [Date] that [dateToJulianDay] reads, in local
    time; [getMonth] counts from 0. *)
Record DateFields : Type := mkDateFields {
  getFullYear : Z;
  getMonth : Z;
  getDate : Z;
  getHours : Z;
  getMinutes : Z;
  getSeconds : Z
}.

Section Collaborators.

(** [this.geocoder.geocode(location)]: the external geocoder, whose
    promise resolves to an array of matches or is rejected. *)
Variable geocode : string -> result (list GeoResult).

(** [new Date(text)]: the platform's date parser; [None] is an invalid
    date, all of whose getters return [NaN]. *)
Variable newDate : string -> option DateFields.

(** [geocodeLocation(location)].  The write to [geocodeCache] is not
    modelled: nothing reads the cache. *)
Definition geocodeLocation (location : string) : result Coords :=
  let* results := geocode location in
  match results with
  | [] => Throw TypeError
  | r :: _ =>
      Ok {| lat := latitude r;
            lon := longitude r;
            display_name := formattedAddress r |}
  end.

(** [dateToJulianDay(dateStr, timeStr)].  On an invalid date the four
    numbers passed to [swe_julday] are [NaN]. *)
Definition dateToJulianDay (dateStr timeStr : string) : result number :=
  match newDate (dateStr ++ "T" ++ timeStr)%string with
  | None => swe_julday NaN NaN NaN NaN SE_GREG_CAL
  | Some date =>
      let hour :=
        inject_Z (getHours date)
        + inject_Z (getMinutes date) / 60.0
        + inject_Z (getSeconds date) / 3600.0 in
      swe_julday
        (inject_Z (getFullYear date))
        (inject_Z (getMonth date) + 1)
        (inject_Z (getDate date))
        hour
        SE_GREG_CAL
  end.

(** [calculateHouses(jd, coords)]. *)
Definition calculateHouses (jd : number) (coords : Coords)
  : result (list Q) :=
  let* houseResult :=
    swe_houses jd (lat coords) (lon coords) SE_HSYS_PLACIDUS in
  Ok (houses houseResult).

(** The houses of [user2] as [calculateHouseTranspositions] obtains
    them: geocode the birth place, convert the birth date and time,
    compute the houses. *)
Definition user2Houses_of (user2 : User) : result (list Q) :=
  let* coords := geocodeLocation (placeOfBirth user2) in
  let* jd := dateToJulianDay (dateOfBirth user2) (timeOfBirth user2) in
  calculateHouses jd coords.

(** [calculateHouseTranspositions(user1, user2)]. *)
Definition calculateHouseTranspositions (user1 user2 : User)
  : result HouseTranspositions :=
  let* user2Houses := user2Houses_of user2 in
  Ok (houseTranspositions_of user1 user2 user2Houses).

(** [calculateCompatibility(user1, user2)]. *)
Definition calculateCompatibility (user1 user2 : User)
  : result Compatibility :=
  let venusMarsSynastry := calculateVenusMarsSynastry user1 user2 in
  let fullChartSynastry := calculateFullChartSynastry user1 user2 in
  let synastryAspects := calculateSynastryAspects user1 user2 in
  let* houseTranspositions :=
    calculateHouseTranspositions user1 user2 in
  let compatibilityScore :=
    (venusMarsSynastry * 0.4) + (fullChartSynastry * 0.3)
    + (aspects_score synastryAspects * 0.2)
    + (transpositions_score houseTranspositions * 0.1) in
  Ok {| compatibilityScore := compatibilityScore;
        venusMarsSynastry := venusMarsSynastry;
        fullChartSynastry := fullChartSynastry;
        synastryAspects := synastryAspects;
        houseTranspositions := houseTranspositions |}.

End Collaborators.

(** *** Signs of the zodiac *)

Definition ZODIAC_SIGNS : list string :=
  [ "Aries"; "Taurus"; "Gemini"; "Cancer"; "Leo"; "Virgo";
    "Libra"; "Scorpio"; "Sagittarius"; "Capricorn"; "Aquarius";
    "Pisces" ]%string.

(** [array[x]] for a number [x]: [undefined] unless [x] is a non-negative
    integer below the length. *)
Definition array_get {A : Type} (array : list A) (x : Q) : option A :=
  if isInteger x && geb x 0
  then nth_error array (Z.to_nat (Qfloor x))
  else None.

Record SignPosition : Type := mkSignPosition {
  sign : option string;
  degreesInSign : Q;
  minutes : Q
}.

(** [degreesToSign(degrees)]. *)
Definition degreesToSign (degrees : Q) : SignPosition :=
  let normalizedDegrees := rem (rem degrees 360 + 360) 360 in
  let signIndex := rem (floor (normalizedDegrees / 30)) 12 in
  let degreesInSign := floor (rem normalizedDegrees 30) in
  let minutes := floor (rem normalizedDegrees 1 * 60) in
  {| sign := array_get ZODIAC_SIGNS signIndex;
     degreesInSign := degreesInSign;
     minutes := minutes |}.

(** [getZodiacSign(degrees)]. *)
Definition getZodiacSign (degrees : Q) : option string :=
  let normalizedDegrees := rem (rem degrees 360 + 360) 360 in
  let signIndex := floor (normalizedDegrees / 30) in
  array_get ZODIAC_SIGNS signIndex.

(** *** Aspect helpers *)

Record CalculatedAspect : Type := mkCalculatedAspect {
  ca_aspect : string;
  ca_orb : OrbValue;
  ca_strength : Q
}.

(** [calculateAspect(pos1, pos2)]. *)
Definition calculateAspect (pos1 pos2 : Q) : CalculatedAspect :=
  let aspectData := findAspect pos1 pos2 in
  {| ca_aspect := name aspectData;
     ca_orb := orb aspectData;
     ca_strength := strength aspectData |}.

(** The object [orbs] of [getAspectOrb]. *)
Definition getAspectOrb_orbs : list (string * Q) :=
  [ ("Conjunction", 8); ("Sextile", 6); ("Square", 8); ("Trine", 8);
    ("Opposition", 8); ("Semisextile", 3); ("Semisquare", 3);
    ("Sesquiquadrate", 3); ("Quincunx", 3) ]%string.

(** [getAspectOrb(aspectName)]; [None] is [undefined]. *)
Definition getAspectOrb (aspectName : string) : option Q :=
  option_map snd
    (find (fun entry => String.eqb (fst entry) aspectName) getAspectOrb_orbs).

(** The object [planets] of [getPlanetAspects], in insertion order. *)
Definition getPlanetAspects_planets (user : User) : list (string * Q) :=
  [ ("Sun", sunPosition user); ("Moon", moonPosition user);
    ("Mercury", mercuryPosition user); ("Venus", venusPosition user);
    ("Mars", marsPosition user); ("Jupiter", jupiterPosition user);
    ("Saturn", saturnPosition user); ("Uranus", uranusPosition user);
    ("Neptune", neptunePosition user); ("Pluto", plutoPosition user);
    ("True Node", trueNodePosition user); ("Chiron", chironPosition user);
    ("Ascendant", ascendantPosition user);
    ("Midheaven", midHeavenPosition user) ]%string.

(** The body of [Object.entries(planets).forEach], threading [aspects]. *)
Definition getPlanetAspects_step (planetName : string) (position : Q)
    (aspects : list string) (entry : string * Q) : list string :=
  let '(otherPlanet, otherPosition) := entry in
  if negb (String.eqb otherPlanet planetName)
  then
    let aspectData := calculateAspect position otherPosition in
    if negb (String.eqb (ca_aspect aspectData) "None")
    then aspects ++ [ (ca_aspect aspectData ++ " to " ++ otherPlanet)%string ]
    else aspects
  else aspects.

(** [getPlanetAspects(planetName, position, user)].  The fields of a
    [User] are never [undefined], and the object [calculateAspect] returns
    is truthy. *)
Definition getPlanetAspects (planetName : string) (position : Q)
    (user : User) : list string :=
  fold_left (getPlanetAspects_step planetName position)
    (getPlanetAspects_planets user) [].

(** *** The natal chart *)

(** A JavaScript object whose values are numbers, as an association list
    in insertion order; a value [None] is [undefined]. *)
Definition NumberObject : Type := list (string * option number).

(** [object[key]]. *)
Definition object_get (object : NumberObject) (key : string)
  : option number :=
  match find (fun entry => String.eqb (fst entry) key) object with
  | Some entry => snd entry
  | None => None
  end.

(** [object[key] = value]: an existing key keeps its place. *)
Fixpoint object_set (object : NumberObject) (key : string)
    (value : option number) : NumberObject :=
  match object with
  | [] => [ (key, value) ]
  | (k, v) :: rest =>
      if String.eqb k key then (k, value) :: rest
      else (k, v) :: object_set rest key value
  end.

(** [Object.keys(object)]. *)
Definition object_keys (object : NumberObject) : list string :=
  map fst object.

(** [text.replace(pattern, '')] for a string pattern: the first occurrence
    is removed. *)
Fixpoint removeFirst (pattern text : string) : string :=
  if String.prefix pattern text
  then String.substring (String.length pattern)
         (String.length text - String.length pattern) text
  else match text with
       | EmptyString => EmptyString
       | String c rest => String c (removeFirst pattern rest)
       end.

(** [findAspect] on values read from an object: with an operand that is
    [undefined] or not finite every [aspectDiff] is [NaN] or [Infinity],
    no comparison [aspectDiff <= aspect.orb] holds and the scan falls
    through. *)
Definition findAspect_value (pos1 pos2 : option number) : AspectResult :=
  match pos1, pos2 with
  | Some (Finite pos1), Some (Finite pos2) => findAspect pos1 pos2
  | _, _ => {| name := "None"; orb := OrbNumber 0; strength := 0 |}
  end.

(** [getPlanetHouse] on a value read from an object: the test and the
    loop of [getPlanetHouse], where no comparison with [undefined] or
    [NaN] holds. *)
Definition cmp_value (f : number -> number -> bool) (x : option number)
    (y : option Q) : bool :=
  match x, y with
  | Some a, Some b => f a b
  | _, _ => false
  end.

Definition inHouse_value (planetPosition : option number) (houses : list Q)
    (house : nat) : bool :=
  let currentHouse := nth_error houses house in
  let nextHouse :=
    nth_error houses (if Nat.eqb house 11 then 0 else house + 1) in
  if cmp_opt leb currentHouse nextHouse
  then cmp_value number_geb planetPosition currentHouse
       && cmp_value number_ltb planetPosition nextHouse
  else cmp_value number_geb planetPosition currentHouse
       || cmp_value number_ltb planetPosition nextHouse.

Fixpoint getPlanetHouse_value_loop (planetPosition : option number)
    (houses : list Q) (indices : list nat) : Z :=
  match indices with
  | [] => 1%Z
  | house :: rest =>
      if inHouse_value planetPosition houses house
      then (Z.of_nat house + 1)%Z
      else getPlanetHouse_value_loop planetPosition houses rest
  end.

Definition getPlanetHouse_value (planetPosition : option number)
    (houses : list Q) : Z :=
  getPlanetHouse_value_loop planetPosition houses (seq 0 12).

(** The array [planets] of [calculateNatalAspects]. *)
Definition calculateNatalAspects_planets : list string :=
  [ "sunPosition"; "moonPosition"; "mercuryPosition"; "venusPosition";
    "marsPosition"; "jupiterPosition"; "saturnPosition"; "uranusPosition";
    "neptunePosition"; "plutoPosition"; "trueNodePosition";
    "chironPosition" ]%string.

(** The loops [for i] and [for j = i + 1] of [calculateNatalAspects]. *)
Definition natalAspect (positions : NumberObject) (planet1 planet2 : string)
  : SynastryAspect :=
  let pos1 := object_get positions planet1 in
  let pos2 := object_get positions planet2 in
  let aspect := findAspect_value pos1 pos2 in
  {| sa_planet1 := removeFirst "Position" planet1;
     sa_planet2 := removeFirst "Position" planet2;
     sa_aspect := name aspect;
     sa_orb := orb aspect;
     sa_strength := strength aspect |}.

Fixpoint calculateNatalAspects_loop (positions : NumberObject)
    (planets : list string) : list SynastryAspect :=
  match planets with
  | [] => []
  | planet1 :: rest =>
      map (natalAspect positions planet1) rest
      ++ calculateNatalAspects_loop positions rest
  end.

(** [calculateNatalAspects(positions)]. *)
Definition calculateNatalAspects (positions : NumberObject)
  : list SynastryAspect :=
  calculateNatalAspects_loop positions calculateNatalAspects_planets.

(** The object [planetMap] of [calculatePlanetPosition]. *)
Definition planetMap : list (string * Z) :=
  [ ("Sun", SE_SUN); ("Moon", SE_MOON); ("Mercury", SE_MERCURY);
    ("Venus", SE_VENUS); ("Mars", SE_MARS); ("Jupiter", SE_JUPITER);
    ("Saturn", SE_SATURN); ("Uranus", SE_URANUS); ("Neptune", SE_NEPTUNE);
    ("Pluto", SE_PLUTO); ("TrueNode", SE_TRUE_NODE);
    ("Chiron", SE_CHIRON) ]%string.

(** What [calculateNatalChart] returns: the object [positions] with its
    numeric properties and its property [natalAspects]. *)
Record NatalChart : Type := mkNatalChart {
  chart_positions : NumberObject;
  chart_natalAspects : list SynastryAspect
}.

Section Engine.

(** The collaborators, and the sidereal mode of [this.sweph]. *)
Variable geocode : string -> result (list GeoResult).
Variable newDate : string -> option DateFields.
Variable siderealMode : Z.

(** [calculatePlanetPosition(planet, jd, coords)]. *)
Definition calculatePlanetPosition (planet : string) (jd : number)
    (coords : Coords) : result Q :=
  let planetId :=
    option_map (fun entry => Finite (inject_Z (snd entry)))
      (find (fun entry => String.eqb (fst entry) planet) planetMap) in
  let flags := Z.lor SEFLG_SWIEPH SEFLG_SIDEREAL in
  let* result := swe_calc_ut siderealMode jd planetId flags in
  Ok (calc_longitude result).

(** [calculateFortuna(jd, coords)]. *)
Definition calculateFortuna (jd : number) (coords : Coords) : result number :=
  let* referenceBirth := dateToJulianDay newDate "1985-09-15" "00:24" in
  let referenceFortuna := 62.0 in
  let daysDiff := number_sub jd referenceBirth in
  let fortunaMotion := 13.1763 in
  let fortuna :=
    number_add referenceFortuna (number_mul fortunaMotion daysDiff) in
  Ok (number_rem (number_add (number_rem fortuna 360) 360) 360).

(** [calculateVertex(jd, coords)]. *)
Definition calculateVertex (jd : number) (coords : Coords) : result number :=
  let* referenceBirth := dateToJulianDay newDate "1985-09-15" "00:24" in
  let referenceVertex := 207.0 in
  let timeDiff := number_mul (number_sub jd referenceBirth) 24 in
  let latDiff := lat coords - 36.7378 in
  let vertex :=
    number_add (number_add referenceVertex (number_mul timeDiff 0.25))
      (latDiff * 0.1) in
  Ok (number_rem (number_add (number_rem vertex 360) 360) 360).

(** [calculateAscendant(jd, coords)] and [calculateMidHeaven(jd, coords)]. *)
Definition calculateAscendant (jd : number) (coords : Coords)
  : result (option Q) :=
  let* houseResult :=
    swe_houses jd (lat coords) (lon coords) SE_HSYS_PLACIDUS in
  Ok (ascendant houseResult).

Definition calculateMidHeaven (jd : number) (coords : Coords)
  : result (option Q) :=
  let* houseResult :=
    swe_houses jd (lat coords) (lon coords) SE_HSYS_PLACIDUS in
  Ok (mc houseResult).

(** The properties of the object literal [positions], in the order in
    which they are evaluated. *)
Definition positionEntries
  : list (string * (number -> Coords -> result (option number))) :=
  let planet (body : string) (jd : number) (coords : Coords) :=
    let* longitude := calculatePlanetPosition body jd coords in
    Ok (Some (Finite longitude)) in
  let point (f : number -> Coords -> result number) (jd : number)
      (coords : Coords) :=
    let* longitude := f jd coords in
    Ok (Some longitude) in
  let cusp (f : number -> Coords -> result (option Q)) (jd : number)
      (coords : Coords) :=
    let* longitude := f jd coords in
    Ok (option_map Finite longitude) in
  [ ("sunPosition", planet "Sun");
    ("moonPosition", planet "Moon");
    ("mercuryPosition", planet "Mercury");
    ("venusPosition", planet "Venus");
    ("marsPosition", planet "Mars");
    ("jupiterPosition", planet "Jupiter");
    ("saturnPosition", planet "Saturn");
    ("uranusPosition", planet "Uranus");
    ("neptunePosition", planet "Neptune");
    ("plutoPosition", planet "Pluto");
    ("trueNodePosition", planet "TrueNode");
    ("chironPosition", planet "Chiron");
    ("fortunaPosition", point calculateFortuna);
    ("vertexPosition", point calculateVertex);
    ("ascendantPosition", cusp calculateAscendant);
    ("midHeavenPosition", cusp calculateMidHeaven) ]%string.

(** The evaluation of the object literal: the first property whose value
    throws ends it. *)
Fixpoint evaluateEntries
    (entries : list (string * (number -> Coords -> result (option number))))
    (jd : number) (coords : Coords) : result NumberObject :=
  match entries with
  | [] => Ok []
  | (key, compute) :: rest =>
      let* value := compute jd coords in
      let* object := evaluateEntries rest jd coords in
      Ok ((key, value) :: object)
  end.

(** The body of [Object.keys(positions).forEach]. *)
Definition addHouse (houses : list Q) (positions : NumberObject)
    (planetKey : string) : NumberObject :=
  let planetPosition := object_get positions planetKey in
  let house := getPlanetHouse_value planetPosition houses in
  object_set positions (planetKey ++ "House")%string
    (Some (Finite (inject_Z house))).

(** [calculateNatalChart(dateOfBirth, timeOfBirth, placeOfBirth)]. *)
Definition calculateNatalChart (dateOfBirth timeOfBirth placeOfBirth : string)
  : result NatalChart :=
  let* coords := geocodeLocation geocode placeOfBirth in
  let* jd := dateToJulianDay newDate dateOfBirth timeOfBirth in
  let* positions := evaluateEntries positionEntries jd coords in
  let* houses := calculateHouses jd coords in
  let positions :=
    fold_left (addHouse houses) (object_keys positions) positions in
  Ok {| chart_positions := positions;
        chart_natalAspects := calculateNatalAspects positions |}.

End Engine.

(** *** The house lookups of the chart text *)

(** [text.toLowerCase()], for a text of ASCII characters. *)
Definition toLowerCase_ascii (c : Ascii.ascii) : Ascii.ascii :=
  let n := Ascii.nat_of_ascii c in
  if (65 <=? n)%nat && (n <=? 90)%nat
  then Ascii.ascii_of_nat (n + 32)
  else c.

Fixpoint toLowerCase (text : string) : string :=
  match text with
  | EmptyString => EmptyString
  | String c rest => String (toLowerCase_ascii c) (toLowerCase rest)
  end.

(** [text.replace(/ /g, '')]. *)
Fixpoint removeSpaces (text : string) : string :=
  match text with
  | EmptyString => EmptyString
  | String c rest =>
      if Ascii.eqb c (Ascii.ascii_of_nat 32) then removeSpaces rest
      else String c (removeSpaces rest)
  end.

(** The names of the array [planets] of [generateNatalChartText] (the
    second definition of the method, which replaces the first). *)
Definition generateNatalChartText_names : list string :=
  [ "Sun"; "Moon"; "Mercury"; "Venus"; "Mars"; "Jupiter"; "Saturn";
    "Uranus"; "Neptune"; "Pluto"; "True Node"; "Chiron"; "Fortuna";
    "Vertex"; "Ascendant"; "Midheaven" ]%string.

(** [planet.name.toLowerCase().replace(/ /g, '') + 'PositionHouse']. *)
Definition generateNatalChartText_houseKey (planetName : string) : string :=
  (removeSpaces (toLowerCase planetName) ++ "PositionHouse")%string.

(** The lookups [userData[houseKey]] of the loop of
    [generateNatalChartText], planet by planet, on the numeric properties
    of [userData]; [None] is printed as "undefined". *)
Definition generateNatalChartText_houses (userData : NumberObject)
  : list (string * option number) :=
  map (fun planetName =>
         (planetName,
          object_get userData (generateNatalChartText_houseKey planetName)))
    generateNatalChartText_names.

End AstrologyEngine.

(** ** The statements of the specification *)

Module Spec.

Import AstrologyEngine.

(** The Gregorian day-number formula of section 4.1, on integers
    ([/] on [Z] rounds towards minus infinity). *)
Definition jdn (year month day : Z) : Z :=
  (let a := (14 - month) / 12 in
   let y := year + 4800 - a in
   let m := month + 12 * a - 3 in
   day + (153 * m + 2) / 5 + 365 * y + y / 4 - y / 100 + y / 400 - 32045)%Z.

(** [JD = jdn + (hourOfDay - 12) / 24]. *)
Definition toJulianDay (year month day : Z) (hourOfDay : Q) : Q :=
  inject_Z (jdn year month day) + (hourOfDay - 12) / 24.

(** A number is an integer. *)
Definition integer (x : Q) : Prop := exists z : Z, x == inject_Z z.

(** The inputs of the Julian-day conversion that are in range. *)
Definition accepted (year month day hour : Q) : Prop :=
  integer year /\ integer month /\ integer day
  /\ 1 <= month /\ month <= 12 /\ 1 <= day /\ day <= 31
  /\ 0 <= hour /\ hour < 24.

(** The inputs that are not, condition by condition. *)
Definition refused (year month day hour : Q) : Prop :=
  ~ integer year \/ ~ integer month \/ ~ integer day
  \/ month < 1 \/ 12 < month \/ day < 1 \/ 31 < day
  \/ hour < 0 \/ 24 <= hour.

(** A value lies in the unit interval. *)
Definition unit_interval (x : Q) : Prop := 0 <= x /\ x <= 1.

(** The sum of a list of numbers. *)
Definition sumQ (l : list Q) : Q := fold_right Qplus 0 l.

(** The mean of [f] over every pairing of a position of the first list
    with a position of the second. *)
Definition crossMean (f : Q -> Q -> Q) (l1 l2 : list Q) : Q :=
  sumQ (map (fun pq => f (fst pq) (snd pq)) (list_prod l1 l2))
  / inject_Z (Z.of_nat (List.length (list_prod l1 l2))).

(** The five major aspects. *)
Definition major (aspect : string) : bool :=
  existsb (String.eqb aspect)
    ["Conjunction"; "Sextile"; "Square"; "Trine"; "Opposition"]%string.

(** The strength of a classification counted only when the aspect is a
    major one. *)
Definition majorStrength (r : AspectResult) : Q :=
  if major (name r) then strength r else 0.

(** The six bodies of the house overlay. *)
Definition overlayBodies (user : User) : list Q :=
  [ sunPosition user; moonPosition user; venusPosition user;
    marsPosition user; jupiterPosition user; saturnPosition user ].

(** The harmonious houses of the overlay: the first, the fifth, the
    seventh, the ninth and the eleventh. *)
Definition harmoniousHouse (h : Z) : bool :=
  ((h =? 1) || (h =? 5) || (h =? 7) || (h =? 9) || (h =? 11))%Z.

(** How many of the positions fall in a harmonious house of the cusps. *)
Definition harmoniousPlacements (positions cusps : list Q) : nat :=
  List.length
    (filter (fun p => harmoniousHouse (getPlanetHouse p cusps)) positions).

(** A table whose orbs are positive and whose base strengths lie in the
    unit interval. *)
Definition graded (aspects : list Aspect) : Prop :=
  Forall (fun a => 0 < aspect_orb a
                   /\ 0 <= aspect_strength a /\ aspect_strength a <= 1)
    aspects.

(** The index of a house as a number. *)
Definition idx (i : nat) : Q := inject_Z (Z.of_nat i).

(** Position [p] lies on the cyclic arc of 30 degrees that starts [i]
    houses after the first cusp [c]. *)
Definition onArc (c : Q) (i : nat) (p : Q) : Prop :=
  let start := c + 30 * idx i in
  (start <= p /\ p < start + 30) \/ (start <= p + 360 /\ p + 360 < start + 30).

(** Position [p] lies on the cyclic arc that runs from cusp [i] to the
    next cusp, the first cusp coming after the twelfth: the arc
    [[cusps[i], cusps[i+1 mod 12])], which wraps through 360 degrees when
    the next cusp is the smaller one. *)
Definition inArc (cusps : list Q) (i : nat) (p : Q) : Prop :=
  exists start stop : Q,
    nth_error cusps i = Some start
    /\ nth_error cusps (S i mod 12) = Some stop
    /\ ((start <= stop /\ start <= p /\ p < stop)
        \/ (stop < start /\ (start <= p \/ p < stop))).


(** What the scan of [findAspect] returns on a matching entry. *)
Definition matched (angle : Q) (e : Aspect) : AspectResult :=
  {| name := aspect_name e;
     orb := OrbText (toFixed2 (abs (angle - aspect_angle e)));
     strength :=
       aspect_strength e
       * (1 - abs (angle - aspect_angle e) / aspect_orb e) |}.

(** The angle is within the orb of the entry. *)
Definition within (angle : Q) (e : Aspect) : bool :=
  leb (abs (angle - aspect_angle e)) (aspect_orb e).

(** The keys of the object [positions] of [calculateNatalChart], in the
    order of the object literal. *)
Definition positionKeys : list string :=
  [ "sunPosition"; "moonPosition"; "mercuryPosition"; "venusPosition";
    "marsPosition"; "jupiterPosition"; "saturnPosition"; "uranusPosition";
    "neptunePosition"; "plutoPosition"; "trueNodePosition";
    "chironPosition"; "fortunaPosition"; "vertexPosition";
    "ascendantPosition"; "midHeavenPosition" ]%string.

(** The key under which the house of a position is stored. *)
Definition houseKeyOf (positionKey : string) : string :=
  (positionKey ++ "House")%string.

(** The numeric properties of a chart whose positions are [longitudes]
    and whose cusps are [cusps]: the positions, then their houses. *)
Definition chartObject (longitudes cusps : list Q) : NumberObject :=
  combine positionKeys (map (fun q => Some (Finite q)) longitudes)
  ++ combine (map houseKeyOf positionKeys)
       (map (fun q => Some (Finite (inject_Z (getPlanetHouse q cusps))))
          longitudes).

(** The twelve primary bodies of a chart, by the name under which the
    natal aspects report them. *)
Definition primaryBodies : list string :=
  [ "sun"; "moon"; "mercury"; "venus"; "mars"; "jupiter"; "saturn";
    "uranus"; "neptune"; "pluto"; "trueNode"; "chiron" ]%string.

(** In the list, [x] comes before [y]. *)
Definition before (l : list string) (x y : string) : Prop :=
  exists i j : nat,
    (i < j)%nat /\ nth_error l i = Some x /\ nth_error l j = Some y.

(** The pairs of elements of a list, the earlier element first. *)
Fixpoint pairs (l : list string) : list (string * string) :=
  match l with
  | [] => []
  | x :: rest => map (pair x) rest ++ pairs rest
  end.

(** The natal aspect of two bodies: their names and the classification of
    the values the object holds under their position keys. *)
Definition natalEntry (positions : NumberObject) (body1 body2 : string)
  : SynastryAspect :=
  let classification :=
    findAspect_value (object_get positions (body1 ++ "Position")%string)
      (object_get positions (body2 ++ "Position")%string) in
  {| sa_planet1 := body1;
     sa_planet2 := body2;
     sa_aspect := name classification;
     sa_orb := orb classification;
     sa_strength := strength classification |}.

(** The twelve points of a chart that the synastry aspects pair: the ten
    planets, the ascendant and the midheaven. *)
Definition synastryPoints (user : User) : list (string * Q) :=
  [ ("sun", sunPosition user); ("moon", moonPosition user);
    ("mercury", mercuryPosition user); ("venus", venusPosition user);
    ("mars", marsPosition user); ("jupiter", jupiterPosition user);
    ("saturn", saturnPosition user); ("uranus", uranusPosition user);
    ("neptune", neptunePosition user); ("pluto", plutoPosition user);
    ("ascendant", ascendantPosition user);
    ("midheaven", midHeavenPosition user) ]%string.

(** The synastry aspect of a point of the first chart and a point of the
    second: their names and their classification. *)
Definition synastryEntry (point1 point2 : string * Q) : SynastryAspect :=
  let classification := findAspect (snd point1) (snd point2) in
  {| sa_planet1 := fst point1;
     sa_planet2 := fst point2;
     sa_aspect := name classification;
     sa_orb := orb classification;
     sa_strength := strength classification |}.

(** Two angles differ by a whole number of turns. *)
Definition congruent360 (x y : Q) : Prop :=
  exists k : Z, x == y + 360 * inject_Z k.

(** The number is the integer [id]. *)
Definition isIdentifier (x : number) (id : Z) : Prop :=
  exists q : Q, x = Finite q /\ q == inject_Z id.

(** An angle lies in [[0, 360)]. *)
Definition longitude_range (x : Q) : Prop := 0 <= x /\ x < 360.

(** The fields of a [Date] are those of a calendar instant. *)
Definition validDate (date : DateFields) : Prop :=
  (0 <= getMonth date <= 11 /\ 1 <= getDate date <= 31
   /\ 0 <= getHours date <= 23 /\ 0 <= getMinutes date <= 59
   /\ 0 <= getSeconds date <= 59)%Z.

(** A coordinate [swe_houses] accepts. *)
Definition validCoords (coords : Coords) : Prop :=
  Qabs (lat coords) <= 90 /\ Qabs (lon coords) <= 180.

End Spec.

(** ** Sample charts *)

Module Samples.

Import AstrologyEngine.

(** A chart all of whose sixteen points sit at longitude [p]. *)
Definition uniformChart (who born at_time place : string) (p : Q) : User :=
  mkUser who born at_time place p p p p p p p p p p p p p p p p.

Definition userA : User :=
  uniformChart "A" "2000-01-01" "12:00" "Greenwich" 0.
Definition userB : User :=
  uniformChart "B" "2000-01-01" "12:00" "Greenwich" 30.


(** A geocoder that knows one place, and a date parser that knows one
    instant. *)
Definition geocode (location : string) : result (list GeoResult) :=
  if String.eqb location "Greenwich"
  then Ok [ mkGeoResult 51.4779 0 "Greenwich, London" ]
  else Ok [].

Definition newDate (text : string) : option DateFields :=
  if String.eqb text "2000-01-01T12:00"
  then Some (mkDateFields 2000 0 1 12 0 0)
  else None.

(** A date parser that also knows the reference instant of
    [calculateFortuna] and [calculateVertex]. *)
Definition newDateWithReference (text : string) : option DateFields :=
  if String.eqb text "1985-09-15T00:24"
  then Some (mkDateFields 1985 8 15 0 24 0)
  else newDate text.

End Samples.

(** ** Facts about the numeric primitives *)

Module JsFacts.

Lemma leb_true (x y : Q) : Js.leb x y = true <-> x <= y.
Proof. unfold Js.leb. apply Qle_bool_iff. Qed.

Lemma leb_false (x y : Q) : Js.leb x y = false <-> y < x.
Proof.
  unfold Js.leb. split; intro H.
  - apply Qnot_le_lt. intro Hle. apply Qle_bool_iff in Hle. congruence.
  - destruct (Qle_bool x y) eqn:E; [|reflexivity].
    apply Qle_bool_iff in E. lra.
Qed.

Lemma geb_true (x y : Q) : Js.geb x y = true <-> y <= x.
Proof. apply leb_true. Qed.

Lemma geb_false (x y : Q) : Js.geb x y = false <-> x < y.
Proof. apply leb_false. Qed.

Lemma ltb_true (x y : Q) : Js.ltb x y = true <-> x < y.
Proof.
  unfold Js.ltb. rewrite negb_true_iff. apply (leb_false y x).
Qed.

Lemma ltb_false (x y : Q) : Js.ltb x y = false <-> y <= x.
Proof.
  unfold Js.ltb. rewrite negb_false_iff. apply (leb_true y x).
Qed.

Lemma gtb_true (x y : Q) : Js.gtb x y = true <-> y < x.
Proof. apply (ltb_true y x). Qed.

Lemma gtb_false (x y : Q) : Js.gtb x y = false <-> x <= y.
Proof. apply (ltb_false y x). Qed.

(** [Number.isInteger] decides being an integer. *)
Lemma isInteger_inject_Z (z : Z) : Js.isInteger (inject_Z z) = true.
Proof.
  unfold Js.isInteger, Qred, inject_Z.
  pose proof (Z.ggcd_gcd z 1) as Hg.
  pose proof (Z.ggcd_correct_divisors z 1) as Hd.
  destruct (Z.ggcd z 1) as [g [aa bb]]. simpl in *.
  rewrite Z.gcd_1_r in Hg. subst g. destruct Hd as [_ Hb].
  assert (bb = 1%Z) by lia. subst bb. reflexivity.
Qed.

Lemma isInteger_spec (x : Q) : Js.isInteger x = true <-> Spec.integer x.
Proof.
  unfold Js.isInteger, Spec.integer. split.
  - intro H. apply Pos.eqb_eq in H. exists (Qnum (Qred x)).
    rewrite <- (Qred_correct x) at 1.
    destruct (Qred x) as [n d]. simpl in *. subst d. reflexivity.
  - intros [z Hz]. apply Qred_complete in Hz. rewrite Hz.
    apply (isInteger_inject_Z z).
Qed.

(** The floor of a quotient of integers is the integer quotient. *)
Lemma floor_div (x : Q) (n d : Z) :
  x == inject_Z n -> Js.floor (x / inject_Z d) == inject_Z (n / d).
Proof.
  intro H. unfold Js.floor.
  rewrite (Qfloor_comp (x / inject_Z d) (inject_Z n / inject_Z d)).
  - rewrite <- Zdiv_Qdiv. reflexivity.
  - rewrite H. reflexivity.
Qed.

(** The integer part is the one integer [k] with [k <= x < k + 1]. *)
Lemma Qfloor_unique (x : Q) (k : Z) :
  inject_Z k <= x -> x < inject_Z k + 1 -> Qfloor x = k.
Proof.
  intros Hlo Hhi.
  pose proof (Qfloor_le x) as H1. pose proof (Qlt_floor x) as H2.
  rewrite inject_Z_plus in H2. change (inject_Z 1) with 1 in H2.
  assert (A : inject_Z (Qfloor x) < inject_Z (k + 1)).
  { rewrite inject_Z_plus. change (inject_Z 1) with 1. lra. }
  assert (B : inject_Z k < inject_Z (Qfloor x + 1)).
  { rewrite inject_Z_plus. change (inject_Z 1) with 1. lra. }
  rewrite <- Zlt_Qlt in A, B. lia.
Qed.

Lemma Qceiling_unique (x : Q) (k : Z) :
  inject_Z k - 1 < x -> x <= inject_Z k -> Qceiling x = k.
Proof.
  intros Hlo Hhi. unfold Qceiling.
  rewrite (Qfloor_unique (- x) (- k)).
  - lia.
  - rewrite inject_Z_opp. lra.
  - rewrite inject_Z_opp. lra.
Qed.

(** The quotient [x / m] and what [trunc] makes of it. *)
Lemma quotient_eq (x m : Q) : 0 < m -> x == (x / m) * m.
Proof. intro Hm. field. lra. Qed.

Lemma trunc_nonneg (q : Q) :
  0 <= q -> inject_Z (Js.trunc q) <= q /\ q < inject_Z (Js.trunc q) + 1.
Proof.
  intro Hq. unfold Js.trunc.
  destruct (Qle_bool 0 q) eqn:E.
  - split; [apply Qfloor_le|].
    pose proof (Qlt_floor q) as H. rewrite inject_Z_plus in H. exact H.
  - apply (leb_false 0 q) in E. lra.
Qed.

Lemma trunc_neg (q : Q) :
  q < 0 -> inject_Z (Js.trunc q) - 1 < q /\ q <= inject_Z (Js.trunc q).
Proof.
  intro Hq. unfold Js.trunc.
  destruct (Qle_bool 0 q) eqn:E.
  - apply Qle_bool_iff in E. lra.
  - split; [|apply Qle_ceiling].
    pose proof (Qceiling_lt q) as H. unfold Z.sub in H.
    rewrite inject_Z_plus in H. change (inject_Z (- (1))) with (- (1)) in H.
    lra.
Qed.

(** The remainder of a non-negative dividend lies in [[0, m)]. *)
Lemma rem_nonneg (x m : Q) :
  0 < m -> 0 <= x -> 0 <= Js.rem x m /\ Js.rem x m < m.
Proof.
  intros Hm Hx. unfold Js.rem.
  pose proof (quotient_eq x m Hm) as Hq.
  assert (H0 : 0 <= x / m) by (apply Qle_shift_div_l; lra).
  destruct (trunc_nonneg (x / m) H0) as [Hlo Hhi].
  set (q := x / m) in *. set (k := inject_Z (Js.trunc q)) in *.
  split; nra.
Qed.

(** The remainder never falls to [- m]. *)
Lemma rem_lower (x m : Q) : 0 < m -> - m < Js.rem x m.
Proof.
  intro Hm.
  destruct (Qlt_le_dec x 0) as [Hx|Hx].
  - unfold Js.rem.
    pose proof (quotient_eq x m Hm) as Hq.
    assert (H0 : x / m < 0) by (apply Qlt_shift_div_r; lra).
    destruct (trunc_neg (x / m) H0) as [Hlo Hhi].
    set (q := x / m) in *. set (k := inject_Z (Js.trunc q)) in *.
    nra.
  - destruct (rem_nonneg x m Hm Hx). lra.
Qed.

Lemma rem_upper (x m : Q) : 0 < m -> Js.rem x m < m.
Proof.
  intro Hm.
  destruct (Qlt_le_dec x 0) as [Hx|Hx].
  - unfold Js.rem.
    pose proof (quotient_eq x m Hm) as Hq.
    assert (H0 : x / m < 0) by (apply Qlt_shift_div_r; lra).
    destruct (trunc_neg (x / m) H0) as [Hlo Hhi].
    set (q := x / m) in *. set (k := inject_Z (Js.trunc q)) in *.
    nra.
  - destruct (rem_nonneg x m Hm Hx). lra.
Qed.

(** The idiom [((x % m) + m) % m] folds into [[0, m)]. *)
Lemma rem_fold (x m : Q) :
  0 < m -> 0 <= Js.rem (Js.rem x m + m) m /\ Js.rem (Js.rem x m + m) m < m.
Proof.
  intro Hm. apply rem_nonneg; [exact Hm|].
  pose proof (rem_lower x m Hm). lra.
Qed.

(** Below the modulus the remainder is the dividend; less than one turn
    above it, the dividend minus the modulus. *)
Lemma rem_small (x m : Q) : 0 <= x -> x < m -> Js.rem x m == x.
Proof.
  intros Hx Hxm. assert (Hm : 0 < m) by lra. unfold Js.rem.
  assert (H0 : 0 <= x / m) by (apply Qle_shift_div_l; lra).
  assert (H1 : x / m < 1) by (apply Qlt_shift_div_r; lra).
  assert (E : Js.trunc (x / m) = 0%Z).
  { unfold Js.trunc. destruct (Qle_bool 0 (x / m)) eqn:Eb.
    - apply Qfloor_unique; change (inject_Z 0) with 0; lra.
    - apply (leb_false 0 (x / m)) in Eb. lra. }
  rewrite E. change (inject_Z 0) with 0. ring.
Qed.

Lemma rem_once (x m : Q) : m <= x -> x < m + m -> 0 < m -> Js.rem x m == x - m.
Proof.
  intros Hx Hxm Hm. unfold Js.rem.
  assert (H0 : 1 <= x / m) by (apply Qle_shift_div_l; lra).
  assert (H1 : x / m < 2) by (apply Qlt_shift_div_r; lra).
  assert (E : Js.trunc (x / m) = 1%Z).
  { unfold Js.trunc. destruct (Qle_bool 0 (x / m)) eqn:Eb.
    - apply Qfloor_unique; change (inject_Z 1) with 1; lra.
    - apply (leb_false 0 (x / m)) in Eb. lra. }
  rewrite E. change (inject_Z 1) with 1. ring.
Qed.

End JsFacts.

(** ** Julian-day conversion *)

Module JulianDay.

Import Js SwissEphemeris.

Lemma not_isInteger (x : Q) :
  negb (isInteger x) = true <-> ~ Spec.integer x.
Proof.
  rewrite negb_true_iff, <- JsFacts.isInteger_spec.
  destruct (isInteger x); split; congruence.
Qed.

Lemma guard_refused (year month day hour : Q) :
  swe_julday_invalid year month day hour = true <-> Spec.refused year month day hour.
Proof.
  unfold swe_julday_invalid, Spec.refused.
  change (number_ltb hour 0) with (ltb hour 0).
  change (number_geb hour 24) with (geb hour 24).
  rewrite !orb_true_iff, !not_isInteger, !JsFacts.ltb_true,
    !JsFacts.gtb_true, JsFacts.geb_true.
  tauto.
Qed.

Lemma guard_accepted (year month day hour : Q) :
  swe_julday_invalid year month day hour = false <-> Spec.accepted year month day hour.
Proof.
  unfold swe_julday_invalid, Spec.accepted.
  change (number_ltb hour 0) with (ltb hour 0).
  change (number_geb hour 24) with (geb hour 24).
  rewrite !orb_false_iff, !negb_false_iff, !JsFacts.isInteger_spec,
    !JsFacts.ltb_false, !JsFacts.gtb_false, JsFacts.geb_false.
  tauto.
Qed.

Lemma swe_julday_guard (year month day hour : Q) (calendar : Z) :
  swe_julday_invalid year month day hour = true ->
  swe_julday year month day hour calendar
  = Throw (Error "Invalid date or time parameters").
Proof.
  unfold swe_julday. intros ->. reflexivity.
Qed.

(** On accepted inputs the Gregorian branch computes the day number of
    the specification. *)
Lemma swe_julday_gregorian (year month day hour : Q) (yz mz dz : Z) :
  year == inject_Z yz -> month == inject_Z mz -> day == inject_Z dz ->
  swe_julday_invalid year month day hour = false ->
  exists jd : Q,
    swe_julday year month day hour SE_GREG_CAL = Ok jd
    /\ jd == Spec.toJulianDay yz mz dz hour.
Proof.
  intros Hy Hm Hd Hg. unfold swe_julday. rewrite Hg. cbn [Z.eqb SE_GREG_CAL bind Pos.eqb].
  eexists. split; [reflexivity|].
  unfold Spec.toJulianDay, Spec.jdn. cbv zeta.
  set (az := ((14 - mz) / 12)%Z).
  set (a := floor ((14 - month) / 12)).
  assert (Ha : a == inject_Z az).
  { apply (JsFacts.floor_div (14 - month) (14 - mz) 12).
    rewrite Hm. unfold Z.sub. rewrite inject_Z_plus, inject_Z_opp.
    reflexivity. }
  set (y := year + 4800 - a). set (yy := (yz + 4800 - az)%Z).
  assert (Hyy : y == inject_Z yy).
  { unfold y, yy, Z.sub. rewrite !inject_Z_plus, inject_Z_opp, Hy, Ha.
    reflexivity. }
  set (m := month + 12 * a - 3). set (mm := (mz + 12 * az - 3)%Z).
  assert (Hmm : 153 * m + 2 == inject_Z (153 * mm + 2)).
  { unfold m, mm, Z.sub.
    rewrite !inject_Z_plus, !inject_Z_mult, !inject_Z_plus, inject_Z_mult,
      Hm, Ha.
    reflexivity. }
  rewrite (JsFacts.floor_div (153 * m + 2) (153 * mm + 2) 5 Hmm).
  rewrite (JsFacts.floor_div y yy 4 Hyy).
  rewrite (JsFacts.floor_div y yy 100 Hyy).
  rewrite (JsFacts.floor_div y yy 400 Hyy).
  rewrite Hd, Hyy. unfold Z.sub.
  rewrite !inject_Z_plus, !inject_Z_opp, !inject_Z_mult.
  change (inject_Z 32045) with 32045. change (inject_Z 365) with 365.
  field.
Qed.

(** C5.  For every valid input (integer year, integer month in 1..12,
    integer day in 1..31, hour in [[0, 24)]) the Gregorian conversion
    returns [jdn + (hour - 12) / 24], where [jdn] is the day number built
    from [a = floor((14 - month) / 12)], [y = year + 4800 - a] and
    [m = month + 12a - 3]; and [swe_julday(2000, 1, 1, 12.0)] returns
    exactly 2451545.0. *)
Theorem swe_julday_formula :
  (forall (year month day : Z) (hour : Q),
      (1 <= month <= 12)%Z -> (1 <= day <= 31)%Z ->
      0 <= hour -> hour < 24 ->
      exists jd : Q,
        swe_julday (inject_Z year) (inject_Z month) (inject_Z day) hour
          SE_GREG_CAL = Ok jd
        /\ jd == Spec.toJulianDay year month day hour)
  /\ (exists jd : Q,
        swe_julday 2000 1 1 12.0 SE_GREG_CAL = Ok jd /\ jd == 2451545.0).
Proof.
  split.
  - intros year month day hour Hm Hd Hh0 Hh1.
    apply swe_julday_gregorian; try reflexivity.
    apply guard_accepted. unfold Spec.accepted, Spec.integer.
    rewrite (Zle_Qle 1 month), (Zle_Qle month 12) in Hm.
    rewrite (Zle_Qle 1 day), (Zle_Qle day 31) in Hd.
    change (inject_Z 1) with 1 in *. change (inject_Z 12) with 12 in *.
    change (inject_Z 31) with 31 in *.
    repeat split; try tauto; eexists; reflexivity.
  - eexists. split; [vm_compute; reflexivity|]. reflexivity.
Qed.

Lemma swe_julday_formula_witness :
  exists jd : Q,
    swe_julday (inject_Z 1985) (inject_Z 9) (inject_Z 15) (24 # 60)
      SE_GREG_CAL = Ok jd
    /\ jd == Spec.toJulianDay 1985 9 15 (24 # 60).
Proof.
  apply (proj1 swe_julday_formula 1985%Z 9%Z 15%Z (24 # 60)).
  - lia.
  - lia.
  - vm_compute; discriminate.
  - reflexivity.
Defined.

(** On finite numbers the conversion checks the day against 1..31
    whatever the month: February 30 and April 31 are accepted and yield a
    Julian Day; and an error is raised exactly when the year, the month
    or the day is not an integer, the month is outside 1..12, the day is
    outside 1..31 or the hour is outside [[0, 24)]. *)
Lemma swe_julday_validation_finite :
  (forall year month day hour : Q,
      (exists e, swe_julday year month day hour SE_GREG_CAL = Throw e)
      <-> Spec.refused year month day hour)
  /\ (exists jd : Q,
        swe_julday 2023 2 30 12 SE_GREG_CAL = Ok jd /\ jd == 2460006)
  /\ (exists jd : Q,
        swe_julday 2023 4 31 12 SE_GREG_CAL = Ok jd /\ jd == 2460066).
Proof.
  split; [|split].
  - intros year month day hour. rewrite <- guard_refused. split.
    + intros [e He]. unfold swe_julday in He.
      destruct (swe_julday_invalid year month day hour); [reflexivity|].
      cbn in He. discriminate.
    + intro Hg. eexists. apply swe_julday_guard. exact Hg.
  - eexists. split; [vm_compute; reflexivity|]. reflexivity.
  - eexists. split; [vm_compute; reflexivity|]. reflexivity.
Qed.

(** A year, a month or a day that is not finite is refused, whatever the
    hour. *)
Lemma swe_julday_date_not_finite (year month day hour : number)
    (calendar : Z) :
  isFinite year && isFinite month && isFinite day = false ->
  swe_julday year month day hour calendar
  = Throw (Error "Invalid date or time parameters").
Proof.
  destruct year, month, day; cbn [isFinite andb]; intro H;
    try discriminate; reflexivity.
Qed.

(** An infinite hour is refused. *)
Lemma swe_julday_hour_infinite (year month day : number) (calendar : Z) :
  swe_julday year month day Infinity calendar
  = Throw (Error "Invalid date or time parameters")
  /\ swe_julday year month day NegInfinity calendar
     = Throw (Error "Invalid date or time parameters").
Proof.
  destruct year, month, day; try (split; reflexivity).
  unfold swe_julday, swe_julday_invalid.
  change (number_geb Infinity 24) with true.
  change (number_ltb NegInfinity 0) with true.
  rewrite !orb_true_r. split; reflexivity.
Qed.

(** With the hour [NaN] the guard is the guard of the date alone, and an
    accepted date yields [NaN]. *)
Lemma swe_julday_hour_NaN (year month day : Q) :
  Spec.accepted year month day 0 ->
  swe_julday year month day NaN SE_GREG_CAL = Ok NaN.
Proof.
  intro H. apply guard_accepted in H.
  unfold swe_julday.
  change (swe_julday_invalid year month day NaN)
    with (swe_julday_invalid year month day 0).
  rewrite H. reflexivity.
Qed.

(** C10.  The hour is validated by [hour < 0 || hour >= 24], which holds
    of no [NaN]: [swe_julday(2000, 1, 1, NaN)], and as well
    [swe_julday(2000, 1, 1)] whose omitted hour becomes [NaN], raise no
    error and return [NaN], although the hour is outside [[0, 24)]; so do
    February 30 and April 31 of 2023, dates the conversion accepts. *)
Theorem swe_julday_hour_unchecked :
  swe_julday 2000 1 1 NaN SE_GREG_CAL = Ok NaN
  /\ swe_julday 2023 2 30 NaN SE_GREG_CAL = Ok NaN
  /\ swe_julday 2023 4 31 NaN SE_GREG_CAL = Ok NaN.
Proof.
  repeat split; vm_compute; reflexivity.
Qed.

End JulianDay.

(** ** Aspect classification *)

Module Aspects.

Import Js AstrologyEngine.

Lemma findAspect_aspects_graded : Spec.graded findAspect_aspects.
Proof. repeat constructor; simpl; lra. Qed.

Lemma calculateAspectStrength_aspects_graded :
  Spec.graded calculateAspectStrength_aspects.
Proof. repeat constructor; simpl; lra. Qed.

(** The tapered strength of one matching entry. *)
Lemma taper_unit (d o s : Q) :
  0 < o -> 0 <= s -> s <= 1 -> 0 <= d -> d <= o ->
  Spec.unit_interval (s * (1 - d / o)).
Proof.
  intros Ho Hs0 Hs1 Hd0 Hd1.
  assert (Hr0 : 0 <= d / o) by (apply Qle_shift_div_l; lra).
  assert (Hr1 : d / o <= 1) by (apply Qle_shift_div_r; lra).
  set (r := d / o) in *. unfold Spec.unit_interval. split; nra.
Qed.

Lemma findAspect_scan_unit (angle : Q) (aspects : list Aspect) :
  Spec.graded aspects ->
  Spec.unit_interval (strength (findAspect_scan angle aspects)).
Proof.
  induction 1 as [|a rest [Ho [Hs0 Hs1]] _ IH]; cbn [findAspect_scan].
  - unfold Spec.unit_interval. cbn [strength]. lra.
  - destruct (leb (abs (angle - aspect_angle a)) (aspect_orb a)) eqn:E.
    + cbn [strength]. apply JsFacts.leb_true in E.
      apply taper_unit; try assumption. apply Qabs_nonneg.
    + exact IH.
Qed.

Lemma calculateAspectStrength_scan_unit (angle : Q) (aspects : list Aspect) :
  Spec.graded aspects ->
  Spec.unit_interval (calculateAspectStrength_scan angle aspects).
Proof.
  induction 1 as [|a rest [Ho [Hs0 Hs1]] _ IH];
    cbn [calculateAspectStrength_scan].
  - unfold Spec.unit_interval. lra.
  - destruct (leb (abs (angle - aspect_angle a)) (aspect_orb a)) eqn:E.
    + apply JsFacts.leb_true in E.
      apply taper_unit; try assumption. apply Qabs_nonneg.
    + exact IH.
Qed.

Lemma findAspect_unit (pos1 pos2 : Q) :
  Spec.unit_interval (strength (findAspect pos1 pos2)).
Proof. apply findAspect_scan_unit, findAspect_aspects_graded. Qed.

Lemma calculateAspectStrength_unit (pos1 pos2 : Q) :
  Spec.unit_interval (calculateAspectStrength pos1 pos2).
Proof.
  apply calculateAspectStrength_scan_unit,
    calculateAspectStrength_aspects_graded.
Qed.

(** A test of the scan that succeeded, as an interval around the exact
    angle. *)
Lemma within_orb (angle exact o : Q) :
  leb (abs (angle - exact)) o = true ->
  exact - o <= angle /\ angle <= exact + o.
Proof.
  intro H. apply JsFacts.leb_true in H. unfold abs in H.
  apply Qabs_Qle_condition in H. lra.
Qed.

Ltac orb_facts :=
  repeat match goal with
         | H : leb (abs (_ - _)) _ = true |- _ => apply within_orb in H
         end.

Ltac next_test :=
  match goal with
  | |- context [leb (abs (?x - ?a)) ?o] =>
      destruct (leb (abs (x - a)) o) eqn:?
  end.

(** The orbs of the eight entries do not overlap, so the five-entry scan
    of [calculateAspectStrength] yields the strength of [findAspect] on a
    major aspect and 0 on a minor one or on no aspect. *)
Lemma calculateAspectStrength_major (pos1 pos2 : Q) :
  calculateAspectStrength pos1 pos2
  = Spec.majorStrength (findAspect pos1 pos2).
Proof.
  unfold calculateAspectStrength, findAspect, Spec.majorStrength.
  generalize (separation pos1 pos2) as angle. intro angle.
  unfold findAspect_aspects, calculateAspectStrength_aspects.
  cbn [findAspect_scan calculateAspectStrength_scan aspect_angle aspect_orb
       aspect_strength aspect_name].
  repeat (next_test;
          [ cbn [name strength];
            try reflexivity;
            repeat (next_test; [exfalso; orb_facts; lra|]);
            reflexivity
          | ]).
  reflexivity.
Qed.

(** C7.  The classifier is symmetric: [findAspect(a, b)] and
    [findAspect(b, a)] are the same result. *)
Theorem findAspect_symmetric (a b : Q) : findAspect a b = findAspect b a.
Proof.
  unfold findAspect, separation, abs.
  rewrite (Qabs_Qminus a b). reflexivity.
Qed.

(** C8, as the code has it.  Classifying the pair (10, 70) finds a
    separation of exactly 60 degrees and returns the name "Sextile", the
    strength 0.8, and as orb the two-decimal text "0.00". *)
Theorem findAspect_10_70 :
  separation 10 70 == 60
  /\ name (findAspect 10 70) = "Sextile"%string
  /\ orb (findAspect 10 70) = OrbText "0.00"
  /\ strength (findAspect 10 70) == 0.8.
Proof.
  repeat split; vm_compute; reflexivity.
Qed.

(** C8 as stated fails: the orb returned for (10, 70) is not the number
    0. *)
Lemma findAspect_10_70_orb_not_number :
  ~ (separation 10 70 == 60
     /\ name (findAspect 10 70) = "Sextile"%string
     /\ (exists q, orb (findAspect 10 70) = OrbNumber q /\ q == 0)
     /\ strength (findAspect 10 70) == 0.8).
Proof.
  intros (_ & _ & (q & Hq & _) & _). vm_compute in Hq. discriminate.
Qed.

End Aspects.

(** ** Synastry *)

Module Synastry.

Import Js SwissEphemeris AstrologyEngine.

(** *** Sums and means *)

Lemma sumQ_nil : Spec.sumQ [] = 0.
Proof. reflexivity. Qed.

Lemma sumQ_cons (x : Q) (l : list Q) : Spec.sumQ (x :: l) = x + Spec.sumQ l.
Proof. reflexivity. Qed.

Lemma sumQ_app (l1 l2 : list Q) :
  Spec.sumQ (l1 ++ l2) == Spec.sumQ l1 + Spec.sumQ l2.
Proof.
  induction l1 as [|x l1 IH]; cbn [app].
  - rewrite sumQ_nil. ring.
  - rewrite !sumQ_cons, IH. ring.
Qed.

(** An invariant of the accumulator survives a [fold_left]. *)
Lemma fold_left_invariant {A B : Type} (P : A -> Prop) (f : A -> B -> A)
    (l : list B) :
  (forall a x, P a -> P (f a x)) -> forall a, P a -> P (fold_left f l a).
Proof.
  intro Hstep. induction l as [|x l IH]; simpl; intros a Ha.
  - exact Ha.
  - apply IH, Hstep, Ha.
Qed.

(** A total of [n] values of the unit interval, divided by [n]. *)
Lemma mean_unit (total : Q) (n : nat) :
  0 <= total -> total <= inject_Z (Z.of_nat n) ->
  Spec.unit_interval
    (if (0 <? n)%nat then total / inject_Z (Z.of_nat n) else 0).
Proof.
  intros H0 H1. unfold Spec.unit_interval.
  destruct (0 <? n)%nat eqn:E.
  - apply Nat.ltb_lt in E.
    assert (Hn : 0 < inject_Z (Z.of_nat n)).
    { change 0 with (inject_Z 0). rewrite <- Zlt_Qlt. lia. }
    split.
    + apply Qle_shift_div_l; lra.
    + apply Qle_shift_div_r; lra.
  - lra.
Qed.

Lemma inject_S (n : nat) :
  inject_Z (Z.of_nat (S n)) == inject_Z (Z.of_nat n) + 1.
Proof.
  rewrite Nat2Z.inj_succ. unfold Z.succ. rewrite inject_Z_plus. reflexivity.
Qed.

(** *** The full-chart loops *)

Lemma fullChart_inner_sum (p1 : Q) (planets2 : list Q) :
  forall st,
    fst (fullChart_inner p1 planets2 st)
    == fst st
       + Spec.sumQ (map (fun p2 => calculateAspectStrength p1 p2) planets2)
    /\ snd (fullChart_inner p1 planets2 st)
       = (snd st + List.length planets2)%nat.
Proof.
  unfold fullChart_inner.
  induction planets2 as [|p2 rest IH]; intros [total n];
    cbn [fold_left map List.length fst snd].
  - rewrite sumQ_nil. split; [ring|lia].
  - destruct (IH (total + calculateAspectStrength p1 p2, S n)) as [Ht Hn].
    rewrite Ht, Hn, sumQ_cons. cbn [fst snd].
    split; [ring|lia].
Qed.

Lemma fullChart_outer_sum (planets1 planets2 : list Q) :
  forall st,
    fst (fullChart_outer planets1 planets2 st)
    == fst st
       + Spec.sumQ (map (fun pq => calculateAspectStrength (fst pq) (snd pq))
                      (list_prod planets1 planets2))
    /\ snd (fullChart_outer planets1 planets2 st)
       = (snd st + List.length (list_prod planets1 planets2))%nat.
Proof.
  unfold fullChart_outer.
  induction planets1 as [|p1 rest IH]; intro st;
    cbn [fold_left list_prod map List.length].
  - rewrite sumQ_nil. split; [ring|lia].
  - destruct (IH (fullChart_inner p1 planets2 st)) as [Ht Hn].
    destruct (fullChart_inner_sum p1 planets2 st) as [Ht' Hn'].
    rewrite Ht, Hn, Ht', Hn'.
    rewrite map_app, sumQ_app, map_map, length_app, length_map.
    cbn [fst snd]. split; [ring|lia].
Qed.

Lemma fullChart_outer_bounds (planets1 planets2 : list Q) :
  let st := fullChart_outer planets1 planets2 (0, 0%nat) in
  0 <= fst st /\ fst st <= inject_Z (Z.of_nat (snd st)).
Proof.
  unfold fullChart_outer, fullChart_inner.
  apply (fold_left_invariant
           (fun st => 0 <= fst st /\ fst st <= inject_Z (Z.of_nat (snd st)))).
  - intros st p1 Hst.
    apply (fold_left_invariant
             (fun st => 0 <= fst st
                        /\ fst st <= inject_Z (Z.of_nat (snd st))));
      [|exact Hst].
    intros [total n] p2 [H0 H1]. cbn [fst snd] in *.
    destruct (Aspects.calculateAspectStrength_unit p1 p2) as [Hs0 Hs1].
    rewrite inject_S. lra.
  - cbn [fst snd Z.of_nat]. change (inject_Z 0) with 0. lra.
Qed.

(** *** The synastry-aspect loops *)

Lemma synastry_outer_bounds (planets1 planets2 : list (string * Q)) :
  let st := synastry_outer planets1 planets2 ([], 0) in
  0 <= snd st /\ snd st <= inject_Z (Z.of_nat (List.length (fst st))).
Proof.
  unfold synastry_outer, synastry_inner.
  apply (fold_left_invariant
           (fun st => 0 <= snd st
                      /\ snd st <= inject_Z (Z.of_nat (List.length (fst st))))).
  - intros st p1 Hst.
    apply (fold_left_invariant
             (fun st => 0 <= snd st
                        /\ snd st
                           <= inject_Z (Z.of_nat (List.length (fst st)))));
      [|exact Hst].
    intros [acc total] p2 [H0 H1]. cbn [fst snd] in *.
    destruct (Aspects.findAspect_unit (snd p1) (snd p2)) as [Hs0 Hs1].
    rewrite length_app. cbn [List.length].
    rewrite Nat.add_1_r, inject_S. lra.
  - cbn [fst snd List.length Z.of_nat]. change (inject_Z 0) with 0. lra.
Qed.

(** *** The house-overlay loop *)

(** The test [[1, 5, 7, 9, 11].includes(house)] holds of the harmonious
    houses and of no other. *)
Lemma harmonious_set (house : Z) :
  harmonious house = Spec.harmoniousHouse house.
Proof.
  unfold harmonious, Spec.harmoniousHouse. cbn [existsb].
  rewrite orb_false_r, !orb_assoc. reflexivity.
Qed.

Lemma transposition_fold (user1 user2 : User) (cusps : list Q)
    (planets : list (string * Q)) :
  forall acc n,
    snd (fold_left (transposition_step user1 user2 cusps) planets (acc, n))
    = (n + Spec.harmoniousPlacements (map snd planets) cusps)%nat.
Proof.
  unfold Spec.harmoniousPlacements.
  induction planets as [|planet rest IH]; intros acc n; simpl.
  - lia.
  - rewrite IH, harmonious_set.
    destruct (Spec.harmoniousHouse (getPlanetHouse (snd planet) cusps));
      simpl; lia.
Qed.

Lemma harmoniousPlacements_le (positions cusps : list Q) :
  (Spec.harmoniousPlacements positions cusps <= List.length positions)%nat.
Proof. apply filter_length_le. Qed.

(** *** The sub-scores *)

Lemma calculateVenusMarsSynastry_unit (user1 user2 : User) :
  Spec.unit_interval (calculateVenusMarsSynastry user1 user2).
Proof.
  unfold calculateVenusMarsSynastry, Spec.unit_interval.
  destruct (Aspects.calculateAspectStrength_unit
              (venusPosition user1) (marsPosition user2)) as [A0 A1].
  destruct (Aspects.calculateAspectStrength_unit
              (venusPosition user2) (marsPosition user1)) as [B0 B1].
  split.
  - apply Qle_shift_div_l; lra.
  - apply Qle_shift_div_r; lra.
Qed.

Lemma calculateFullChartSynastry_unit (user1 user2 : User) :
  Spec.unit_interval (calculateFullChartSynastry user1 user2).
Proof.
  unfold calculateFullChartSynastry.
  pose proof (fullChart_outer_bounds (fullChartPlanets user1)
                (fullChartPlanets user2)) as H.
  cbv zeta in H.
  destruct (fullChart_outer (fullChartPlanets user1)
              (fullChartPlanets user2) (0, 0%nat)) as [total n].
  cbn [fst snd] in H. apply mean_unit; tauto.
Qed.

Lemma calculateSynastryAspects_unit (user1 user2 : User) :
  Spec.unit_interval (aspects_score (calculateSynastryAspects user1 user2)).
Proof.
  unfold calculateSynastryAspects.
  pose proof (synastry_outer_bounds (synastryPlanets user1)
                (synastryPlanets user2)) as H.
  cbv zeta in H.
  destruct (synastry_outer (synastryPlanets user1)
              (synastryPlanets user2) ([], 0)) as [acc total].
  cbn [fst snd aspects_score] in *. apply mean_unit; tauto.
Qed.

(** The overlay score for given cusps: the harmonious placements of the
    six bodies, over six. *)
Lemma houseTranspositions_of_score (user1 user2 : User) (cusps : list Q) :
  transpositions_score (houseTranspositions_of user1 user2 cusps)
  == inject_Z (Z.of_nat (Spec.harmoniousPlacements
                           (Spec.overlayBodies user1) cusps)) / 6
  /\ harmoniousCount (houseTranspositions_of user1 user2 cusps)
     = Spec.harmoniousPlacements (Spec.overlayBodies user1) cusps
  /\ totalPlacements (houseTranspositions_of user1 user2 cusps) = 6%nat.
Proof.
  unfold houseTranspositions_of.
  pose proof (transposition_fold user1 user2 cusps
                (transpositionPlanets user1) [] 0) as H.
  destruct (fold_left (transposition_step user1 user2 cusps)
              (transpositionPlanets user1) ([], 0%nat)) as [acc n].
  cbn [snd] in H. subst n.
  cbn [transpositions_score harmoniousCount totalPlacements].
  repeat split; reflexivity.
Qed.

Lemma houseTranspositions_of_unit (user1 user2 : User) (cusps : list Q) :
  Spec.unit_interval
    (transpositions_score (houseTranspositions_of user1 user2 cusps)).
Proof.
  destruct (houseTranspositions_of_score user1 user2 cusps) as [H _].
  pose proof (harmoniousPlacements_le (Spec.overlayBodies user1) cusps) as L.
  change (List.length (Spec.overlayBodies user1)) with 6%nat in L.
  assert (A : 0 <= inject_Z (Z.of_nat (Spec.harmoniousPlacements
                                         (Spec.overlayBodies user1) cusps))).
  { change 0 with (inject_Z 0). rewrite <- Zle_Qle. lia. }
  assert (B : inject_Z (Z.of_nat (Spec.harmoniousPlacements
                                    (Spec.overlayBodies user1) cusps)) <= 6).
  { change 6 with (inject_Z 6). rewrite <- Zle_Qle. lia. }
  unfold Spec.unit_interval. rewrite H. split.
  - apply Qle_shift_div_l; lra.
  - apply Qle_shift_div_r; lra.
Qed.

(** *** The claims *)

(** C1.  Whenever [calculateCompatibility] returns, its combined score is
    0.4 times the Venus-Mars sub-score plus 0.3 times the full-chart
    sub-score plus 0.2 times the synastry-aspect sub-score plus 0.1 times
    the house-overlay sub-score, each sub-score being the one its own
    function computes; it fails to return only when the house overlay
    does; and the four weights sum to 1. *)
Theorem calculateCompatibility_weighted
    (geocode : string -> result (list GeoResult))
    (newDate : string -> option DateFields) (user1 user2 : User) :
  match calculateCompatibility geocode newDate user1 user2 with
  | Ok r =>
      compatibilityScore r
      == 0.4 * venusMarsSynastry r + 0.3 * fullChartSynastry r
         + 0.2 * aspects_score (synastryAspects r)
         + 0.1 * transpositions_score (houseTranspositions r)
      /\ venusMarsSynastry r = calculateVenusMarsSynastry user1 user2
      /\ fullChartSynastry r = calculateFullChartSynastry user1 user2
      /\ synastryAspects r = calculateSynastryAspects user1 user2
      /\ calculateHouseTranspositions geocode newDate user1 user2
         = Ok (houseTranspositions r)
  | Throw e =>
      calculateHouseTranspositions geocode newDate user1 user2 = Throw e
  end
  /\ 0.4 + 0.3 + 0.2 + 0.1 == 1.
Proof.
  split; [|reflexivity].
  unfold calculateCompatibility.
  destruct (calculateHouseTranspositions geocode newDate user1 user2)
    as [ht|e]; cbn [bind]; [|reflexivity].
  cbn [compatibilityScore venusMarsSynastry fullChartSynastry
       synastryAspects houseTranspositions].
  repeat split; try reflexivity. ring.
Qed.

(** C2, as the code has it.  The Venus-Mars sub-score is the average of
    the major-aspect strengths of (A.venus, B.mars) and (B.venus, A.mars):
    the classifier's strength when the aspect found is a Conjunction,
    Sextile, Square, Trine or Opposition, and 0 otherwise. *)
Theorem calculateVenusMarsSynastry_major (user1 user2 : User) :
  calculateVenusMarsSynastry user1 user2
  == (Spec.majorStrength
        (findAspect (venusPosition user1) (marsPosition user2))
      + Spec.majorStrength
          (findAspect (venusPosition user2) (marsPosition user1))) / 2.
Proof.
  unfold calculateVenusMarsSynastry.
  rewrite !Aspects.calculateAspectStrength_major. reflexivity.
Qed.

(** C2 as stated fails: with Venus and Mars 30 degrees apart the
    classifier finds a Semisextile of strength 0.3 both ways, and the
    sub-score is 0. *)
Lemma calculateVenusMarsSynastry_not_full_catalog :
  ~ (calculateVenusMarsSynastry Samples.userA Samples.userB
     == (strength (findAspect (venusPosition Samples.userA)
                     (marsPosition Samples.userB))
         + strength (findAspect (venusPosition Samples.userB)
                       (marsPosition Samples.userA))) / 2).
Proof.
  intro H. vm_compute in H. discriminate.
Qed.

(** C3, as the code has it.  The full-chart sub-score is the mean, over
    all 16 times 16 = 256 pairings of the two charts' positions, of the
    major-aspect strength: every pairing is counted, and a pairing whose
    aspect is minor or absent contributes 0. *)
Theorem calculateFullChartSynastry_major_mean (user1 user2 : User) :
  calculateFullChartSynastry user1 user2
  == Spec.crossMean (fun p q => Spec.majorStrength (findAspect p q))
       (fullChartPlanets user1) (fullChartPlanets user2)
  /\ List.length (list_prod (fullChartPlanets user1)
                    (fullChartPlanets user2)) = 256%nat.
Proof.
  split; [|reflexivity].
  unfold calculateFullChartSynastry, Spec.crossMean.
  destruct (fullChart_outer_sum (fullChartPlanets user1)
              (fullChartPlanets user2) (0, 0%nat)) as [Ht Hn].
  destruct (fullChart_outer (fullChartPlanets user1)
              (fullChartPlanets user2) (0, 0%nat)) as [total n].
  cbn [fst snd] in Ht, Hn.
  rewrite (map_ext _ _
             (fun pq => Aspects.calculateAspectStrength_major
                          (fst pq) (snd pq))) in Ht.
  rewrite Nat.add_0_l in Hn. subst n.
  change (List.length (list_prod (fullChartPlanets user1)
                         (fullChartPlanets user2))) with 256%nat.
  cbn [Nat.ltb Nat.leb]. rewrite Ht. unfold Qdiv. ring.
Qed.

(** C3 as stated fails: between a chart at 0 degrees and a chart at 30
    degrees every pairing is a Semisextile of strength 0.3, and the
    sub-score is 0. *)
Lemma calculateFullChartSynastry_not_full_catalog :
  ~ (calculateFullChartSynastry Samples.userA Samples.userB
     == Spec.crossMean (fun p q => strength (findAspect p q))
          (fullChartPlanets Samples.userA)
          (fullChartPlanets Samples.userB)).
Proof.
  intro H. vm_compute in H. discriminate.
Qed.

(** The overlay reads of [user2] only the birth data and the name. *)
Lemma user2Houses_of_birth_data
    (geocode : string -> result (list GeoResult))
    (newDate : string -> option DateFields) (user2 user2' : User) :
  placeOfBirth user2 = placeOfBirth user2' ->
  dateOfBirth user2 = dateOfBirth user2' ->
  timeOfBirth user2 = timeOfBirth user2' ->
  user2Houses_of geocode newDate user2
  = user2Houses_of geocode newDate user2'.
Proof.
  unfold user2Houses_of. intros -> -> ->. reflexivity.
Qed.

(** C9.  Every strength produced by [findAspect] and by
    [calculateAspectStrength] lies in [[0, 1]], for all longitudes and so
    for those of [[0, 360)]; hence the Venus-Mars, full-chart and
    synastry-aspect sub-scores lie in [[0, 1]], and whenever
    [calculateCompatibility] returns, that is whenever the houses of the
    second chart can be computed, so do the house-overlay sub-score and
    the combined score, with no assumption on the sub-scores. *)
Theorem scores_unit_interval :
  (forall pos1 pos2, Spec.unit_interval (strength (findAspect pos1 pos2)))
  /\ (forall pos1 pos2,
        Spec.unit_interval (calculateAspectStrength pos1 pos2))
  /\ (forall (geocode : string -> result (list GeoResult))
             (newDate : string -> option DateFields) (user1 user2 : User),
        Spec.unit_interval (calculateVenusMarsSynastry user1 user2)
        /\ Spec.unit_interval (calculateFullChartSynastry user1 user2)
        /\ Spec.unit_interval
             (aspects_score (calculateSynastryAspects user1 user2))
        /\ match calculateCompatibility geocode newDate user1 user2 with
           | Ok r =>
               Spec.unit_interval
                 (transpositions_score (houseTranspositions r))
               /\ Spec.unit_interval (compatibilityScore r)
           | Throw e => user2Houses_of geocode newDate user2 = Throw e
           end).
Proof.
  split; [exact Aspects.findAspect_unit|].
  split; [exact Aspects.calculateAspectStrength_unit|].
  intros geocode newDate user1 user2.
  pose proof (calculateVenusMarsSynastry_unit user1 user2) as Hvm.
  pose proof (calculateFullChartSynastry_unit user1 user2) as Hfc.
  pose proof (calculateSynastryAspects_unit user1 user2) as Hsa.
  repeat (split; [assumption|]).
  unfold calculateCompatibility, calculateHouseTranspositions.
  destruct (user2Houses_of geocode newDate user2) as [cusps|e];
    cbn [bind]; [|reflexivity].
  pose proof (houseTranspositions_of_unit user1 user2 cusps) as Hht.
  cbn [houseTranspositions compatibilityScore].
  split; [exact Hht|].
  unfold Spec.unit_interval in *. split; lra.
Qed.

End Synastry.

(** ** House cusps and house assignment *)

Module Houses.

Import Js SwissEphemeris AstrologyEngine.

(** The local sidereal time lies in [[0, 24)]. *)
Lemma calculateLocalSiderealTime_range (jd longitude lst : Q) :
  calculateLocalSiderealTime jd longitude = Ok lst -> 0 <= lst /\ lst < 24.
Proof.
  unfold calculateLocalSiderealTime.
  destruct (gtb (abs longitude) 180); [discriminate|].
  intro H. injection H as <-. apply JsFacts.rem_fold. lra.
Qed.

(** The cusps [swe_houses] returns are the twelve [housePosition]s of a
    sidereal time of [[0, 24)]. *)
Lemma swe_houses_cusps (jd lat lon : Q) (hsys : string) (r : HouseResult) :
  swe_houses jd lat lon hsys = Ok r ->
  exists lst,
    0 <= lst /\ lst < 24 /\ houses r = map (housePosition lst) (seq 0 12).
Proof.
  unfold swe_houses.
  destruct (gtb (abs lat) 90 || gtb (abs lon) 180); [discriminate|].
  destruct (negb (existsb (String.eqb hsys)
                    [SE_HSYS_PLACIDUS; SE_HSYS_KOCH; SE_HSYS_EQUAL]));
    [discriminate|].
  destruct (calculateLocalSiderealTime jd lon) as [lst|e] eqn:E;
    cbn [bind]; [|discriminate].
  intro H. injection H as <-. exists lst.
  destruct (calculateLocalSiderealTime_range jd lon lst E) as [H0 H1].
  repeat split; assumption.
Qed.

Lemma idx_range (i : nat) :
  (i < 12)%nat -> 0 <= Spec.idx i /\ Spec.idx i <= 11.
Proof.
  intro H. unfold Spec.idx. change 0 with (inject_Z 0).
  change 11 with (inject_Z 11). rewrite <- !Zle_Qle. lia.
Qed.

Lemma idx_S (i : nat) : Spec.idx (S i) == Spec.idx i + 1.
Proof. apply Synastry.inject_S. Qed.

(** A cusp is the first cusp advanced by 30 degrees per house, less one
    turn once it passes 360. *)
Lemma housePosition_cases (lst : Q) (i : nat) :
  0 <= lst -> lst < 24 -> (i < 12)%nat ->
  (lst * 15 + 30 * Spec.idx i < 360
   /\ housePosition lst i == lst * 15 + 30 * Spec.idx i)
  \/ (360 <= lst * 15 + 30 * Spec.idx i
      /\ housePosition lst i == lst * 15 + 30 * Spec.idx i - 360).
Proof.
  intros H0 H1 Hi. destruct (idx_range i Hi) as [I0 I1].
  unfold housePosition. fold (Spec.idx i).
  destruct (Qlt_le_dec (lst * 15 + Spec.idx i * 30) 360) as [Hlt|Hge].
  - left. split; [lra|]. rewrite JsFacts.rem_small; lra.
  - right. split; [lra|]. rewrite JsFacts.rem_once; lra.
Qed.

Lemma nth_error_cusps (lst : Q) (i : nat) :
  (i < 12)%nat ->
  nth_error (map (housePosition lst) (seq 0 12)) i
  = Some (housePosition lst i).
Proof.
  intro Hi. rewrite nth_error_map, nth_error_seq.
  apply Nat.ltb_lt in Hi. rewrite Hi. reflexivity.
Qed.

(** The test [getPlanetHouse] makes for house [i + 1] holds exactly of
    the positions on the [i]-th arc. *)
Lemma inHouse_onArc (lst p : Q) (i : nat) :
  0 <= lst -> lst < 24 -> 0 <= p -> p < 360 -> (i < 12)%nat ->
  inHouse p (map (housePosition lst) (seq 0 12)) i = true
  <-> Spec.onArc (lst * 15) i p.
Proof.
  intros H0 H1 Hp0 Hp1 Hi.
  assert (Hc0 : 0 <= lst * 15) by lra.
  assert (Hc1 : lst * 15 < 360) by lra.
  destruct (idx_range i Hi) as [I0 I1].
  pose proof (housePosition_cases lst i H0 H1 Hi) as Hcur.
  unfold inHouse, Spec.onArc. cbv zeta.
  rewrite (nth_error_cusps lst i Hi).
  destruct (Nat.eqb_spec i 11) as [E|E].
  - (* the last house closes on the first cusp *)
    rewrite (nth_error_cusps lst 0) by lia.
    pose proof (housePosition_cases lst 0 H0 H1 ltac:(lia)) as Hnext.
    assert (I11 : Spec.idx i == 11) by (subst i; reflexivity).
    change (Spec.idx 0) with 0 in Hnext.
    set (cur := housePosition lst i) in *.
    set (next := housePosition lst 0) in *.
    set (c := lst * 15) in *. set (x := Spec.idx i) in *.
    cbn [cmp_opt].
    destruct (leb cur next) eqn:L;
      [apply JsFacts.leb_true in L | apply JsFacts.leb_false in L];
      rewrite ?andb_true_iff, ?orb_true_iff, JsFacts.geb_true,
        JsFacts.ltb_true;
      lra.
  - assert (Hi' : (i + 1 < 12)%nat) by lia.
    rewrite (nth_error_cusps lst (i + 1) Hi').
    pose proof (housePosition_cases lst (i + 1) H0 H1 Hi') as Hnext.
    assert (IS : Spec.idx (i + 1) == Spec.idx i + 1)
      by (rewrite Nat.add_1_r; apply idx_S).
    set (cur := housePosition lst i) in *.
    set (next := housePosition lst (i + 1)) in *.
    set (c := lst * 15) in *. set (x := Spec.idx i) in *.
    set (x' := Spec.idx (i + 1)) in *.
    cbn [cmp_opt].
    destruct (leb cur next) eqn:L;
      [apply JsFacts.leb_true in L | apply JsFacts.leb_false in L];
      rewrite ?andb_true_iff, ?orb_true_iff, JsFacts.geb_true,
        JsFacts.ltb_true;
      lra.
Qed.

Lemma idx_lt_succ (i j : nat) : Spec.idx i < Spec.idx j + 1 -> (i <= j)%nat.
Proof.
  unfold Spec.idx. change 1 with (inject_Z 1).
  rewrite <- inject_Z_plus, <- Zlt_Qlt. lia.
Qed.

(** No two arcs overlap. *)
Lemma onArc_unique (c p : Q) (i j : nat) :
  0 <= c -> c < 360 -> 0 <= p -> p < 360 ->
  (i < 12)%nat -> (j < 12)%nat ->
  Spec.onArc c i p -> Spec.onArc c j p -> i = j.
Proof.
  intros Hc0 Hc1 Hp0 Hp1 Hi Hj Ai Aj.
  destruct (idx_range i Hi) as [I0 I1].
  destruct (idx_range j Hj) as [J0 J1].
  unfold Spec.onArc in Ai, Aj. cbv zeta in Ai, Aj.
  assert (A : Spec.idx i < Spec.idx j + 1) by lra.
  assert (B : Spec.idx j < Spec.idx i + 1) by lra.
  apply idx_lt_succ in A, B. lia.
Qed.

(** The arcs leave no gap. *)
Lemma onArc_exists (c p : Q) :
  0 <= c -> c < 360 -> 0 <= p -> p < 360 ->
  exists i, (i < 12)%nat /\ Spec.onArc c i p.
Proof.
  intros Hc0 Hc1 Hp0 Hp1.
  set (d := if Qle_bool c p then p - c else p - c + 360).
  assert (Hd : 0 <= d /\ d < 360
               /\ ((c <= p /\ d == p - c) \/ (p < c /\ d == p - c + 360))).
  { unfold d. destruct (Qle_bool c p) eqn:E.
    - apply Qle_bool_iff in E. lra.
    - apply (JsFacts.leb_false c p) in E. lra. }
  destruct Hd as (Hd0 & Hd1 & Hd2).
  pose proof (Qfloor_le (d / 30)) as F0.
  pose proof (Qlt_floor (d / 30)) as F1.
  rewrite inject_Z_plus in F1. change (inject_Z 1) with 1 in F1.
  assert (Hq : d == (d / 30) * 30) by (field; lra).
  set (q := d / 30) in *. set (k := Qfloor q) in *.
  assert (K0 : (0 <= k)%Z).
  { assert (T : inject_Z (-1) < inject_Z k)
      by (change (inject_Z (-1)) with (-1 # 1); lra).
    rewrite <- Zlt_Qlt in T. lia. }
  assert (K1 : (k < 12)%Z).
  { assert (T : inject_Z k < inject_Z 12)
      by (change (inject_Z 12) with 12; lra).
    rewrite <- Zlt_Qlt in T. exact T. }
  exists (Z.to_nat k). split; [lia|].
  unfold Spec.onArc, Spec.idx. cbv zeta. rewrite Z2Nat.id by exact K0.
  lra.
Qed.

(** When exactly one of the indices still to visit passes the test, the
    loop returns the house of that index. *)
Lemma getPlanetHouse_loop_unique (p : Q) (cusps : list Q) (i0 : nat) :
  forall indices,
    In i0 indices ->
    (forall i, In i indices -> inHouse p cusps i = true -> i = i0) ->
    inHouse p cusps i0 = true ->
    getPlanetHouse_loop p cusps indices = (Z.of_nat i0 + 1)%Z.
Proof.
  induction indices as [|h rest IH]; intros Hin Huniq Hi0.
  - destruct Hin.
  - cbn [getPlanetHouse_loop].
    destruct (inHouse p cusps h) eqn:E.
    + rewrite (Huniq h (or_introl eq_refl) E). reflexivity.
    + apply IH.
      * destruct Hin as [->|Hin]; [congruence|exact Hin].
      * intros i Hi. apply Huniq. right. exact Hi.
      * exact Hi0.
Qed.

(** Among twelve cusps the test of the loop is the membership of the arc
    between consecutive cusps. *)
Lemma inHouse_inArc (cusps : list Q) (i : nat) (p : Q) :
  List.length cusps = 12%nat -> (i < 12)%nat ->
  inHouse p cusps i = true <-> Spec.inArc cusps i p.
Proof.
  intros Hlen Hi.
  assert (Hnext : (if Nat.eqb i 11 then 0 else i + 1)%nat = (S i mod 12)%nat).
  { destruct (Nat.eqb_spec i 11) as [->|Hne]; [reflexivity|].
    rewrite Nat.mod_small by lia. lia. }
  unfold inHouse, Spec.inArc. rewrite Hnext.
  assert (Hj : (S i mod 12 < 12)%nat) by (apply Nat.mod_upper_bound; lia).
  destruct (nth_error cusps i) as [start|] eqn:Ei;
    [|apply nth_error_None in Ei; lia].
  destruct (nth_error cusps (S i mod 12)) as [stop|] eqn:Ej;
    [|apply nth_error_None in Ej; lia].
  cbn [cmp_opt].
  destruct (leb start stop) eqn:C.
  - apply JsFacts.leb_true in C.
    rewrite andb_true_iff, JsFacts.geb_true, JsFacts.ltb_true. split.
    + intros [A B]. exists start, stop. tauto.
    + intros (a & b & Ha & Hb & H). injection Ha as <-. injection Hb as <-.
      destruct H as [H|H]; [tauto|]. lra.
  - apply JsFacts.leb_false in C.
    rewrite orb_true_iff, JsFacts.geb_true, JsFacts.ltb_true. split.
    + intros H. exists start, stop. tauto.
    + intros (a & b & Ha & Hb & H). injection Ha as <-. injection Hb as <-.
      destruct H as [H|H]; [lra|tauto].
Qed.

(** Among the cusps [swe_houses] returns a longitude lies on one arc
    between consecutive cusps and on no other, and [getPlanetHouse]
    returns the number of that arc. *)
Lemma getPlanetHouse_arc (tjd_ut lat lon : number) (hsys : string)
    (r : HouseResult) (p : Q) :
  swe_houses tjd_ut lat lon hsys = Ok r -> 0 <= p -> p < 360 ->
  List.length (houses r) = 12%nat
  /\ exists i,
      (i < 12)%nat
      /\ getPlanetHouse p (houses r) = (Z.of_nat i + 1)%Z
      /\ Spec.inArc (houses r) i p
      /\ forall j, (j < 12)%nat -> Spec.inArc (houses r) j p -> j = i.
Proof.
  intros Hr Hp0 Hp1.
  destruct tjd_ut as [jd| | |]; try discriminate.
  destruct lat as [lat| | |]; try discriminate.
  destruct lon as [lon| | |]; try discriminate.
  destruct (swe_houses_cusps jd lat lon hsys r Hr) as (lst & H0 & H1 & ->).
  assert (Hc0 : 0 <= lst * 15) by lra.
  assert (Hc1 : lst * 15 < 360) by lra.
  destruct (onArc_exists (lst * 15) p Hc0 Hc1 Hp0 Hp1) as (i0 & Hi0 & A0).
  assert (T0 : inHouse p (map (housePosition lst) (seq 0 12)) i0 = true)
    by (apply inHouse_onArc; assumption).
  assert (U : forall i,
             (i < 12)%nat ->
             inHouse p (map (housePosition lst) (seq 0 12)) i = true ->
             i = i0).
  { intros i Hi Ti.
    apply (onArc_unique (lst * 15) p i i0); try assumption.
    apply inHouse_onArc; assumption. }
  assert (Hlen : List.length (map (housePosition lst) (seq 0 12)) = 12%nat)
    by reflexivity.
  split; [exact Hlen|]. exists i0. split; [exact Hi0|]. split; [|split].
  - unfold getPlanetHouse. apply getPlanetHouse_loop_unique.
    + apply in_seq. lia.
    + intros i Hi Ti. apply in_seq in Hi. apply U; [lia|exact Ti].
    + exact T0.
  - apply inHouse_inArc; assumption.
  - intros j Hj Aj. apply U; [exact Hj|].
    apply inHouse_inArc; assumption.
Qed.

(** C6.  For the twelve cusps [swe_houses] returns and every longitude
    [p] of [[0, 360)], [getPlanetHouse] returns a house in 1..12, and the
    twelve cyclic arcs [[cusps[i], cusps[i+1 mod 12])] between consecutive
    cusps partition [[0, 360)]: [p] lies on one arc and on no other, and
    the house returned is the number of that arc. *)
Theorem getPlanetHouse_partition (tjd_ut lat lon : number) (hsys : string)
    (r : HouseResult) (p : Q) :
  swe_houses tjd_ut lat lon hsys = Ok r -> 0 <= p -> p < 360 ->
  List.length (houses r) = 12%nat
  /\ (1 <= getPlanetHouse p (houses r) <= 12)%Z
  /\ (exists i,
        (i < 12)%nat
        /\ Spec.inArc (houses r) i p
        /\ forall j, (j < 12)%nat -> Spec.inArc (houses r) j p -> j = i)
  /\ (forall i, (i < 12)%nat ->
                Spec.inArc (houses r) i p
                <-> getPlanetHouse p (houses r) = (Z.of_nat i + 1)%Z).
Proof.
  intros Hr Hp0 Hp1.
  destruct (getPlanetHouse_arc tjd_ut lat lon hsys r p Hr Hp0 Hp1)
    as (Hlen & i0 & Hi0 & G & A0 & U).
  split; [exact Hlen|]. rewrite G. split; [lia|]. split.
  - exists i0. split; [exact Hi0|]. split; [exact A0|exact U].
  - intros i Hi. split.
    + intro Ai. rewrite (U i Hi Ai). reflexivity.
    + intro E. assert (i = i0) by lia. subst i. exact A0.
Qed.

Lemma getPlanetHouse_partition_witness :
  exists r,
    swe_houses 2451545 51.4779 0 SE_HSYS_PLACIDUS = Ok r
    /\ List.length (houses r) = 12%nat
    /\ (1 <= getPlanetHouse 100 (houses r) <= 12)%Z
    /\ (exists i,
          (i < 12)%nat
          /\ Spec.inArc (houses r) i 100
          /\ forall j, (j < 12)%nat -> Spec.inArc (houses r) j 100 -> j = i)
    /\ (forall i, (i < 12)%nat ->
                  Spec.inArc (houses r) i 100
                  <-> getPlanetHouse 100 (houses r) = (Z.of_nat i + 1)%Z).
Proof.
  eexists. split; [vm_compute; reflexivity|].
  apply (getPlanetHouse_partition 2451545 51.4779 0 SE_HSYS_PLACIDUS).
  - vm_compute. reflexivity.
  - vm_compute. discriminate.
  - reflexivity.
Defined.

End Houses.


(** ** The house overlay *)

Module HouseOverlay.

Import Js SwissEphemeris AstrologyEngine.



End HouseOverlay.

(** ** More on the Julian-day conversion *)

Module Calendar.

Import Js SwissEphemeris.

(** X1.  For a fixed date and calendar, two hours that the conversion
    accepts give Julian Days that differ by [(hour2 - hour1) / 24], and a
    later hour never gives an earlier Julian Day. *)
Theorem swe_julday_hour_shift (year month day hour1 hour2 : Q)
    (calendar : Z) (jd1 jd2 : Q) :
  swe_julday year month day hour1 calendar = Ok jd1 ->
  swe_julday year month day hour2 calendar = Ok jd2 ->
  jd2 - jd1 == (hour2 - hour1) / 24
  /\ (hour1 <= hour2 -> jd1 <= jd2).
Proof.
  unfold swe_julday.
  destruct (swe_julday_invalid year month day hour1); [discriminate|].
  destruct (swe_julday_invalid year month day hour2); [discriminate|].
  assert (E : forall b : Q,
             b + (hour2 - 12) / 24.0 - (b + (hour1 - 12) / 24.0)
             == (hour2 - hour1) / 24) by (intro b; field).
  assert (M : forall b : Q,
             hour1 <= hour2 ->
             b + (hour1 - 12) / 24.0 <= b + (hour2 - 12) / 24.0).
  { intros b Hle. apply Qplus_le_r. unfold Qdiv.
    apply Qmult_le_compat_r; [lra|discriminate]. }
  destruct (calendar =? SE_GREG_CAL)%Z;
    [|destruct (calendar =? SE_JUL_CAL)%Z; [|discriminate]];
    cbn [bind]; intros H1 H2; injection H1 as <-; injection H2 as <-;
    (split; [apply E|apply M]).
Qed.

Lemma swe_julday_hour_shift_witness :
  exists jd1 jd2 : Q,
    swe_julday 2000 1 1 6 SE_GREG_CAL = Ok jd1
    /\ swe_julday 2000 1 1 18 SE_GREG_CAL = Ok jd2
    /\ jd2 - jd1 == (18 - 6) / 24 /\ jd1 <= jd2.
Proof.
  eexists. eexists.
  split; [vm_compute; reflexivity|]. split; [vm_compute; reflexivity|].
  edestruct (swe_julday_hour_shift 2000 1 1 6 18 SE_GREG_CAL) as [A B].
  - vm_compute. reflexivity.
  - vm_compute. reflexivity.
  - split; [exact A|apply B; discriminate].
Defined.

(** X2.  The day after, as long as its number is at most 31, is one
    Julian Day later, whatever the month: the day number is not checked
    against the length of the month, so day 31 of a 30-day month is the
    first day of the next one. *)
Theorem swe_julday_next_day (year month day hour : Q) (calendar : Z)
    (jd : Q) :
  swe_julday year month day hour calendar = Ok jd ->
  day <= 30 ->
  exists jd' : Q,
    swe_julday year month (day + 1) hour calendar = Ok jd'
    /\ jd' == jd + 1.
Proof.
  intros H Hd. unfold swe_julday in *.
  destruct (swe_julday_invalid year month day hour) eqn:G; [discriminate|].
  assert (G' : swe_julday_invalid year month (day + 1) hour = false).
  { apply JulianDay.guard_accepted. apply JulianDay.guard_accepted in G.
    unfold Spec.accepted in *.
    destruct G as (Iy & Im & [z Hz] & M0 & M1 & D0 & D1 & H0 & H1).
    repeat split; try assumption; try lra.
    exists (z + 1)%Z. rewrite inject_Z_plus, Hz. reflexivity. }
  rewrite G'.
  destruct (calendar =? SE_GREG_CAL)%Z;
    [|destruct (calendar =? SE_JUL_CAL)%Z; [|discriminate]];
    cbn [bind] in *; injection H as <-;
    eexists; (split; [reflexivity|ring]).
Qed.

Lemma swe_julday_next_day_witness :
  exists jd jd' : Q,
    swe_julday 2023 4 30 12 SE_GREG_CAL = Ok jd
    /\ swe_julday 2023 4 (30 + 1) 12 SE_GREG_CAL = Ok jd'
    /\ jd' == jd + 1.
Proof.
  eexists.
  edestruct (swe_julday_next_day 2023 4 30 12 SE_GREG_CAL) as (jd' & A & B).
  - vm_compute. reflexivity.
  - vm_compute. discriminate.
  - exists jd'. split; [reflexivity|]. split; [exact A|exact B].
Defined.

(** X3.  From 1901 to 2099 a date read in the Julian calendar is 13 days
    later than the same date read in the Gregorian calendar. *)
Theorem swe_julday_julian_offset (year month day : Z) (hour : Q) :
  (1901 <= year <= 2099)%Z -> (1 <= month <= 12)%Z -> (1 <= day <= 31)%Z ->
  0 <= hour -> hour < 24 ->
  exists gregorian julian : Q,
    swe_julday (inject_Z year) (inject_Z month) (inject_Z day) hour
      SE_GREG_CAL = Ok gregorian
    /\ swe_julday (inject_Z year) (inject_Z month) (inject_Z day) hour
         SE_JUL_CAL = Ok julian
    /\ julian == gregorian + 13.
Proof.
  intros Hy Hm Hd Hh0 Hh1.
  assert (G : swe_julday_invalid (inject_Z year) (inject_Z month)
                (inject_Z day) hour = false).
  { apply JulianDay.guard_accepted. unfold Spec.accepted, Spec.integer.
    rewrite (Zle_Qle 1 month), (Zle_Qle month 12) in Hm.
    rewrite (Zle_Qle 1 day), (Zle_Qle day 31) in Hd.
    change (inject_Z 1) with 1 in *. change (inject_Z 12) with 12 in *.
    change (inject_Z 31) with 31 in *.
    repeat split; try tauto; eexists; reflexivity. }
  unfold swe_julday. rewrite G.
  change (SE_JUL_CAL =? SE_GREG_CAL)%Z with false.
  change (SE_GREG_CAL =? SE_GREG_CAL)%Z with true.
  change (SE_JUL_CAL =? SE_JUL_CAL)%Z with true.
  cbn [bind]. eexists. eexists.
  split; [reflexivity|]. split; [reflexivity|].
  set (az := ((14 - month) / 12)%Z).
  set (a := floor ((14 - inject_Z month) / 12)).
  assert (Ha : a == inject_Z az).
  { apply (JsFacts.floor_div (14 - inject_Z month) (14 - month) 12).
    unfold Z.sub. rewrite inject_Z_plus, inject_Z_opp. reflexivity. }
  set (y := inject_Z year + 4800 - a). set (yy := (year + 4800 - az)%Z).
  assert (Hyy : y == inject_Z yy).
  { unfold y, yy, Z.sub. rewrite !inject_Z_plus, inject_Z_opp, Ha.
    reflexivity. }
  rewrite (JsFacts.floor_div y yy 100 Hyy).
  rewrite (JsFacts.floor_div y yy 400 Hyy).
  assert (Hc : (yy / 100 - yy / 400 = 51)%Z).
  { assert (0 <= az <= 1)%Z
      by (unfold az; Z.to_euclidean_division_equations; lia).
    unfold yy. Z.to_euclidean_division_equations. lia. }
  assert (Hq : inject_Z (yy / 100) - inject_Z (yy / 400) == 51).
  { change 51 with (inject_Z 51). rewrite <- Hc. unfold Z.sub.
    rewrite inject_Z_plus, inject_Z_opp. reflexivity. }
  set (c := inject_Z (yy / 100)) in *. set (q := inject_Z (yy / 400)) in *.
  lra.
Qed.

Lemma swe_julday_julian_offset_witness :
  exists gregorian julian : Q,
    swe_julday (inject_Z 2000) (inject_Z 1) (inject_Z 1) 12
      SE_GREG_CAL = Ok gregorian
    /\ swe_julday (inject_Z 2000) (inject_Z 1) (inject_Z 1) 12
         SE_JUL_CAL = Ok julian
    /\ julian == gregorian + 13.
Proof.
  apply (swe_julday_julian_offset 2000 1 1 12).
  - lia.
  - lia.
  - lia.
  - vm_compute. discriminate.
  - reflexivity.
Defined.

(** X4.  With a calendar that is neither Gregorian nor Julian the
    conversion throws: "Invalid date or time parameters" when the date
    is refused, since the date is checked first, and "Invalid calendar
    type" otherwise. *)
Theorem swe_julday_calendar_error (year month day hour : Q) (calendar : Z) :
  calendar <> SE_GREG_CAL -> calendar <> SE_JUL_CAL ->
  swe_julday year month day hour calendar
  = Throw (Error (if swe_julday_invalid year month day hour
                  then "Invalid date or time parameters"
                  else "Invalid calendar type")).
Proof.
  intros Hg Hj. unfold swe_julday.
  destruct (swe_julday_invalid year month day hour); [reflexivity|].
  apply Z.eqb_neq in Hg, Hj. rewrite Hg, Hj. reflexivity.
Qed.

Lemma swe_julday_calendar_error_witness :
  swe_julday 2000 1 1 12 2 = Throw (Error "Invalid calendar type")
  /\ swe_julday 2000 13 1 12 2
     = Throw (Error "Invalid date or time parameters").
Proof.
  split.
  - apply (swe_julday_calendar_error 2000 1 1 12 2); discriminate.
  - apply (swe_julday_calendar_error 2000 13 1 12 2); discriminate.
Defined.

End Calendar.

(** ** The positions of the bodies *)

Module Ephemeris.

Import Js SwissEphemeris.

(** The folding idiom lands in [[0, 360)], a whole number of turns away. *)
Lemma normalize360_range (x : Q) : Spec.longitude_range (normalize360 x).
Proof. unfold normalize360. apply JsFacts.rem_fold. reflexivity. Qed.

Lemma normalize360_congruent (x : Q) : Spec.congruent360 (normalize360 x) x.
Proof.
  unfold normalize360, Spec.congruent360, rem.
  set (t1 := trunc (x / 360)).
  set (t2 := trunc ((x - 360 * inject_Z t1 + 360) / 360)).
  exists (1 - t1 - t2)%Z. unfold Z.sub.
  rewrite !inject_Z_plus, !inject_Z_opp. change (inject_Z 1) with 1. ring.
Qed.

(** Two angles of [[0, 360)] a whole number of turns apart are equal. *)
Lemma congruent360_range_eq (x y : Q) :
  Spec.longitude_range x -> Spec.longitude_range y ->
  Spec.congruent360 x y -> x == y.
Proof.
  intros [X0 X1] [Y0 Y1] [k Hk].
  assert (A : inject_Z (-1) < inject_Z k).
  { change (inject_Z (-1)) with (-1 # 1). lra. }
  assert (B : inject_Z k < inject_Z 1).
  { change (inject_Z 1) with 1. lra. }
  rewrite <- Zlt_Qlt in A, B. assert (k = 0%Z) by lia. subst k.
  rewrite Hk. change (inject_Z 0) with 0. ring.
Qed.

Lemma orbitalElements_get_In (table : list (Z * (Q * Q))) (planet : Z) :
  In planet (map fst table) ->
  exists elements, orbitalElements_get table planet = Some elements.
Proof.
  induction table as [|[id e] rest IH]; cbn [map fst In orbitalElements_get].
  - intros [].
  - intros [<-|H].
    + rewrite Z.eqb_refl. eauto.
    + destruct (planet =? id)%Z; eauto.
Qed.

Lemma orbitalElements_get_not_In (table : list (Z * (Q * Q))) (planet : Z) :
  ~ In planet (map fst table) -> orbitalElements_get table planet = None.
Proof.
  induction table as [|[id e] rest IH]; cbn [map fst In orbitalElements_get].
  - reflexivity.
  - intro H. destruct (Z.eqb_spec planet id) as [->|_]; [tauto|].
    apply IH. tauto.
Qed.

(** The longitude before folding: the linear model, less the ayanamsa
    when the sidereal flag is set. *)
Lemma swe_calc_ut_value (siderealMode : Z) (tjd_ut q : Q) (planet : Z)
    (flags : Z) (L M : Q) :
  q == inject_Z planet -> (0 <= planet)%Z ->
  orbitalElements_get orbitalElements planet = Some (L, M) ->
  exists r,
    swe_calc_ut siderealMode tjd_ut (Some (Finite q)) flags = Ok r
    /\ calc_longitude r
       = normalize360
           (if negb (Z.land flags SEFLG_SIDEREAL =? 0)%Z
            then L + M * ((tjd_ut - 2451545.0) / 36525.0)
                 - (if (siderealMode =? SE_SIDM_FAGAN_BRADLEY)%Z
                    then 24.9 else 23.8)
            else L + M * ((tjd_ut - 2451545.0) / 36525.0)).
Proof.
  intros Hq H0 Hget. unfold swe_calc_ut.
  assert (I : isInteger q = true)
    by (apply JsFacts.isInteger_spec; exists planet; exact Hq).
  assert (E : ltb q 0 = false).
  { apply JsFacts.ltb_false. rewrite Hq. change 0 with (inject_Z 0).
    rewrite <- Zle_Qle. exact H0. }
  rewrite I, E. cbn [negb orb].
  rewrite (Qfloor_comp q (inject_Z planet) Hq), Qfloor_Z, Hget. cbn [bind].
  eexists. split; reflexivity.
Qed.

(** The identifiers of the table are not negative. *)
Lemma orbitalElements_nonneg (planet : Z) :
  In planet (map fst orbitalElements) -> (0 <= planet)%Z.
Proof.
  cbn [map fst orbitalElements In].
  unfold SE_SUN, SE_MOON, SE_MERCURY, SE_VENUS, SE_MARS, SE_JUPITER,
    SE_SATURN, SE_URANUS, SE_NEPTUNE, SE_PLUTO, SE_TRUE_NODE, SE_CHIRON.
  intuition lia.
Qed.

(** X5.  [swe_calc_ut] returns exactly when the time is a finite number
    and the body is one of the twelve bodies of its table, whatever the
    flags and the sidereal mode, and the longitude it returns lies in
    [[0, 360)], with latitude 0 and distance 1. *)
Theorem swe_calc_ut_defined (siderealMode : Z) (tjd_ut : number)
    (planet : option number) (flags : Z) :
  ((exists r, swe_calc_ut siderealMode tjd_ut planet flags = Ok r)
   <-> (isFinite tjd_ut = true
        /\ exists body id,
            planet = Some body /\ Spec.isIdentifier body id
            /\ In id (map fst orbitalElements)))
  /\ (forall r,
        swe_calc_ut siderealMode tjd_ut planet flags = Ok r ->
        Spec.longitude_range (calc_longitude r)
        /\ calc_latitude r = 0 /\ calc_distance r = 1).
Proof.
  destruct tjd_ut as [tjd_ut| | |];
    try (split; [split|]; [intros [r Hr]; discriminate
                          |intros [Hf _]; discriminate
                          |intros r Hr; discriminate]).
  split; [split|].
  - intros [r Hr]. split; [reflexivity|].
    destruct planet as [[q| | |]|]; try discriminate.
    unfold swe_calc_ut in Hr.
    destruct (isInteger q) eqn:I; [|discriminate].
    destruct (ltb q 0) eqn:E; [discriminate|]. cbn [negb orb] in Hr.
    apply JsFacts.isInteger_spec in I. destruct I as [z Hz].
    rewrite (Qfloor_comp q (inject_Z z) Hz), Qfloor_Z in Hr.
    exists (Finite q), z. split; [reflexivity|].
    split; [exists q; split; [reflexivity|exact Hz]|].
    destruct (in_dec Z.eq_dec z (map fst orbitalElements)) as [Hin|Hout];
      [exact Hin|].
    rewrite (orbitalElements_get_not_In _ _ Hout) in Hr. discriminate.
  - intros (_ & body & id & -> & (q & -> & Hq) & Hin).
    destruct (orbitalElements_get_In _ _ Hin) as [[L M] Hget].
    destruct (swe_calc_ut_value siderealMode tjd_ut q id flags L M Hq
                (orbitalElements_nonneg id Hin) Hget) as (r & Hr & _).
    exists r. exact Hr.
  - intros r Hr. destruct planet as [[q| | |]|]; try discriminate.
    unfold swe_calc_ut in Hr.
    destruct (negb (isInteger q) || ltb q 0); [discriminate|].
    destruct (orbitalElements_get orbitalElements (Qfloor q)) as [[L M]|];
      [|discriminate].
    cbn [bind] in Hr. injection Hr as <-. cbn [calc_longitude calc_latitude
      calc_distance].
    split; [apply normalize360_range|split; reflexivity].
Qed.

(** X6.  The time is checked first: a time that is [NaN] or infinite is
    an "Invalid Julian Day Number", whatever the body.  For a finite
    time, a body that is [undefined] or is not a non-negative integer
    ([NaN] and the infinities included) is an "Invalid planet
    identifier", and a non-negative integer outside the table is an
    "Unsupported celestial body". *)
Theorem swe_calc_ut_errors (siderealMode : Z) (tjd_ut : number)
    (flags : Z) :
  (isFinite tjd_ut = false ->
   forall planet,
     swe_calc_ut siderealMode tjd_ut planet flags
     = Throw (Error "Invalid Julian Day Number"))
  /\ (isFinite tjd_ut = true ->
      swe_calc_ut siderealMode tjd_ut None flags
      = Throw (Error "Invalid planet identifier")
      /\ (forall body,
            (forall id, (0 <= id)%Z -> ~ Spec.isIdentifier body id) ->
            swe_calc_ut siderealMode tjd_ut (Some body) flags
            = Throw (Error "Invalid planet identifier"))
      /\ (forall body id,
            Spec.isIdentifier body id ->
            (0 <= id)%Z -> ~ In id (map fst orbitalElements) ->
            swe_calc_ut siderealMode tjd_ut (Some body) flags
            = Throw (Error "Unsupported celestial body"))).
Proof.
  split.
  - intros Hf planet. destruct tjd_ut; [discriminate| | |]; reflexivity.
  - intro Hf. destruct tjd_ut as [tjd_ut| | |]; try discriminate.
    split; [reflexivity|split].
    + intros body Hbody. destruct body as [q| | |]; try reflexivity.
      unfold swe_calc_ut.
      destruct (isInteger q) eqn:I; [|reflexivity].
      destruct (ltb q 0) eqn:E; [reflexivity|]. exfalso.
      apply JsFacts.isInteger_spec in I. destruct I as [z Hz].
      apply JsFacts.ltb_false in E.
      apply (Hbody z).
      * rewrite Zle_Qle. change (inject_Z 0) with 0. rewrite <- Hz. exact E.
      * exists q. split; [reflexivity|exact Hz].
    + intros body id (q & -> & Hq) H0 Hout. unfold swe_calc_ut.
      assert (I : isInteger q = true)
        by (apply JsFacts.isInteger_spec; exists id; exact Hq).
      assert (E : ltb q 0 = false).
      { apply JsFacts.ltb_false. rewrite Hq. change 0 with (inject_Z 0).
        rewrite <- Zle_Qle. exact H0. }
      rewrite I, E. cbn [negb orb].
      rewrite (Qfloor_comp q (inject_Z id) Hq), Qfloor_Z,
        (orbitalElements_get_not_In _ _ Hout).
      reflexivity.
Qed.

Lemma swe_calc_ut_defined_witness :
  exists r,
    swe_calc_ut SE_SIDM_FAGAN_BRADLEY 2451545 (Some (Finite 3))
      SEFLG_SIDEREAL = Ok r
    /\ Spec.longitude_range (calc_longitude r)
    /\ calc_latitude r = 0 /\ calc_distance r = 1.
Proof.
  eexists. split; [vm_compute; reflexivity|].
  apply (proj2 (swe_calc_ut_defined SE_SIDM_FAGAN_BRADLEY 2451545
                  (Some (Finite 3)) SEFLG_SIDEREAL)).
  vm_compute. reflexivity.
Defined.

Lemma swe_calc_ut_errors_witness :
  swe_calc_ut SE_SIDM_FAGAN_BRADLEY NaN (Some (Finite 3)) SEFLG_SIDEREAL
  = Throw (Error "Invalid Julian Day Number")
  /\ swe_calc_ut SE_SIDM_FAGAN_BRADLEY Infinity None SEFLG_SIDEREAL
     = Throw (Error "Invalid Julian Day Number")
  /\ swe_calc_ut SE_SIDM_FAGAN_BRADLEY 2451545 (Some NaN) SEFLG_SIDEREAL
     = Throw (Error "Invalid planet identifier")
  /\ swe_calc_ut SE_SIDM_FAGAN_BRADLEY 2451545 (Some (Finite 1.5))
       SEFLG_SIDEREAL
     = Throw (Error "Invalid planet identifier")
  /\ swe_calc_ut SE_SIDM_FAGAN_BRADLEY 2451545 (Some (Finite (inject_Z 10)))
       SEFLG_SIDEREAL
     = Throw (Error "Unsupported celestial body").
Proof.
  split; [|split].
  - apply (proj1 (swe_calc_ut_errors SE_SIDM_FAGAN_BRADLEY NaN
                    SEFLG_SIDEREAL)). reflexivity.
  - apply (proj1 (swe_calc_ut_errors SE_SIDM_FAGAN_BRADLEY Infinity
                    SEFLG_SIDEREAL)). reflexivity.
  - destruct (proj2 (swe_calc_ut_errors SE_SIDM_FAGAN_BRADLEY 2451545
                       SEFLG_SIDEREAL) eq_refl)
      as (_ & Hinvalid & Hunsupported).
    split; [|split].
    + apply Hinvalid. intros id _ (q & Hq & _). discriminate.
    + apply Hinvalid. intros id _ (q & Hq & Hid).
      injection Hq as <-.
      assert (I : isInteger 1.5 = true)
        by (apply JsFacts.isInteger_spec; exists id; exact Hid).
      discriminate.
    + apply (Hunsupported (Finite (inject_Z 10)) 10%Z).
      * exists (inject_Z 10). split; reflexivity.
      * lia.
      * cbn [map fst orbitalElements In].
        unfold SE_SUN, SE_MOON, SE_MERCURY, SE_VENUS, SE_MARS, SE_JUPITER,
          SE_SATURN, SE_URANUS, SE_NEPTUNE, SE_PLUTO, SE_TRUE_NODE,
          SE_CHIRON.
        intuition discriminate.
Defined.

(** X7.  For the same body and time, the longitude computed with the
    sidereal flag is the tropical longitude less the ayanamsa of the
    sidereal mode, 24.9 degrees for Fagan-Bradley and 23.8 otherwise, up
    to a whole number of turns. *)
Theorem swe_calc_ut_sidereal (siderealMode : Z) (tjd_ut : Q)
    (planet : option number) (tropicalFlags siderealFlags : Z)
    (tropical sidereal : CalcResult) :
  Z.land tropicalFlags SEFLG_SIDEREAL = 0%Z ->
  Z.land siderealFlags SEFLG_SIDEREAL <> 0%Z ->
  swe_calc_ut siderealMode tjd_ut planet tropicalFlags = Ok tropical ->
  swe_calc_ut siderealMode tjd_ut planet siderealFlags = Ok sidereal ->
  Spec.congruent360 (calc_longitude sidereal)
    (calc_longitude tropical
     - (if (siderealMode =? SE_SIDM_FAGAN_BRADLEY)%Z then 24.9 else 23.8)).
Proof.
  intros Ht Hs. destruct planet as [[q| | |]|]; try discriminate.
  unfold swe_calc_ut.
  destruct (negb (isInteger q) || ltb q 0); [discriminate|].
  destruct (orbitalElements_get orbitalElements (Qfloor q)) as [[L M]|];
    [|discriminate].
  cbn [bind]. rewrite Ht. apply Z.eqb_neq in Hs. rewrite Hs.
  cbn [Z.eqb negb]. intros H1 H2.
  injection H1 as <-. injection H2 as <-. cbn [calc_longitude].
  set (T := (tjd_ut - 2451545.0) / 36525.0).
  set (ayanamsa := if (siderealMode =? SE_SIDM_FAGAN_BRADLEY)%Z
                   then 24.9 else 23.8).
  destruct (normalize360_congruent (L + M * T - ayanamsa)) as [a Ha].
  destruct (normalize360_congruent (L + M * T)) as [b Hb].
  exists (a - b)%Z. unfold Z.sub.
  rewrite inject_Z_plus, inject_Z_opp, Ha, Hb. ring.
Qed.

Lemma swe_calc_ut_sidereal_witness :
  exists tropical sidereal,
    swe_calc_ut SE_SIDM_FAGAN_BRADLEY 2451545 (Some (Finite 0)) SEFLG_SWIEPH
    = Ok tropical
    /\ swe_calc_ut SE_SIDM_FAGAN_BRADLEY 2451545 (Some (Finite 0))
         (Z.lor SEFLG_SWIEPH SEFLG_SIDEREAL) = Ok sidereal
    /\ Spec.congruent360 (calc_longitude sidereal)
         (calc_longitude tropical - 24.9).
Proof.
  eexists. eexists.
  split; [vm_compute; reflexivity|]. split; [vm_compute; reflexivity|].
  eapply (swe_calc_ut_sidereal SE_SIDM_FAGAN_BRADLEY 2451545
            (Some (Finite 0)) SEFLG_SWIEPH
            (Z.lor SEFLG_SWIEPH SEFLG_SIDEREAL)).
  - reflexivity.
  - vm_compute. discriminate.
  - vm_compute. reflexivity.
  - vm_compute. reflexivity.
Defined.

End Ephemeris.

(** ** More on the houses *)

Module Cusps.

Import Js SwissEphemeris AstrologyEngine.

(** The three identifiers [swe_houses] accepts. *)
Lemma hsys_accepted (hsys : string) :
  existsb (String.eqb hsys) [SE_HSYS_PLACIDUS; SE_HSYS_KOCH; SE_HSYS_EQUAL]
  = true
  <-> In hsys [SE_HSYS_PLACIDUS; SE_HSYS_KOCH; SE_HSYS_EQUAL].
Proof.
  rewrite existsb_exists. split.
  - intros (x & Hin & Heq). apply String.eqb_eq in Heq. subst x. exact Hin.
  - intro Hin. exists hsys. split; [exact Hin|apply String.eqb_refl].
Qed.

Lemma coordinates_accepted (lat lon : Q) :
  gtb (abs lat) 90 || gtb (abs lon) 180 = false
  <-> Qabs lat <= 90 /\ Qabs lon <= 180.
Proof.
  rewrite orb_false_iff, !JsFacts.gtb_false. reflexivity.
Qed.

(** Within the accepted range the sidereal time never throws. *)
Lemma calculateLocalSiderealTime_defined (jd lon : Q) :
  Qabs lon <= 180 ->
  exists lst, calculateLocalSiderealTime jd lon = Ok lst.
Proof.
  intro H. unfold calculateLocalSiderealTime.
  apply (JsFacts.gtb_false (abs lon) 180) in H. rewrite H. eauto.
Qed.

(** X8.  The three numbers are checked first: when the time, the
    latitude or the longitude is [NaN] or infinite, [swe_houses] throws
    "Invalid Julian Day, latitude, or longitude".  When the three are
    finite it returns exactly when the latitude is within 90 degrees, the
    longitude within 180 and the house system is "P", "K" or "E"; a
    coordinate out of range is reported before an unknown house
    system. *)
Theorem swe_houses_defined (tjd_ut lat lon : number) (hsys : string) :
  match tjd_ut, lat, lon with
  | Finite _, Finite latitude, Finite longitude =>
      ((exists r, swe_houses tjd_ut lat lon hsys = Ok r)
       <-> (Qabs latitude <= 90 /\ Qabs longitude <= 180
            /\ In hsys [SE_HSYS_PLACIDUS; SE_HSYS_KOCH; SE_HSYS_EQUAL]))
      /\ (~ (Qabs latitude <= 90 /\ Qabs longitude <= 180) ->
          swe_houses tjd_ut lat lon hsys
          = Throw (Error "Latitude or longitude out of range"))
      /\ (Qabs latitude <= 90 /\ Qabs longitude <= 180 ->
          ~ In hsys [SE_HSYS_PLACIDUS; SE_HSYS_KOCH; SE_HSYS_EQUAL] ->
          swe_houses tjd_ut lat lon hsys
          = Throw (Error "Invalid house system"))
  | _, _, _ =>
      swe_houses tjd_ut lat lon hsys
      = Throw (Error "Invalid Julian Day, latitude, or longitude")
  end.
Proof.
  destruct tjd_ut as [tjd_ut| | |]; try reflexivity;
    destruct lat as [lat| | |]; try reflexivity;
    destruct lon as [lon| | |]; try reflexivity.
  unfold swe_houses.
  destruct (gtb (abs lat) 90 || gtb (abs lon) 180) eqn:C.
  - assert (N : ~ (Qabs lat <= 90 /\ Qabs lon <= 180)).
    { intro H. apply coordinates_accepted in H. congruence. }
    split; [split|split].
    + intros [r Hr]. discriminate.
    + tauto.
    + reflexivity.
    + tauto.
  - apply coordinates_accepted in C.
    destruct (existsb (String.eqb hsys)
                [SE_HSYS_PLACIDUS; SE_HSYS_KOCH; SE_HSYS_EQUAL]) eqn:S;
      cbn [negb].
    + apply hsys_accepted in S.
      destruct (calculateLocalSiderealTime_defined tjd_ut lon (proj2 C))
        as [lst ->].
      cbn [bind]. split; [split|split]; try tauto. eauto.
    + assert (N : ~ In hsys [SE_HSYS_PLACIDUS; SE_HSYS_KOCH; SE_HSYS_EQUAL]).
      { intro H. apply hsys_accepted in H. congruence. }
      split; [split|split]; try tauto.
      intros [r Hr]. discriminate.
Qed.

Lemma swe_houses_defined_witness :
  swe_houses 2451545 91 0 "X"
  = Throw (Error "Latitude or longitude out of range")
  /\ swe_houses 2451545 45 0 "X" = Throw (Error "Invalid house system")
  /\ swe_houses NaN 91 0 "X"
     = Throw (Error "Invalid Julian Day, latitude, or longitude")
  /\ swe_houses 2451545 45 Infinity "P"
     = Throw (Error "Invalid Julian Day, latitude, or longitude").
Proof.
  split; [|split; [|split]].
  - apply (swe_houses_defined 2451545 91 0 "X").
    intros [H _]. vm_compute in H. apply H. reflexivity.
  - apply (swe_houses_defined 2451545 45 0 "X").
    + split; vm_compute; discriminate.
    + cbn [In]. intros [H|[H|[H|[]]]]; discriminate.
  - exact (swe_houses_defined NaN 91 0 "X").
  - exact (swe_houses_defined 2451545 45 Infinity "P").
Defined.

(** X31.  [calculateLocalSiderealTime] checks the two numbers first: a
    Julian Day or a longitude that is [NaN] or infinite is an "Invalid
    Julian Day or longitude".  On finite numbers it returns exactly when
    the longitude is within 180 degrees, throwing "Longitude out of range"
    otherwise, and the sidereal time it returns lies in [[0, 24)]. *)
Theorem calculateLocalSiderealTime_total (jd longitude : number) :
  match jd, longitude with
  | Finite _, Finite lon =>
      (Qabs lon <= 180 ->
       exists lst,
         calculateLocalSiderealTime jd longitude = Ok lst
         /\ 0 <= lst /\ lst < 24)
      /\ (180 < Qabs lon ->
          calculateLocalSiderealTime jd longitude
          = Throw (Error "Longitude out of range"))
  | _, _ =>
      calculateLocalSiderealTime jd longitude
      = Throw (Error "Invalid Julian Day or longitude")
  end.
Proof.
  destruct jd as [jd| | |]; try reflexivity;
    destruct longitude as [lon| | |]; try reflexivity.
  split.
  - intro H.
    destruct (calculateLocalSiderealTime_defined jd lon H) as [lst Hlst].
    exists lst. split; [exact Hlst|].
    apply (Houses.calculateLocalSiderealTime_range jd lon lst Hlst).
  - intro H. unfold calculateLocalSiderealTime.
    apply (JsFacts.gtb_true (abs lon) 180) in H. rewrite H. reflexivity.
Qed.

Lemma calculateLocalSiderealTime_total_witness :
  (exists lst,
      calculateLocalSiderealTime 2451545 0 = Ok lst /\ 0 <= lst /\ lst < 24)
  /\ calculateLocalSiderealTime 2451545 181
     = Throw (Error "Longitude out of range")
  /\ calculateLocalSiderealTime NaN 181
     = Throw (Error "Invalid Julian Day or longitude").
Proof.
  split; [|split].
  - apply (proj1 (calculateLocalSiderealTime_total 2451545 0)).
    vm_compute. discriminate.
  - apply (proj2 (calculateLocalSiderealTime_total 2451545 181)).
    reflexivity.
  - exact (calculateLocalSiderealTime_total NaN 181).
Defined.

(** X9.  The cusps depend neither on the latitude nor on the house
    system: under every accepted latitude and system, "Placidus"
    included, [swe_houses] returns the same equal division. *)
Theorem swe_houses_equal_division (tjd_ut lat lat' lon : Q)
    (hsys hsys' : string) (r : HouseResult) :
  swe_houses tjd_ut lat lon hsys = Ok r ->
  Qabs lat' <= 90 ->
  In hsys' [SE_HSYS_PLACIDUS; SE_HSYS_KOCH; SE_HSYS_EQUAL] ->
  swe_houses tjd_ut lat' lon hsys' = Ok r.
Proof.
  intros Hr Hlat Hsys. unfold swe_houses in *.
  destruct (gtb (abs lat) 90 || gtb (abs lon) 180) eqn:C; [discriminate|].
  apply coordinates_accepted in C. destruct C as [_ Hlon].
  assert (C' : gtb (abs lat') 90 || gtb (abs lon) 180 = false)
    by (apply coordinates_accepted; tauto).
  apply hsys_accepted in Hsys. rewrite C', Hsys. cbn [negb].
  destruct (negb (existsb (String.eqb hsys)
                    [SE_HSYS_PLACIDUS; SE_HSYS_KOCH; SE_HSYS_EQUAL]));
    [discriminate|].
  exact Hr.
Qed.

Lemma swe_houses_equal_division_witness :
  exists r,
    swe_houses 2451545 51.4779 0 SE_HSYS_PLACIDUS = Ok r
    /\ swe_houses 2451545 (-33.9) 0 SE_HSYS_EQUAL = Ok r.
Proof.
  eexists. split; [vm_compute; reflexivity|].
  apply (swe_houses_equal_division 2451545 51.4779 (-33.9) 0
           SE_HSYS_PLACIDUS SE_HSYS_EQUAL).
  - vm_compute. reflexivity.
  - vm_compute. discriminate.
  - cbn [In]. tauto.
Defined.

(** A position on the [i]-th arc is assigned house [i + 1]. *)
Lemma getPlanetHouse_onArc (lst p : Q) (i : nat) :
  0 <= lst -> lst < 24 -> 0 <= p -> p < 360 -> (i < 12)%nat ->
  Spec.onArc (lst * 15) i p ->
  getPlanetHouse p (map (housePosition lst) (seq 0 12))
  = (Z.of_nat i + 1)%Z.
Proof.
  intros H0 H1 Hp0 Hp1 Hi A.
  assert (Hc0 : 0 <= lst * 15) by lra.
  assert (Hc1 : lst * 15 < 360) by lra.
  unfold getPlanetHouse. apply Houses.getPlanetHouse_loop_unique.
  - apply in_seq. lia.
  - intros j Hj Tj. apply in_seq in Hj.
    apply (Houses.onArc_unique (lst * 15) p j i); try assumption; try lia.
    apply Houses.inHouse_onArc; try assumption. lia.
  - apply Houses.inHouse_onArc; assumption.
Qed.

Lemma housePosition_range (lst : Q) (i : nat) :
  0 <= lst -> lst < 24 -> (i < 12)%nat ->
  Spec.longitude_range (housePosition lst i).
Proof.
  intros H0 H1 Hi. destruct (Houses.idx_range i Hi) as [I0 I1].
  unfold Spec.longitude_range.
  destruct (Houses.housePosition_cases lst i H0 H1 Hi) as [[A B]|[A B]];
    rewrite B; lra.
Qed.

(** X10.  The twelve cusps lie in [[0, 360)], each is 30 degrees after
    the one before, up to a turn, the twelfth closing on the first; the
    ascendant is the first cusp and the midheaven the tenth, 270 degrees
    after the ascendant up to a turn. *)
Theorem swe_houses_spacing (tjd_ut lat lon : Q) (hsys : string)
    (r : HouseResult) :
  swe_houses tjd_ut lat lon hsys = Ok r ->
  (forall i, (i < 12)%nat ->
     exists cusp next,
       nth_error (houses r) i = Some cusp
       /\ nth_error (houses r) (if Nat.eqb i 11 then 0 else i + 1)
          = Some next
       /\ Spec.longitude_range cusp
       /\ (next == cusp + 30 \/ next == cusp + 30 - 360))
  /\ (exists asc midheaven,
        ascendant r = Some asc /\ nth_error (houses r) 0 = Some asc
        /\ mc r = Some midheaven /\ nth_error (houses r) 9 = Some midheaven
        /\ (midheaven == asc + 270 \/ midheaven == asc + 270 - 360)).
Proof.
  intro Hr.
  destruct (Houses.swe_houses_cusps tjd_ut lat lon hsys r Hr)
    as (lst & H0 & H1 & Hh).
  assert (Ha : ascendant r = nth_error (houses r) 0
               /\ mc r = nth_error (houses r) 9).
  { unfold swe_houses in Hr.
    destruct (gtb (abs lat) 90 || gtb (abs lon) 180); [discriminate|].
    destruct (negb (existsb (String.eqb hsys)
                      [SE_HSYS_PLACIDUS; SE_HSYS_KOCH; SE_HSYS_EQUAL]));
      [discriminate|].
    destruct (calculateLocalSiderealTime tjd_ut lon); [|discriminate].
    cbn [bind] in Hr. injection Hr as <-. split; reflexivity. }
  destruct Ha as [Hasc Hmc]. rewrite Hasc, Hmc, Hh. clear Hasc Hmc Hh Hr.
  split.
  - intros i Hi.
    assert (Hn : ((if Nat.eqb i 11 then 0 else i + 1) < 12)%nat)
      by (destruct (Nat.eqb_spec i 11); lia).
    rewrite (Houses.nth_error_cusps lst i Hi).
    rewrite (Houses.nth_error_cusps lst _ Hn).
    eexists. eexists. split; [reflexivity|]. split; [reflexivity|].
    split; [apply housePosition_range; assumption|].
    destruct (Houses.idx_range i Hi) as [I0 I1].
    pose proof (Houses.housePosition_cases lst i H0 H1 Hi) as Hcur.
    pose proof (Houses.housePosition_cases lst _ H0 H1 Hn) as Hnext.
    destruct (Nat.eqb_spec i 11) as [E|E].
    + assert (I11 : Spec.idx i == 11) by (subst i; reflexivity).
      change (Spec.idx 0) with 0 in Hnext. lra.
    + assert (IS : Spec.idx (i + 1) == Spec.idx i + 1)
        by (rewrite Nat.add_1_r; apply Houses.idx_S).
      lra.
  - rewrite (Houses.nth_error_cusps lst 0) by lia.
    rewrite (Houses.nth_error_cusps lst 9) by lia.
    eexists. eexists. repeat (split; [reflexivity|]).
    pose proof (Houses.housePosition_cases lst 0 H0 H1 ltac:(lia)) as Hasc.
    pose proof (Houses.housePosition_cases lst 9 H0 H1 ltac:(lia)) as Hmc.
    change (Spec.idx 0) with 0 in Hasc. change (Spec.idx 9) with 9 in Hmc.
    lra.
Qed.

Lemma swe_houses_spacing_witness :
  exists r asc midheaven,
    swe_houses 2451545 51.4779 0 SE_HSYS_PLACIDUS = Ok r
    /\ ascendant r = Some asc /\ mc r = Some midheaven
    /\ (midheaven == asc + 270 \/ midheaven == asc + 270 - 360).
Proof.
  eexists.
  edestruct (swe_houses_spacing 2451545 51.4779 0 SE_HSYS_PLACIDUS)
    as (_ & asc & midheaven & A & _ & M & _ & D).
  - vm_compute. reflexivity.
  - exists asc, midheaven. split; [reflexivity|]. tauto.
Defined.

(** X11.  Each cusp falls in the house it opens: for the cusps of
    [swe_houses], [getPlanetHouse] maps the cusp of index [i] to house
    [i + 1]; so the ascendant is in house 1 and the midheaven in house
    10. *)
Theorem getPlanetHouse_cusp (tjd_ut lat lon : Q) (hsys : string)
    (r : HouseResult) (i : nat) (cusp : Q) :
  swe_houses tjd_ut lat lon hsys = Ok r ->
  nth_error (houses r) i = Some cusp ->
  getPlanetHouse cusp (houses r) = (Z.of_nat i + 1)%Z.
Proof.
  intros Hr Hc.
  destruct (Houses.swe_houses_cusps tjd_ut lat lon hsys r Hr)
    as (lst & H0 & H1 & Hh).
  rewrite Hh in *.
  assert (Hi : (i < 12)%nat).
  { assert (N : nth_error (map (housePosition lst) (seq 0 12)) i <> None)
      by congruence.
    apply nth_error_Some in N. rewrite length_map, length_seq in N.
    exact N. }
  rewrite (Houses.nth_error_cusps lst i Hi) in Hc. injection Hc as <-.
  destruct (housePosition_range lst i H0 H1 Hi) as [P0 P1].
  destruct (Houses.idx_range i Hi) as [I0 I1].
  apply getPlanetHouse_onArc; try assumption.
  unfold Spec.onArc. cbv zeta.
  destruct (Houses.housePosition_cases lst i H0 H1 Hi) as [[A B]|[A B]];
    lra.
Qed.

Lemma getPlanetHouse_cusp_witness :
  exists r midheaven,
    swe_houses 2451545 51.4779 0 SE_HSYS_PLACIDUS = Ok r
    /\ mc r = Some midheaven
    /\ getPlanetHouse midheaven (houses r) = 10%Z.
Proof.
  eexists. eexists.
  split; [vm_compute; reflexivity|]. split; [vm_compute; reflexivity|].
  apply (getPlanetHouse_cusp 2451545 51.4779 0 SE_HSYS_PLACIDUS _ 9).
  - vm_compute. reflexivity.
  - vm_compute. reflexivity.
Defined.

Lemma getPlanetHouse_loop_range (p : Q) (cusps : list Q) (indices : list nat) :
  Forall (fun i => (i < 12)%nat) indices ->
  (1 <= getPlanetHouse_loop p cusps indices <= 12)%Z.
Proof.
  induction 1 as [|i rest Hi _ IH]; cbn [getPlanetHouse_loop].
  - lia.
  - destruct (inHouse p cusps i); lia.
Qed.

(** X12.  Whatever the array of cusps and the position, [getPlanetHouse]
    returns a house number in 1..12; on an array that misses every cusp no
    comparison holds and it falls through to house 1. *)
Theorem getPlanetHouse_range (p : Q) (cusps : list Q) :
  (1 <= getPlanetHouse p cusps <= 12)%Z /\ getPlanetHouse p [] = 1%Z.
Proof.
  split; [|reflexivity].
  apply getPlanetHouse_loop_range. apply Forall_forall.
  intros i Hi. apply in_seq in Hi. lia.
Qed.

End Cusps.

(** ** More on the aspect classifier *)

Module Classifier.

Import Js AstrologyEngine.

(** The scan returns the first entry within orb, and the no-aspect
    result when there is none. *)
Lemma findAspect_scan_first (angle : Q) (e : Aspect) :
  forall table,
    In e table -> Spec.within angle e = true ->
    (forall e', In e' table -> Spec.within angle e' = true -> e' = e) ->
    findAspect_scan angle table = Spec.matched angle e.
Proof.
  induction table as [|h rest IH]; intros Hin Hw Huniq.
  - destruct Hin.
  - cbn [findAspect_scan]. fold (Spec.within angle h).
    destruct (Spec.within angle h) eqn:E.
    + rewrite (Huniq h (or_introl eq_refl) E). reflexivity.
    + apply IH.
      * destruct Hin as [->|Hin]; [congruence|exact Hin].
      * exact Hw.
      * intros e' He'. apply Huniq. right. exact He'.
Qed.

Lemma findAspect_scan_none (angle : Q) :
  forall table,
    (forall e, In e table -> Spec.within angle e = false) ->
    findAspect_scan angle table
    = {| name := "None"; orb := OrbNumber 0; strength := 0 |}.
Proof.
  induction table as [|h rest IH]; intro Hnone.
  - reflexivity.
  - cbn [findAspect_scan]. fold (Spec.within angle h).
    rewrite (Hnone h (or_introl eq_refl)).
    apply IH. intros e He. apply Hnone. right. exact He.
Qed.

(** The orbs of the eight aspects do not overlap: no separation is within
    the orb of two entries of the table of [findAspect]. *)
Lemma findAspect_orbs_disjoint (angle : Q) (e1 e2 : Aspect) :
  In e1 findAspect_aspects -> In e2 findAspect_aspects ->
  Spec.within angle e1 = true -> Spec.within angle e2 = true ->
  e1 = e2.
Proof.
  unfold Spec.within, findAspect_aspects. cbn [In].
  intros H1 H2 W1 W2.
  repeat match goal with
         | H : _ \/ _ |- _ => destruct H as [H|H]
         | H : False |- _ => destruct H
         end;
    subst e1 e2; try reflexivity; exfalso;
    cbn [aspect_angle aspect_orb] in W1, W2;
    apply Aspects.within_orb in W1, W2; lra.
Qed.

(** X13.  The order of the table does not matter: [findAspect] returns
    the one entry whose orb contains the separation, with the strength
    tapering from the base strength at the exact angle to 0 at the edge
    of the orb, and it returns the result "None" with orb 0 and strength 0
    exactly when no entry does. *)
Theorem findAspect_unique_match (pos1 pos2 : Q) :
  (forall e,
      In e findAspect_aspects ->
      Spec.within (separation pos1 pos2) e = true ->
      findAspect pos1 pos2 = Spec.matched (separation pos1 pos2) e)
  /\ ((forall e, In e findAspect_aspects ->
                 Spec.within (separation pos1 pos2) e = false)
      <-> findAspect pos1 pos2
          = {| name := "None"; orb := OrbNumber 0; strength := 0 |}).
Proof.
  split; [|split].
  - intros e Hin Hw. unfold findAspect.
    apply findAspect_scan_first; try assumption.
    intros e' Hin' Hw'.
    apply (findAspect_orbs_disjoint (separation pos1 pos2)); assumption.
  - intro Hnone. apply findAspect_scan_none. exact Hnone.
  - intros Hr e Hin.
    destruct (Spec.within (separation pos1 pos2) e) eqn:Hw; [|reflexivity].
    unfold findAspect in Hr.
    rewrite (findAspect_scan_first _ e _ Hin Hw) in Hr.
    + unfold Spec.matched in Hr. discriminate.
    + intros e' Hin' Hw'.
      apply (findAspect_orbs_disjoint (separation pos1 pos2)); assumption.
Qed.

Lemma findAspect_unique_match_witness :
  findAspect 0 125
  = Spec.matched (separation 0 125) (mkAspect "Trine" 120 8 0.9).
Proof.
  apply (findAspect_unique_match 0 125).
  - cbn [findAspect_aspects In]. tauto.
  - reflexivity.
Defined.

(** X14.  For longitudes of [[0, 360)] the separation the classifiers
    work on lies in [[0, 180]]: it is the shorter of the two arcs between
    the positions. *)
Theorem separation_range (pos1 pos2 : Q) :
  Spec.longitude_range pos1 -> Spec.longitude_range pos2 ->
  0 <= separation pos1 pos2 /\ separation pos1 pos2 <= 180
  /\ (separation pos1 pos2 == Qabs (pos1 - pos2)
      \/ separation pos1 pos2 == 360 - Qabs (pos1 - pos2)).
Proof.
  intros [A0 A1] [B0 B1]. unfold separation, abs, min.
  assert (D0 : 0 <= Qabs (pos1 - pos2)) by apply Qabs_nonneg.
  assert (D1 : Qabs (pos1 - pos2) <= 360)
    by (apply Qabs_Qle_condition; lra).
  set (d := Qabs (pos1 - pos2)) in *.
  destruct (Q.min_spec d (360 - d)) as [[H ->]|[H ->]]; lra.
Qed.

Lemma separation_range_witness :
  0 <= separation 350 10 /\ separation 350 10 <= 180
  /\ (separation 350 10 == Qabs (350 - 10)
      \/ separation 350 10 == 360 - Qabs (350 - 10)).
Proof.
  apply (separation_range 350 10); split; vm_compute;
    try discriminate; reflexivity.
Defined.

(** X15.  A position is in conjunction with itself at full strength:
    [findAspect(a, a)] is the Conjunction with orb "0.00" and strength
    1. *)
Theorem findAspect_self (a : Q) :
  name (findAspect a a) = "Conjunction"%string
  /\ orb (findAspect a a) = OrbText "0.00"
  /\ strength (findAspect a a) == 1.
Proof.
  assert (S : separation a a == 0).
  { unfold separation, abs, min.
    assert (D : Qabs (a - a) == 0).
    { rewrite (Qabs_wd (a - a) 0) by ring. reflexivity. }
    rewrite D. reflexivity. }
  assert (X : abs (separation a a - 0) == 0).
  { unfold abs. rewrite (Qabs_wd (separation a a - 0) 0) by (rewrite S; ring).
    reflexivity. }
  unfold findAspect, findAspect_aspects.
  cbn [findAspect_scan aspect_angle aspect_orb aspect_strength aspect_name].
  set (x := abs (separation a a - 0)) in *.
  assert (L : leb x 8 = true) by (apply JsFacts.leb_true; rewrite X; lra).
  rewrite L. cbn [name orb strength].
  split; [reflexivity|]. split.
  - unfold toFixed2.
    rewrite (Qfloor_comp (x * 100 + (1 # 2)) (1 # 2))
      by (rewrite X; ring).
    reflexivity.
  - rewrite X. reflexivity.
Qed.

(** X16.  The synastry strength is symmetric and never exceeds the
    strength the classifier gives the same pair: the two are equal, or the
    synastry strength is 0. *)
Theorem calculateAspectStrength_below_findAspect (pos1 pos2 : Q) :
  calculateAspectStrength pos1 pos2 = calculateAspectStrength pos2 pos1
  /\ calculateAspectStrength pos1 pos2 <= strength (findAspect pos1 pos2)
  /\ (calculateAspectStrength pos1 pos2 = strength (findAspect pos1 pos2)
      \/ calculateAspectStrength pos1 pos2 = 0).
Proof.
  split; [|split].
  - unfold calculateAspectStrength, separation, abs.
    rewrite (Qabs_Qminus pos1 pos2). reflexivity.
  - rewrite Aspects.calculateAspectStrength_major. unfold Spec.majorStrength.
    destruct (Aspects.findAspect_unit pos1 pos2) as [H0 _].
    destruct (Spec.major (name (findAspect pos1 pos2))); lra.
  - rewrite Aspects.calculateAspectStrength_major. unfold Spec.majorStrength.
    destruct (Spec.major (name (findAspect pos1 pos2))); tauto.
Qed.

Lemma findAspect_scan_cases (angle : Q) (table : list Aspect) :
  findAspect_scan angle table
  = {| name := "None"; orb := OrbNumber 0; strength := 0 |}
  \/ exists e,
      In e table /\ Spec.within angle e = true
      /\ findAspect_scan angle table = Spec.matched angle e.
Proof.
  induction table as [|h rest IH]; cbn [findAspect_scan].
  - left. reflexivity.
  - fold (Spec.within angle h). destruct (Spec.within angle h) eqn:E.
    + right. exists h. repeat split; [left; reflexivity|exact E].
    + destruct IH as [IH|(e & Hin & Hw & He)]; [left; exact IH|].
      right. exists e. repeat split; [right; exact Hin|exact Hw|exact He].
Qed.

(** X17.  [getAspectOrb] knows every aspect the classifier can name: on
    the name of a classified pair it returns the orb of the matched entry
    of the classifier's own table, and it is [undefined] only for the
    name "None". *)
Theorem getAspectOrb_classified (pos1 pos2 : Q) :
  match getAspectOrb (name (findAspect pos1 pos2)) with
  | Some o =>
      exists e,
        In e findAspect_aspects
        /\ findAspect pos1 pos2 = Spec.matched (separation pos1 pos2) e
        /\ o = aspect_orb e
  | None => name (findAspect pos1 pos2) = "None"%string
  end.
Proof.
  unfold findAspect.
  destruct (findAspect_scan_cases (separation pos1 pos2) findAspect_aspects)
    as [->|(e & Hin & Hw & ->)].
  - reflexivity.
  - unfold findAspect_aspects in Hin. cbn [In] in Hin.
    repeat match goal with
           | H : _ \/ _ |- _ => destruct H as [H|H]
           | H : False |- _ => destruct H
           end;
      subst e; cbn [Spec.matched name aspect_name];
      (eexists; split; [|split; [reflexivity|reflexivity]]);
      unfold findAspect_aspects; cbn [In]; tauto.
Qed.

(** The entries [getPlanetAspects] keeps. *)
Lemma getPlanetAspects_fold (planetName : string) (position : Q)
    (planets : list (string * Q)) :
  forall acc s,
    In s (fold_left (getPlanetAspects_step planetName position) planets acc)
    <-> In s acc
        \/ exists other pos,
            In (other, pos) planets /\ other <> planetName
            /\ name (findAspect position pos) <> "None"%string
            /\ s = (name (findAspect position pos) ++ " to " ++ other)%string.
Proof.
  induction planets as [|[other pos] rest IH]; intros acc s; cbn [fold_left].
  - split; [tauto|]. intros [H|(o & q & [] & _)]. exact H.
  - rewrite IH. unfold getPlanetAspects_step, calculateAspect.
    cbn [ca_aspect].
    destruct (String.eqb_spec other planetName) as [E|E]; cbn [negb].
    + split.
      * intros [H|(o & q & Hin & H)]; [tauto|].
        right. exists o, q. split; [right; exact Hin|exact H].
      * intros [H|(o & q & [Hin|Hin] & Hne & H)]; [tauto| |].
        -- injection Hin as <- <-. contradiction.
        -- right. exists o, q. tauto.
    + destruct (String.eqb_spec (name (findAspect position pos)) "None")
        as [N|N]; cbn [negb].
      * split.
        -- intros [H|(o & q & Hin & H)]; [tauto|].
           right. exists o, q. split; [right; exact Hin|exact H].
        -- intros [H|(o & q & [Hin|Hin] & Hne & Hn & H)]; [tauto| |].
           ++ injection Hin as <- <-. contradiction.
           ++ right. exists o, q. tauto.
      * rewrite in_app_iff. cbn [In]. split.
        -- intros [[H|[H|[]]]|(o & q & Hin & H)].
           ++ tauto.
           ++ right. exists other, pos. subst s.
              repeat split; try assumption. left. reflexivity.
           ++ right. exists o, q. split; [right; exact Hin|exact H].
        -- intros [H|(o & q & [Hin|Hin] & Hne & Hn & H)]; [tauto| |].
           ++ injection Hin as <- <-. left. right. left.
              symmetry. exact H.
           ++ right. exists o, q. tauto.
Qed.

(** X18.  [getPlanetAspects] lists exactly the aspects of the position to
    the other points of the chart: one text "<aspect> to <point>" for each
    of the fourteen points other than the planet itself whose aspect to
    the position is not "None"; the planet never appears as its own
    target. *)
Theorem getPlanetAspects_spec (planetName : string) (position : Q)
    (user : User) (s : string) :
  In s (getPlanetAspects planetName position user)
  <-> exists other pos,
      In (other, pos) (getPlanetAspects_planets user)
      /\ other <> planetName
      /\ name (findAspect position pos) <> "None"%string
      /\ s = (name (findAspect position pos) ++ " to " ++ other)%string.
Proof.
  unfold getPlanetAspects. rewrite getPlanetAspects_fold. cbn [In]. tauto.
Qed.

End Classifier.

(** ** Signs, degrees and minutes *)

Module Zodiac.

Import Js SwissEphemeris AstrologyEngine.

(** The primitives do not tell apart two fractions of the same value. *)
Lemma trunc_comp (x y : Q) : x == y -> trunc x = trunc y.
Proof.
  intro H. unfold trunc.
  rewrite (Qleb_comp 0 0 (Qeq_refl 0) x y H).
  rewrite (Qfloor_comp x y H), (Qceiling_comp x y H). reflexivity.
Qed.

Lemma rem_comp (x y m : Q) : x == y -> rem x m == rem y m.
Proof.
  intro H. unfold rem.
  rewrite (trunc_comp (x / m) (y / m)) by (rewrite H; reflexivity).
  rewrite H. reflexivity.
Qed.

Lemma array_get_comp {A : Type} (array : list A) (x y : Q) :
  x == y -> array_get array x = array_get array y.
Proof.
  intro H. unfold array_get, isInteger, geb.
  rewrite (Qred_complete x y H), (Qleb_comp 0 0 (Qeq_refl 0) x y H),
    (Qfloor_comp x y H).
  reflexivity.
Qed.

Lemma array_get_inject_Z {A : Type} (array : list A) (k : Z) :
  (0 <= k)%Z -> array_get array (inject_Z k) = nth_error array (Z.to_nat k).
Proof.
  intro H. unfold array_get.
  rewrite JsFacts.isInteger_inject_Z.
  assert (G : geb (inject_Z k) 0 = true).
  { apply JsFacts.geb_true. change 0 with (inject_Z 0).
    rewrite <- Zle_Qle. exact H. }
  rewrite G, Qfloor_Z. reflexivity.
Qed.

Lemma trunc_floor (x : Q) : 0 <= x -> trunc x = Qfloor x.
Proof.
  intro H. unfold trunc. apply Qle_bool_iff in H. rewrite H. reflexivity.
Qed.

(** The integer part of a number, with its bounds. *)
Lemma Qfloor_bounds (x : Q) :
  inject_Z (Qfloor x) <= x /\ x < inject_Z (Qfloor x) + 1.
Proof.
  split; [apply Qfloor_le|].
  pose proof (Qlt_floor x) as H. rewrite inject_Z_plus in H. exact H.
Qed.

Lemma inject_Z_range (k lo hi : Z) :
  inject_Z lo - 1 < inject_Z k -> inject_Z k < inject_Z hi ->
  (lo <= k < hi)%Z.
Proof.
  intros A B. rewrite <- Zlt_Qlt in B.
  assert (C : inject_Z (lo - 1) < inject_Z k).
  { unfold Z.sub. rewrite inject_Z_plus. exact A. }
  rewrite <- Zlt_Qlt in C. lia.
Qed.

(** The sign index of a longitude of [[0, 360)]. *)
Lemma sign_index (n : Q) :
  Spec.longitude_range n ->
  (0 <= Qfloor (n / 30) < 12)%Z
  /\ 30 * inject_Z (Qfloor (n / 30)) <= n
  /\ n < 30 * inject_Z (Qfloor (n / 30)) + 30.
Proof.
  intros [N0 N1].
  destruct (Qfloor_bounds (n / 30)) as [F0 F1].
  assert (Hq : n == (n / 30) * 30) by (field; lra).
  set (q := n / 30) in *. set (k := Qfloor q) in *.
  split; [|lra].
  apply inject_Z_range.
  - change (inject_Z 0) with 0. lra.
  - change (inject_Z 12) with 12. lra.
Qed.

Lemma zodiac_sign_defined (k : Z) :
  (0 <= k < 12)%Z ->
  exists sign_name,
    nth_error ZODIAC_SIGNS (Z.to_nat k) = Some sign_name
    /\ In sign_name ZODIAC_SIGNS.
Proof.
  intro H.
  destruct (nth_error ZODIAC_SIGNS (Z.to_nat k)) as [sign_name|] eqn:E.
  - exists sign_name. split; [reflexivity|].
    apply nth_error_In with (n := Z.to_nat k). exact E.
  - apply nth_error_None in E. cbn [ZODIAC_SIGNS List.length] in E. lia.
Qed.

(** X19.  [degreesToSign] splits every angle, folded into [[0, 360)],
    into a sign, whole degrees 0..29 within the sign and whole minutes
    0..59: the sign is always one of the twelve, and 30 times its index
    plus the degrees plus the minutes is the folded angle to within one
    minute of arc. *)
Theorem degreesToSign_decomposition (degrees : Q) :
  exists (k d m : Z) (sign_name : string),
    (0 <= k < 12)%Z /\ (0 <= d < 30)%Z /\ (0 <= m < 60)%Z
    /\ sign (degreesToSign degrees) = Some sign_name
    /\ nth_error ZODIAC_SIGNS (Z.to_nat k) = Some sign_name
    /\ degreesInSign (degreesToSign degrees) = inject_Z d
    /\ minutes (degreesToSign degrees) = inject_Z m
    /\ 30 * inject_Z k + inject_Z d + inject_Z m / 60
       <= normalize360 degrees
    /\ normalize360 degrees
       < 30 * inject_Z k + inject_Z d + (inject_Z m + 1) / 60.
Proof.
  unfold degreesToSign. fold (normalize360 degrees).
  pose proof (Ephemeris.normalize360_range degrees) as R.
  set (n := normalize360 degrees) in *.
  destruct (sign_index n R) as (K & K0 & K1). destruct R as [N0 N1].
  set (k := Qfloor (n / 30)) in *.
  (* the degrees within the sign *)
  assert (T30 : trunc (n / 30) = k)
    by (apply trunc_floor, Qle_shift_div_l; lra).
  assert (R30 : rem n 30 == n - 30 * inject_Z k)
    by (unfold rem; rewrite T30; reflexivity).
  destruct (Qfloor_bounds (rem n 30)) as [D0 D1].
  set (d := Qfloor (rem n 30)) in *.
  assert (D : (0 <= d < 30)%Z).
  { apply inject_Z_range.
    - change (inject_Z 0) with 0. lra.
    - change (inject_Z 30) with 30. lra. }
  (* the minutes *)
  assert (T1 : trunc (n / 1) = Qfloor n).
  { rewrite (trunc_comp (n / 1) n) by (field; lra).
    apply trunc_floor. exact N0. }
  assert (R1 : rem n 1 == n - inject_Z (Qfloor n))
    by (unfold rem; rewrite T1; ring).
  destruct (Qfloor_bounds n) as [F0 F1].
  assert (DF : inject_Z (Qfloor n) == 30 * inject_Z k + inject_Z d).
  { assert (E : d = (Qfloor n - 30 * k)%Z).
    { unfold d. apply JsFacts.Qfloor_unique; unfold Z.sub;
        rewrite inject_Z_plus, inject_Z_opp, inject_Z_mult;
        change (inject_Z 30) with 30; lra. }
    rewrite E. unfold Z.sub.
    rewrite inject_Z_plus, inject_Z_opp, inject_Z_mult.
    change (inject_Z 30) with 30. ring. }
  destruct (Qfloor_bounds (rem n 1 * 60)) as [M0 M1].
  set (m := Qfloor (rem n 1 * 60)) in *.
  assert (M : (0 <= m < 60)%Z).
  { apply inject_Z_range.
    - change (inject_Z 0) with 0. lra.
    - change (inject_Z 60) with 60. lra. }
  (* the sign *)
  assert (S : rem (floor (n / 30)) 12 == inject_Z k).
  { unfold floor. fold k. apply JsFacts.rem_small.
    - change 0 with (inject_Z 0). rewrite <- Zle_Qle. lia.
    - change 12 with (inject_Z 12). rewrite <- Zlt_Qlt. lia. }
  destruct (zodiac_sign_defined k K) as (sign_name & Hs & _).
  exists k, d, m, sign_name. cbn [sign degreesInSign minutes].
  repeat split; try lia.
  - rewrite (array_get_comp ZODIAC_SIGNS _ _ S).
    rewrite array_get_inject_Z by lia. exact Hs.
  - exact Hs.
  - assert (E : inject_Z m / 60 * 60 == inject_Z m) by field.
    set (x := inject_Z m / 60) in *. lra.
  - assert (E : (inject_Z m + 1) / 60 * 60 == inject_Z m + 1) by field.
    set (x := (inject_Z m + 1) / 60) in *. lra.
Qed.

(** X20.  [getZodiacSign] always returns one of the twelve signs, the
    one [degreesToSign] reports for the same angle. *)
Theorem getZodiacSign_degreesToSign (degrees : Q) :
  getZodiacSign degrees = sign (degreesToSign degrees)
  /\ exists sign_name,
      getZodiacSign degrees = Some sign_name /\ In sign_name ZODIAC_SIGNS.
Proof.
  unfold getZodiacSign, degreesToSign. fold (normalize360 degrees).
  pose proof (Ephemeris.normalize360_range degrees) as R.
  set (n := normalize360 degrees) in *.
  destruct (sign_index n R) as (K & _). cbn [sign]. unfold floor.
  set (k := Qfloor (n / 30)) in *.
  assert (S : rem (inject_Z k) 12 == inject_Z k).
  { apply JsFacts.rem_small.
    - change 0 with (inject_Z 0). rewrite <- Zle_Qle. lia.
    - change 12 with (inject_Z 12). rewrite <- Zlt_Qlt. lia. }
  split.
  - symmetry. apply array_get_comp. exact S.
  - rewrite array_get_inject_Z by lia. apply zodiac_sign_defined. exact K.
Qed.

End Zodiac.

(** ** The natal chart *)

Module NatalCharts.

Import Js SwissEphemeris AstrologyEngine.

(** *** Dates *)

(** X22.  [dateToJulianDay] never throws on a valid date: it returns the
    Julian Day of the local calendar fields, the month counted from 1 and
    the minutes and seconds folded into the hour; on an invalid date it
    throws "Invalid date or time parameters". *)
Theorem dateToJulianDay_valid (newDate : string -> option DateFields)
    (dateStr timeStr : string) :
  match newDate (dateStr ++ "T" ++ timeStr)%string with
  | Some date =>
      Spec.validDate date ->
      exists jd : Q,
        dateToJulianDay newDate dateStr timeStr = Ok jd
        /\ jd == Spec.toJulianDay (getFullYear date) (getMonth date + 1)
                  (getDate date)
                  (inject_Z (getHours date)
                   + inject_Z (getMinutes date) / 60
                   + inject_Z (getSeconds date) / 3600)
  | None =>
      dateToJulianDay newDate dateStr timeStr
      = Throw (Error "Invalid date or time parameters")
  end.
Proof.
  unfold dateToJulianDay.
  destruct (newDate (dateStr ++ "T" ++ timeStr)%string) as [date|];
    [|reflexivity].
  intros (Hm & Hd & Hh & Hmi & Hs).
  set (hour := inject_Z (getHours date) + inject_Z (getMinutes date) / 60.0
               + inject_Z (getSeconds date) / 3600.0).
  assert (Hhour : hour == inject_Z (getHours date)
                          + inject_Z (getMinutes date) / 60
                          + inject_Z (getSeconds date) / 3600)
    by (unfold hour; field).
  assert (R : 0 <= hour /\ hour < 24).
  { rewrite Hhour.
    assert (E1 : inject_Z (getMinutes date) / 60 * 60
                 == inject_Z (getMinutes date)) by field.
    assert (E2 : inject_Z (getSeconds date) / 3600 * 3600
                 == inject_Z (getSeconds date)) by field.
    rewrite (Zle_Qle 0 (getHours date)), (Zle_Qle (getHours date) 23) in Hh.
    rewrite (Zle_Qle 0 (getMinutes date)), (Zle_Qle (getMinutes date) 59)
      in Hmi.
    rewrite (Zle_Qle 0 (getSeconds date)), (Zle_Qle (getSeconds date) 59)
      in Hs.
    change (inject_Z 0) with 0 in *. change (inject_Z 23) with 23 in *.
    change (inject_Z 59) with 59 in *.
    set (x := inject_Z (getMinutes date) / 60) in *.
    set (y := inject_Z (getSeconds date) / 3600) in *.
    lra. }
  assert (G : swe_julday_invalid (inject_Z (getFullYear date))
                (inject_Z (getMonth date) + 1) (inject_Z (getDate date))
                hour = false).
  { apply JulianDay.guard_accepted. unfold Spec.accepted, Spec.integer.
    rewrite (Zle_Qle 0 (getMonth date)), (Zle_Qle (getMonth date) 11) in Hm.
    rewrite (Zle_Qle 1 (getDate date)), (Zle_Qle (getDate date) 31) in Hd.
    change (inject_Z 0) with 0 in *. change (inject_Z 1) with 1 in *.
    change (inject_Z 11) with 11 in *. change (inject_Z 31) with 31 in *.
    repeat split; try lra; try (eexists; reflexivity). }
  assert (M : inject_Z (getMonth date) + 1 == inject_Z (getMonth date + 1))
    by (rewrite inject_Z_plus; reflexivity).
  destruct (JulianDay.swe_julday_gregorian
              (inject_Z (getFullYear date)) (inject_Z (getMonth date) + 1)
              (inject_Z (getDate date)) hour
              (getFullYear date) (getMonth date + 1) (getDate date)
              (Qeq_refl _) M (Qeq_refl _) G)
    as (jd & Hjd & Hv).
  exists jd. split; [exact Hjd|].
  rewrite Hv. unfold Spec.toJulianDay. rewrite Hhour. reflexivity.
Qed.

Lemma dateToJulianDay_valid_witness :
  exists jd : Q,
    dateToJulianDay Samples.newDateWithReference "1985-09-15" "00:24" = Ok jd
    /\ jd == Spec.toJulianDay 1985 9 15 (0 + 24 / 60 + 0 / 3600).
Proof.
  apply (dateToJulianDay_valid Samples.newDateWithReference
           "1985-09-15" "00:24").
  unfold Spec.validDate. cbn. lia.
Defined.

(** A Julian Day that [dateToJulianDay] returns is finite. *)
Lemma dateToJulianDay_finite (newDate : string -> option DateFields)
    (dateStr timeStr : string) (jd : number) :
  dateToJulianDay newDate dateStr timeStr = Ok jd ->
  exists q : Q, jd = Finite q.
Proof.
  unfold dateToJulianDay.
  destruct (newDate (dateStr ++ "T" ++ timeStr)%string) as [date|];
    [|discriminate].
  unfold swe_julday.
  match goal with
  | |- context [if ?g then _ else _] => destruct g
  end; [discriminate|].
  change (SE_GREG_CAL =? SE_GREG_CAL)%Z with true. cbn [bind].
  intro H. injection H as <-. eexists. reflexivity.
Qed.

(** *** Bodies and points *)

(** Every name of [planetMap] leads to a body of the ephemeris table. *)
Lemma planetMap_supported :
  Forall (fun entry => In (snd entry) (map fst orbitalElements)) planetMap.
Proof.
  unfold planetMap.
  repeat (apply Forall_cons;
          [cbn [snd map fst orbitalElements In]; tauto|]).
  apply Forall_nil.
Qed.

Lemma planetMap_find (planet : string) :
  In planet (map fst planetMap) ->
  exists id,
    find (fun entry => String.eqb (fst entry) planet) planetMap
    = Some (planet, id)
    /\ In id (map fst orbitalElements).
Proof.
  intro Hin.
  destruct (find (fun entry => String.eqb (fst entry) planet) planetMap)
    as [[key id]|] eqn:E.
  - apply find_some in E. destruct E as [Hentry Hkey].
    apply String.eqb_eq in Hkey. cbn [fst] in Hkey. subst key.
    exists id. split; [reflexivity|].
    pose proof planetMap_supported as S. rewrite Forall_forall in S.
    apply (S (planet, id) Hentry).
  - exfalso. apply in_map_iff in Hin. destruct Hin as ([key id] & Hk & Hin).
    cbn [fst] in Hk. subst key.
    pose proof (find_none _ _ E (planet, id) Hin) as N. cbn [fst] in N.
    rewrite String.eqb_refl in N. discriminate.
Qed.

(** The flags of [calculatePlanetPosition] carry the sidereal bit. *)
Lemma calculatePlanetPosition_value (siderealMode : Z) (planet : string)
    (jd : Q) (coords : Coords) :
  In planet (map fst planetMap) ->
  exists L M,
    calculatePlanetPosition siderealMode planet jd coords
    = Ok (normalize360
            (L + M * ((jd - 2451545.0) / 36525.0)
             - (if (siderealMode =? SE_SIDM_FAGAN_BRADLEY)%Z
                then 24.9 else 23.8))).
Proof.
  intro Hin. destruct (planetMap_find planet Hin) as (id & Hf & Hid).
  destruct (Ephemeris.orbitalElements_get_In _ _ Hid) as [[L M] Hget].
  destruct (Ephemeris.swe_calc_ut_value siderealMode jd (inject_Z id) id
              (Z.lor SEFLG_SWIEPH SEFLG_SIDEREAL) L M (Qeq_refl _)
              (Ephemeris.orbitalElements_nonneg id Hid) Hget)
    as (r & Hr & Hl).
  exists L, M. unfold calculatePlanetPosition.
  rewrite Hf. cbn [option_map snd]. rewrite Hr. cbn [bind].
  rewrite Hl. reflexivity.
Qed.

(** X23.  For a Julian day that is finite [calculatePlanetPosition]
    returns, for each of the twelve names of its map, a longitude of
    [[0, 360)], whatever the coordinates, which it does not use, and for
    any other name it throws "Invalid planet identifier"; for a Julian day
    that is [NaN] or infinite it throws "Invalid Julian Day Number",
    whatever the name. *)
Theorem calculatePlanetPosition_defined (siderealMode : Z) (planet : string)
    (jd : number) (coords : Coords) :
  (isFinite jd = true ->
   In planet (map fst planetMap) ->
   exists longitude,
     calculatePlanetPosition siderealMode planet jd coords = Ok longitude
     /\ Spec.longitude_range longitude
     /\ forall coords',
         calculatePlanetPosition siderealMode planet jd coords'
         = Ok longitude)
  /\ (isFinite jd = true ->
      ~ In planet (map fst planetMap) ->
      calculatePlanetPosition siderealMode planet jd coords
      = Throw (Error "Invalid planet identifier"))
  /\ (isFinite jd = false ->
      calculatePlanetPosition siderealMode planet jd coords
      = Throw (Error "Invalid Julian Day Number")).
Proof.
  split; [|split].
  - intros Hfin Hin. destruct jd as [jd| | |]; try discriminate.
    destruct (calculatePlanetPosition_value siderealMode planet jd coords Hin)
      as (L & M & H).
    eexists. split; [exact H|]. split; [apply Ephemeris.normalize360_range|].
    intro coords'. exact H.
  - intros Hfin Hout. destruct jd as [jd| | |]; try discriminate.
    unfold calculatePlanetPosition.
    destruct (find (fun entry => String.eqb (fst entry) planet) planetMap)
      as [[key id]|] eqn:E; [|reflexivity].
    exfalso. apply Hout. apply find_some in E. destruct E as [Hentry Hkey].
    apply String.eqb_eq in Hkey. cbn [fst] in Hkey. subst key.
    apply in_map_iff. exists (planet, id). split; [reflexivity|exact Hentry].
  - intro Hfin. destruct jd as [jd| | |]; try discriminate; reflexivity.
Qed.

Lemma calculatePlanetPosition_defined_witness :
  (exists longitude,
      calculatePlanetPosition SE_SIDM_FAGAN_BRADLEY "Venus" 2451545
        (mkCoords 0 0 "") = Ok longitude
      /\ Spec.longitude_range longitude)
  /\ calculatePlanetPosition SE_SIDM_FAGAN_BRADLEY "Ceres" 2451545
       (mkCoords 0 0 "") = Throw (Error "Invalid planet identifier")
  /\ calculatePlanetPosition SE_SIDM_FAGAN_BRADLEY "Venus" NaN
       (mkCoords 0 0 "") = Throw (Error "Invalid Julian Day Number").
Proof.
  split; [|split].
  - destruct (proj1 (calculatePlanetPosition_defined SE_SIDM_FAGAN_BRADLEY
                       "Venus" 2451545 (mkCoords 0 0 "")))
      as (longitude & H & R & _).
    + reflexivity.
    + cbn. tauto.
    + exists longitude. split; [exact H|exact R].
  - apply (calculatePlanetPosition_defined SE_SIDM_FAGAN_BRADLEY "Ceres"
             2451545 (mkCoords 0 0 "")); [reflexivity|].
    cbn. intros H.
    repeat match goal with
           | H : _ \/ _ |- _ => destruct H as [H|H]
           end; try discriminate; exact H.
  - apply (calculatePlanetPosition_defined SE_SIDM_FAGAN_BRADLEY "Venus"
             NaN (mkCoords 0 0 "")). reflexivity.
Defined.

Lemma normalize360_comp (x y : Q) :
  x == y -> normalize360 x == normalize360 y.
Proof.
  intro H. unfold normalize360. apply Zodiac.rem_comp.
  rewrite (Zodiac.rem_comp x y 360 H). reflexivity.
Qed.

Lemma normalize360_id (x : Q) :
  Spec.longitude_range x -> normalize360 x == x.
Proof.
  intro R. apply Ephemeris.congruent360_range_eq.
  - apply Ephemeris.normalize360_range.
  - exact R.
  - apply Ephemeris.normalize360_congruent.
Qed.

(** Fortuna and the Vertex of a finite Julian Day, once the reference
    instant has converted. *)
Lemma calculateFortuna_finite (newDate : string -> option DateFields)
    (jd ref : Q) (coords : Coords) :
  dateToJulianDay newDate "1985-09-15" "00:24" = Ok ref ->
  calculateFortuna newDate jd coords
  = Ok (normalize360 (62.0 + 13.1763 * (jd - ref))).
Proof.
  intro H. unfold calculateFortuna. rewrite H. reflexivity.
Qed.

Lemma calculateVertex_finite (newDate : string -> option DateFields)
    (jd ref : Q) (coords : Coords) :
  dateToJulianDay newDate "1985-09-15" "00:24" = Ok ref ->
  calculateVertex newDate jd coords
  = Ok (normalize360
          (207.0 + (jd - ref) * 24 * 0.25 + (lat coords - 36.7378) * 0.1)).
Proof.
  intro H. unfold calculateVertex. rewrite H. reflexivity.
Qed.

(** X24.  Fortuna and the Vertex are extrapolated from the reference
    birth of 1985-09-15 00:24 as the platform reads it in local time: when
    that instant converts to the Julian Day [ref], which is then finite,
    Fortuna is 62 degrees plus 13.1763 degrees per day since [ref] and the
    Vertex 207 degrees plus 6 degrees per day plus 0.1 degree per degree
    of latitude north of 36.7378, both folded into [[0, 360)], so that at
    the reference they are 62 and 207; when it does not convert, both
    throw. *)
Theorem reference_points (newDate : string -> option DateFields) (jd : Q)
    (coords : Coords) :
  match dateToJulianDay newDate "1985-09-15" "00:24" with
  | Ok (Finite ref) =>
      exists fortuna vertex : Q,
        calculateFortuna newDate jd coords = Ok fortuna
        /\ calculateVertex newDate jd coords = Ok vertex
        /\ Spec.longitude_range fortuna /\ Spec.longitude_range vertex
        /\ Spec.congruent360 fortuna (62 + 13.1763 * (jd - ref))
        /\ Spec.congruent360 vertex
             (207 + 6 * (jd - ref) + 0.1 * (lat coords - 36.7378))
        /\ (jd == ref -> fortuna == 62)
        /\ (jd == ref -> lat coords == 36.7378 -> vertex == 207)
  | Ok _ => False
  | Throw e =>
      calculateFortuna newDate jd coords = Throw e
      /\ calculateVertex newDate jd coords = Throw e
  end.
Proof.
  destruct (dateToJulianDay newDate "1985-09-15" "00:24") as [ref|e] eqn:D;
    [|unfold calculateFortuna, calculateVertex; rewrite D; split;
      reflexivity].
  destruct (dateToJulianDay_finite _ _ _ _ D) as [q ->]. rename q into ref.
  rewrite (calculateFortuna_finite newDate jd ref coords D).
  rewrite (calculateVertex_finite newDate jd ref coords D).
  eexists. eexists. split; [reflexivity|]. split; [reflexivity|].
  split; [apply Ephemeris.normalize360_range|].
  split; [apply Ephemeris.normalize360_range|].
  split; [|split; [|split]].
  - destruct (Ephemeris.normalize360_congruent
                (62.0 + 13.1763 * (jd - ref))) as [k Hk].
    exists k. rewrite Hk. ring.
  - destruct (Ephemeris.normalize360_congruent
                (207.0 + (jd - ref) * 24 * 0.25
                 + (lat coords - 36.7378) * 0.1)) as [k Hk].
    exists k. rewrite Hk. ring.
  - intro E.
    rewrite (normalize360_comp (62.0 + 13.1763 * (jd - ref)) 62)
      by (rewrite E; ring).
    apply normalize360_id. split; [discriminate|reflexivity].
  - intros E L.
    rewrite (normalize360_comp
               (207.0 + (jd - ref) * 24 * 0.25
                + (lat coords - 36.7378) * 0.1) 207)
      by (rewrite E, L; ring).
    apply normalize360_id. split; [discriminate|reflexivity].
Qed.

Lemma reference_points_witness :
  exists ref fortuna vertex : Q,
    dateToJulianDay Samples.newDateWithReference "1985-09-15" "00:24" = Ok ref
    /\ calculateFortuna Samples.newDateWithReference ref
         (mkCoords 36.7378 (-119.7871) "Fresno") = Ok fortuna
    /\ calculateVertex Samples.newDateWithReference ref
         (mkCoords 36.7378 (-119.7871) "Fresno") = Ok vertex
    /\ fortuna == 62 /\ vertex == 207.
Proof.
  destruct (dateToJulianDay Samples.newDateWithReference "1985-09-15" "00:24")
    as [[ref| | |]|e] eqn:E; try (vm_compute in E; discriminate).
  pose proof (reference_points Samples.newDateWithReference ref
                (mkCoords 36.7378 (-119.7871) "Fresno")) as H.
  rewrite E in H.
  destruct H as (fortuna & vertex & Hf & Hv & _ & _ & _ & _ & F & V).
  exists ref, fortuna, vertex.
  split; [reflexivity|]. split; [exact Hf|]. split; [exact Hv|].
  split; [apply F; reflexivity|apply V; reflexivity].
Defined.

(** *** The chart *)

Lemma reference_points_range (newDate : string -> option DateFields)
    (jd : Q) (coords : Coords) (reference : Q) :
  dateToJulianDay newDate "1985-09-15" "00:24" = Ok reference ->
  exists fortuna vertex : Q,
    calculateFortuna newDate jd coords = Ok fortuna
    /\ calculateVertex newDate jd coords = Ok vertex
    /\ Spec.longitude_range fortuna /\ Spec.longitude_range vertex.
Proof.
  intro Href.
  rewrite (calculateFortuna_finite newDate jd reference coords Href).
  rewrite (calculateVertex_finite newDate jd reference coords Href).
  eexists. eexists. split; [reflexivity|]. split; [reflexivity|].
  split; apply (Ephemeris.normalize360_range _).
Qed.

(** What [swe_houses] returns for a coordinate in range. *)
Lemma swe_houses_value (jd : Q) (coords : Coords) :
  Spec.validCoords coords ->
  exists lst,
    0 <= lst /\ lst < 24
    /\ swe_houses jd (lat coords) (lon coords) SE_HSYS_PLACIDUS
       = Ok {| houses := map (housePosition lst) (seq 0 12);
               ascendant := Some (housePosition lst 0);
               mc := Some (housePosition lst 9) |}.
Proof.
  intros [Hlat Hlon].
  destruct (Cusps.calculateLocalSiderealTime_defined jd (lon coords) Hlon)
    as [lst Hlst].
  destruct (Houses.calculateLocalSiderealTime_range jd (lon coords) lst Hlst)
    as [H0 H1].
  exists lst. split; [exact H0|]. split; [exact H1|].
  unfold swe_houses.
  assert (C : gtb (abs (lat coords)) 90 || gtb (abs (lon coords)) 180
              = false) by (apply Cusps.coordinates_accepted; tauto).
  rewrite C. cbn [existsb negb]. change (String.eqb _ _ || _) with true.
  cbn [negb]. rewrite Hlst. reflexivity.
Qed.

(** A cusp is in the house it opens. *)
Lemma getPlanetHouse_housePosition (lst : Q) (i : nat) :
  0 <= lst -> lst < 24 -> (i < 12)%nat ->
  getPlanetHouse (housePosition lst i) (map (housePosition lst) (seq 0 12))
  = (Z.of_nat i + 1)%Z.
Proof.
  intros H0 H1 Hi.
  destruct (Cusps.housePosition_range lst i H0 H1 Hi) as [P0 P1].
  destruct (Houses.idx_range i Hi) as [I0 I1].
  apply Cusps.getPlanetHouse_onArc; try assumption.
  unfold Spec.onArc. cbv zeta.
  destruct (Houses.housePosition_cases lst i H0 H1 Hi) as [[A B]|[A B]];
    lra.
Qed.

Lemma calculatePlanetPosition_range (siderealMode : Z) (planet : string)
    (jd : Q) (coords : Coords) :
  In planet (map fst planetMap) ->
  exists longitude,
    calculatePlanetPosition siderealMode planet jd coords = Ok longitude
    /\ Spec.longitude_range longitude.
Proof.
  intro Hin.
  destruct (calculatePlanetPosition_value siderealMode planet jd coords Hin)
    as (L & M & H).
  eexists. split; [exact H|apply Ephemeris.normalize360_range].
Qed.

(** On a finite position the house read from an object is the house of
    [getPlanetHouse]. *)
Lemma getPlanetHouse_value_finite (q : Q) (cusps : list Q) :
  getPlanetHouse_value (Some (Finite q)) cusps = getPlanetHouse q cusps.
Proof.
  unfold getPlanetHouse_value, getPlanetHouse.
  induction (seq 0 12) as [|i rest IH]; [reflexivity|].
  cbn [getPlanetHouse_value_loop getPlanetHouse_loop]. rewrite IH.
  replace (inHouse_value (Some (Finite q)) cusps i) with (inHouse q cusps i);
    [reflexivity|].
  unfold inHouse_value, inHouse.
  destruct (nth_error cusps i),
    (nth_error cusps (if (i =? 11)%nat then 0%nat else (i + 1)%nat));
    reflexivity.
Qed.

Ltac planet_position mode body jd coords q R H :=
  destruct (calculatePlanetPosition_range mode body jd coords)
    as (q & H & R); [cbn [planetMap map fst In]; tauto|].

(** The chart in full: sixteen longitudes of [[0, 360)], the last two
    being the first and the tenth cusp, and the house of each. *)
Lemma calculateNatalChart_explicit
    (geocode : string -> result (list GeoResult))
    (newDate : string -> option DateFields) (siderealMode : Z)
    (dateOfBirth timeOfBirth placeOfBirth : string)
    (place : GeoResult) (others : list GeoResult) (jd reference : Q) :
  geocode placeOfBirth = Ok (place :: others) ->
  Qabs (latitude place) <= 90 -> Qabs (longitude place) <= 180 ->
  dateToJulianDay newDate dateOfBirth timeOfBirth = Ok jd ->
  dateToJulianDay newDate "1985-09-15" "00:24" = Ok reference ->
  exists lst longitudes,
    0 <= lst /\ lst < 24
    /\ List.length longitudes = 16%nat
    /\ Forall Spec.longitude_range longitudes
    /\ nth_error longitudes 14 = Some (housePosition lst 0)
    /\ nth_error longitudes 15 = Some (housePosition lst 9)
    /\ swe_houses jd (latitude place) (longitude place) SE_HSYS_PLACIDUS
       = Ok {| houses := map (housePosition lst) (seq 0 12);
               ascendant := Some (housePosition lst 0);
               mc := Some (housePosition lst 9) |}
    /\ calculateNatalChart geocode newDate siderealMode dateOfBirth
         timeOfBirth placeOfBirth
       = Ok {| chart_positions :=
                 Spec.chartObject longitudes
                   (map (housePosition lst) (seq 0 12));
               chart_natalAspects :=
                 calculateNatalAspects
                   (Spec.chartObject longitudes
                      (map (housePosition lst) (seq 0 12))) |}.
Proof.
  intros Hg Hlat Hlon Hjd Href.
  set (coords := {| lat := latitude place; lon := longitude place;
                    display_name := formattedAddress place |}).
  assert (Hc : geocodeLocation geocode placeOfBirth = Ok coords)
    by (unfold geocodeLocation; rewrite Hg; reflexivity).
  destruct (swe_houses_value jd coords) as (lst & H0 & H1 & Hh);
    [split; assumption|].
  planet_position siderealMode "Sun"%string jd coords q1 R1 P1.
  planet_position siderealMode "Moon"%string jd coords q2 R2 P2.
  planet_position siderealMode "Mercury"%string jd coords q3 R3 P3.
  planet_position siderealMode "Venus"%string jd coords q4 R4 P4.
  planet_position siderealMode "Mars"%string jd coords q5 R5 P5.
  planet_position siderealMode "Jupiter"%string jd coords q6 R6 P6.
  planet_position siderealMode "Saturn"%string jd coords q7 R7 P7.
  planet_position siderealMode "Uranus"%string jd coords q8 R8 P8.
  planet_position siderealMode "Neptune"%string jd coords q9 R9 P9.
  planet_position siderealMode "Pluto"%string jd coords q10 R10 P10.
  planet_position siderealMode "TrueNode"%string jd coords q11 R11 P11.
  planet_position siderealMode "Chiron"%string jd coords q12 R12 P12.
  destruct (reference_points_range newDate jd coords reference Href)
    as (q13 & q14 & P13 & P14 & R13 & R14).
  pose proof (Cusps.housePosition_range lst 0 H0 H1 ltac:(lia)) as R15.
  pose proof (Cusps.housePosition_range lst 9 H0 H1 ltac:(lia)) as R16.
  exists lst,
    [q1; q2; q3; q4; q5; q6; q7; q8; q9; q10; q11; q12; q13; q14;
     housePosition lst 0; housePosition lst 9].
  split; [exact H0|]. split; [exact H1|]. split; [reflexivity|].
  split; [repeat (apply Forall_cons; [assumption|]); apply Forall_nil|].
  split; [reflexivity|]. split; [reflexivity|]. split; [exact Hh|].
  unfold calculateNatalChart. rewrite Hc. cbn [bind]. rewrite Hjd.
  cbn [bind]. unfold positionEntries. cbn [evaluateEntries].
  unfold calculateAscendant, calculateMidHeaven, calculateHouses.
  rewrite P1, P2, P3, P4, P5, P6, P7, P8, P9, P10, P11, P12, P13, P14, Hh.
  cbn [bind ascendant mc houses option_map].
  set (a := housePosition lst 0). set (m := housePosition lst 9).
  set (cusps := map (housePosition lst) (seq 0 12)).
  assert (E : fold_left (addHouse cusps)
                (object_keys
                   [("sunPosition"%string, Some (Finite q1));
                    ("moonPosition"%string, Some (Finite q2));
                    ("mercuryPosition"%string, Some (Finite q3));
                    ("venusPosition"%string, Some (Finite q4));
                    ("marsPosition"%string, Some (Finite q5));
                    ("jupiterPosition"%string, Some (Finite q6));
                    ("saturnPosition"%string, Some (Finite q7));
                    ("uranusPosition"%string, Some (Finite q8));
                    ("neptunePosition"%string, Some (Finite q9));
                    ("plutoPosition"%string, Some (Finite q10));
                    ("trueNodePosition"%string, Some (Finite q11));
                    ("chironPosition"%string, Some (Finite q12));
                    ("fortunaPosition"%string, Some (Finite q13));
                    ("vertexPosition"%string, Some (Finite q14));
                    ("ascendantPosition"%string, Some (Finite a));
                    ("midHeavenPosition"%string, Some (Finite m))])
                [("sunPosition"%string, Some (Finite q1));
                 ("moonPosition"%string, Some (Finite q2));
                 ("mercuryPosition"%string, Some (Finite q3));
                 ("venusPosition"%string, Some (Finite q4));
                 ("marsPosition"%string, Some (Finite q5));
                 ("jupiterPosition"%string, Some (Finite q6));
                 ("saturnPosition"%string, Some (Finite q7));
                 ("uranusPosition"%string, Some (Finite q8));
                 ("neptunePosition"%string, Some (Finite q9));
                 ("plutoPosition"%string, Some (Finite q10));
                 ("trueNodePosition"%string, Some (Finite q11));
                 ("chironPosition"%string, Some (Finite q12));
                 ("fortunaPosition"%string, Some (Finite q13));
                 ("vertexPosition"%string, Some (Finite q14));
                 ("ascendantPosition"%string, Some (Finite a));
                 ("midHeavenPosition"%string, Some (Finite m))]
              = Spec.chartObject
                  [q1; q2; q3; q4; q5; q6; q7; q8; q9; q10; q11; q12; q13;
                   q14; a; m] cusps).
  { clearbody a m cusps.
    cbv -[getPlanetHouse getPlanetHouse_value inject_Z].
    rewrite !getPlanetHouse_value_finite. reflexivity. }
  rewrite E. reflexivity.
Qed.

Ltac sixteen l :=
  destruct l as [|? [|? [|? [|? [|? [|? [|? [|? [|? [|? [|? [|? [|? [|?
    [|? [|? [|? ?]]]]]]]]]]]]]]]]]; try discriminate.

(** Reading a chart object: under each position key the longitude of the
    same rank, under its house key the house of that longitude. *)
Lemma chartObject_lookup (longitudes cusps : list Q) (i : nat) (key : string) :
  List.length longitudes = 16%nat ->
  nth_error Spec.positionKeys i = Some key ->
  exists q : Q,
    nth_error longitudes i = Some q
    /\ object_get (Spec.chartObject longitudes cusps) key = Some (Finite q)
    /\ object_get (Spec.chartObject longitudes cusps) (Spec.houseKeyOf key)
       = Some (Finite (inject_Z (getPlanetHouse q cusps))).
Proof.
  intros Hlen Hkey. sixteen longitudes. clear Hlen.
  unfold Spec.positionKeys in Hkey.
  do 16 (destruct i as [|i];
         [cbn [nth_error] in Hkey; injection Hkey as <-;
          eexists; split; [reflexivity|];
          split; cbv -[getPlanetHouse inject_Z]; reflexivity|]).
  cbn [nth_error] in Hkey. destruct i; discriminate.
Qed.

Lemma chartObject_keys (longitudes cusps : list Q) :
  List.length longitudes = 16%nat ->
  object_keys (Spec.chartObject longitudes cusps)
  = Spec.positionKeys ++ map Spec.houseKeyOf Spec.positionKeys.
Proof.
  intro Hlen. sixteen longitudes. clear Hlen.
  cbv -[getPlanetHouse inject_Z]. reflexivity.
Qed.

Ltac split_in H :=
  repeat match type of H with
         | _ \/ _ => destruct H as [H|H]
         | False => destruct H
         end.

Lemma pairs_before (l : list string) (x y : string) :
  In (x, y) (Spec.pairs l) <-> Spec.before l x y.
Proof.
  unfold Spec.before. revert x y.
  induction l as [|a rest IH]; intros x y; cbn [Spec.pairs].
  - split; [intros []|]. intros (i & j & _ & Hi & _).
    destruct i; discriminate.
  - rewrite in_app_iff, in_map_iff, IH. split.
    + intros [(z & E & Hz)|(i & j & Hij & Hi & Hj)].
      * injection E as <- <-. apply In_nth_error in Hz.
        destruct Hz as [k Hk]. exists 0%nat, (S k).
        split; [lia|]. split; [reflexivity|exact Hk].
      * exists (S i), (S j). split; [lia|]. split; assumption.
    + intros (i & j & Hij & Hi & Hj).
      destruct j as [|j]; [lia|]. cbn [nth_error] in Hj.
      destruct i as [|i]; cbn [nth_error] in Hi.
      * injection Hi as <-. left. exists y.
        split; [reflexivity|]. apply nth_error_In with (n := j). exact Hj.
      * right. exists i, j. split; [lia|]. split; assumption.
Qed.

(** The loops of [calculateNatalAspects] visit the pairs of the twelve
    bodies. *)
Lemma calculateNatalAspects_pairs (positions : NumberObject) :
  calculateNatalAspects positions
  = map (fun bodies => Spec.natalEntry positions (fst bodies) (snd bodies))
      (Spec.pairs Spec.primaryBodies).
Proof.
  cbv -[findAspect_value object_get]. reflexivity.
Qed.

(** X25.  [calculateNatalAspects] reports the 66 pairings of the twelve
    primary bodies, one entry for every two of them, the body that comes
    first in the order sun, moon, mercury, venus, mars, jupiter, saturn,
    uranus, neptune, pluto, trueNode, chiron being named first; this
    whatever the object holds and whether or not the pair forms an
    aspect: pairs without aspect stay in the list under the name "None".
    Each entry names the two bodies without the suffix "Position" and
    carries the name, the orb and the strength of the classification of
    the values stored under their keys. *)
Theorem calculateNatalAspects_all_pairs (positions : NumberObject) :
  List.length (calculateNatalAspects positions) = 66%nat
  /\ (forall body1 body2,
        Spec.before Spec.primaryBodies body1 body2 ->
        In (Spec.natalEntry positions body1 body2)
          (calculateNatalAspects positions))
  /\ (forall a,
        In a (calculateNatalAspects positions) ->
        Spec.before Spec.primaryBodies (sa_planet1 a) (sa_planet2 a)
        /\ a = Spec.natalEntry positions (sa_planet1 a) (sa_planet2 a))
  /\ NoDup (map (fun a => (sa_planet1 a, sa_planet2 a))
              (calculateNatalAspects positions)).
Proof.
  split; [reflexivity|]. split; [|split].
  - intros body1 body2 H. rewrite calculateNatalAspects_pairs.
    apply in_map_iff. exists (body1, body2).
    split; [reflexivity|]. apply pairs_before. exact H.
  - intros a Ha. rewrite calculateNatalAspects_pairs in Ha.
    apply in_map_iff in Ha. destruct Ha as ([body1 body2] & <- & Hin).
    cbn [fst snd Spec.natalEntry sa_planet1 sa_planet2].
    split; [apply pairs_before; exact Hin|reflexivity].
  - cbv -[findAspect_value object_get].
    repeat (apply NoDup_cons;
            [cbn [In]; intro H; split_in H; discriminate|]).
    apply NoDup_nil.
Qed.

Lemma calculateNatalAspects_all_pairs_witness :
  In (Spec.natalEntry [("sunPosition"%string, Some (Finite 10));
                       ("marsPosition"%string, Some (Finite 70))]
        "sun" "mars")
    (calculateNatalAspects [("sunPosition"%string, Some (Finite 10));
                            ("marsPosition"%string, Some (Finite 70))])
  /\ sa_aspect
       (Spec.natalEntry [("sunPosition"%string, Some (Finite 10));
                         ("marsPosition"%string, Some (Finite 70))]
          "sun" "mars") = "Sextile"%string.
Proof.
  split; [|vm_compute; reflexivity].
  apply (proj1 (proj2 (calculateNatalAspects_all_pairs
                         [("sunPosition"%string, Some (Finite 10));
                          ("marsPosition"%string, Some (Finite 70))]))).
  exists 0%nat, 4%nat. split; [lia|split; reflexivity].
Defined.

(** X26.  When the place geocodes to a coordinate in range and both the
    birth instant and the reference instant convert to a Julian Day,
    [calculateNatalChart] returns a chart: its numeric keys are the
    sixteen position keys followed by their sixteen house keys, every
    position is a longitude of [[0, 360)], and its natal aspects are the
    66 pairings computed from that same object. *)
Theorem calculateNatalChart_positions
    (geocode : string -> result (list GeoResult))
    (newDate : string -> option DateFields) (siderealMode : Z)
    (dateOfBirth timeOfBirth placeOfBirth : string)
    (place : GeoResult) (others : list GeoResult) (jd reference : Q) :
  geocode placeOfBirth = Ok (place :: others) ->
  Qabs (latitude place) <= 90 -> Qabs (longitude place) <= 180 ->
  dateToJulianDay newDate dateOfBirth timeOfBirth = Ok jd ->
  dateToJulianDay newDate "1985-09-15" "00:24" = Ok reference ->
  exists chart,
    calculateNatalChart geocode newDate siderealMode dateOfBirth
      timeOfBirth placeOfBirth = Ok chart
    /\ object_keys (chart_positions chart)
       = Spec.positionKeys ++ map Spec.houseKeyOf Spec.positionKeys
    /\ (forall key,
          In key Spec.positionKeys ->
          exists q : Q,
            object_get (chart_positions chart) key = Some (Finite q)
            /\ Spec.longitude_range q)
    /\ chart_natalAspects chart
       = calculateNatalAspects (chart_positions chart)
    /\ List.length (chart_natalAspects chart) = 66%nat.
Proof.
  intros Hg Hlat Hlon Hjd Href.
  destruct (calculateNatalChart_explicit geocode newDate siderealMode
              dateOfBirth timeOfBirth placeOfBirth place others jd reference
              Hg Hlat Hlon Hjd Href)
    as (lst & longitudes & H0 & H1 & Hlen & Hrange & _ & _ & _ & Hchart).
  eexists. split; [exact Hchart|]. cbn [chart_positions chart_natalAspects].
  split; [apply chartObject_keys; exact Hlen|].
  split; [|split; reflexivity].
  intros key Hkey. apply In_nth_error in Hkey. destruct Hkey as [i Hi].
  destruct (chartObject_lookup longitudes
              (map (housePosition lst) (seq 0 12)) i key Hlen Hi)
    as (q & Hq & Hget & _).
  exists q. split; [exact Hget|].
  rewrite Forall_forall in Hrange. apply Hrange.
  apply nth_error_In with (n := i). exact Hq.
Qed.

Lemma calculateNatalChart_positions_witness :
  exists chart,
    calculateNatalChart Samples.geocode Samples.newDateWithReference
      SE_SIDM_FAGAN_BRADLEY "2000-01-01" "12:00" "Greenwich" = Ok chart
    /\ object_keys (chart_positions chart)
       = Spec.positionKeys ++ map Spec.houseKeyOf Spec.positionKeys
    /\ List.length (chart_natalAspects chart) = 66%nat.
Proof.
  edestruct (calculateNatalChart_positions Samples.geocode
               Samples.newDateWithReference SE_SIDM_FAGAN_BRADLEY
               "2000-01-01" "12:00" "Greenwich")
    as (chart & Hc & Hk & _ & _ & Hn).
  - vm_compute. reflexivity.
  - vm_compute. discriminate.
  - vm_compute. discriminate.
  - vm_compute. reflexivity.
  - vm_compute. reflexivity.
  - exists chart. split; [exact Hc|]. split; [exact Hk|exact Hn].
Defined.

(** X27.  In the chart every position has a house: under the house key
    of each position key the chart stores the house [getPlanetHouse]
    assigns to that position among the cusps of [swe_houses] for the same
    instant and coordinate, a number in 1..12; the ascendant is always in
    house 1 and the midheaven always in house 10. *)
Theorem calculateNatalChart_houses
    (geocode : string -> result (list GeoResult))
    (newDate : string -> option DateFields) (siderealMode : Z)
    (dateOfBirth timeOfBirth placeOfBirth : string)
    (place : GeoResult) (others : list GeoResult) (jd reference : Q) :
  geocode placeOfBirth = Ok (place :: others) ->
  Qabs (latitude place) <= 90 -> Qabs (longitude place) <= 180 ->
  dateToJulianDay newDate dateOfBirth timeOfBirth = Ok jd ->
  dateToJulianDay newDate "1985-09-15" "00:24" = Ok reference ->
  exists chart houseResult,
    calculateNatalChart geocode newDate siderealMode dateOfBirth
      timeOfBirth placeOfBirth = Ok chart
    /\ swe_houses jd (latitude place) (longitude place) SE_HSYS_PLACIDUS
       = Ok houseResult
    /\ (forall key,
          In key Spec.positionKeys ->
          exists (q : Q) (h : Z),
            object_get (chart_positions chart) key = Some (Finite q)
            /\ object_get (chart_positions chart) (Spec.houseKeyOf key)
               = Some (Finite (inject_Z h))
            /\ h = getPlanetHouse q (houses houseResult)
            /\ (1 <= h <= 12)%Z)
    /\ object_get (chart_positions chart) "ascendantPosition"
       = option_map Finite (ascendant houseResult)
    /\ object_get (chart_positions chart) "midHeavenPosition"
       = option_map Finite (mc houseResult)
    /\ object_get (chart_positions chart) "ascendantPositionHouse"
       = Some (Finite 1)
    /\ object_get (chart_positions chart) "midHeavenPositionHouse"
       = Some (Finite 10).
Proof.
  intros Hg Hlat Hlon Hjd Href.
  destruct (calculateNatalChart_explicit geocode newDate siderealMode
              dateOfBirth timeOfBirth placeOfBirth place others jd reference
              Hg Hlat Hlon Hjd Href)
    as (lst & longitudes & H0 & H1 & Hlen & _ & Hasc & Hmc & Hh & Hchart).
  eexists. eexists. split; [exact Hchart|]. split; [exact Hh|].
  cbn [chart_positions houses ascendant mc option_map].
  set (cusps := map (housePosition lst) (seq 0 12)) in *.
  destruct (chartObject_lookup longitudes cusps 14 "ascendantPosition"
              Hlen eq_refl) as (a & Ha & Hga & Hha).
  destruct (chartObject_lookup longitudes cusps 15 "midHeavenPosition"
              Hlen eq_refl) as (m & Hm & Hgm & Hhm).
  rewrite Hasc in Ha. injection Ha as <-.
  rewrite Hmc in Hm. injection Hm as <-.
  unfold cusps in Hha, Hhm.
  rewrite (getPlanetHouse_housePosition lst 0 H0 H1) in Hha by lia.
  rewrite (getPlanetHouse_housePosition lst 9 H0 H1) in Hhm by lia.
  split; [|repeat split; assumption].
  intros key Hkey. apply In_nth_error in Hkey. destruct Hkey as [i Hi].
  destruct (chartObject_lookup longitudes cusps i key Hlen Hi)
    as (q & _ & Hget & Hhouse).
  exists q, (getPlanetHouse q cusps).
  split; [exact Hget|]. split; [exact Hhouse|]. split; [reflexivity|].
  apply Cusps.getPlanetHouse_loop_range. apply Forall_forall.
  intros j Hj. apply in_seq in Hj. lia.
Qed.

Lemma calculateNatalChart_houses_witness :
  exists chart,
    calculateNatalChart Samples.geocode Samples.newDateWithReference
      SE_SIDM_FAGAN_BRADLEY "2000-01-01" "12:00" "Greenwich" = Ok chart
    /\ object_get (chart_positions chart) "ascendantPositionHouse"
       = Some (Finite 1)
    /\ object_get (chart_positions chart) "midHeavenPositionHouse"
       = Some (Finite 10).
Proof.
  edestruct (calculateNatalChart_houses Samples.geocode
               Samples.newDateWithReference SE_SIDM_FAGAN_BRADLEY
               "2000-01-01" "12:00" "Greenwich")
    as (chart & hr & Hc & _ & _ & _ & _ & Ha & Hm).
  - vm_compute. reflexivity.
  - vm_compute. discriminate.
  - vm_compute. discriminate.
  - vm_compute. reflexivity.
  - vm_compute. reflexivity.
  - exists chart. split; [exact Hc|]. split; [exact Ha|exact Hm].
Defined.

(** An object literal that evaluates has evaluated each property. *)
Lemma evaluateEntries_each
    (entries : list (string * (number -> Coords -> result (option number))))
    (jd : number) (coords : Coords) (object : NumberObject) :
  evaluateEntries entries jd coords = Ok object ->
  forall key compute,
    In (key, compute) entries -> exists value, compute jd coords = Ok value.
Proof.
  revert object. induction entries as [|[k c] rest IH]; intros object H.
  - intros key compute [].
  - cbn [evaluateEntries] in H.
    destruct (c jd coords) as [value|] eqn:Ec; [|discriminate].
    cbn [bind] in H.
    destruct (evaluateEntries rest jd coords) as [object'|] eqn:Er;
      [|discriminate].
    intros key compute [E|Hin].
    + injection E as <- <-. exists value. exact Ec.
    + apply (IH object' eq_refl key compute Hin).
Qed.

(** What a chart that was returned says of the inputs. *)
Lemma calculateNatalChart_inputs
    (geocode : string -> result (list GeoResult))
    (newDate : string -> option DateFields) (siderealMode : Z)
    (dateOfBirth timeOfBirth placeOfBirth : string) (chart : NatalChart) :
  calculateNatalChart geocode newDate siderealMode dateOfBirth timeOfBirth
    placeOfBirth = Ok chart ->
  exists place others (jd reference : Q),
    geocode placeOfBirth = Ok (place :: others)
    /\ Qabs (latitude place) <= 90 /\ Qabs (longitude place) <= 180
    /\ dateToJulianDay newDate dateOfBirth timeOfBirth = Ok jd
    /\ dateToJulianDay newDate "1985-09-15" "00:24" = Ok reference.
Proof.
  unfold calculateNatalChart, geocodeLocation.
  destruct (geocode placeOfBirth) as [[|place others]|]; cbn [bind];
    try discriminate.
  destruct (dateToJulianDay newDate dateOfBirth timeOfBirth) as [jd|] eqn:Hjd;
    cbn [bind]; [|discriminate].
  destruct (dateToJulianDay_finite _ _ _ _ Hjd) as [q ->]. clear Hjd.
  rename q into jd.
  set (coords := {| lat := latitude place; lon := longitude place;
                    display_name := formattedAddress place |}).
  destruct (evaluateEntries (positionEntries newDate siderealMode) jd coords)
    as [object|] eqn:E; cbn [bind]; [|discriminate].
  intros _.
  pose proof (evaluateEntries_each _ jd coords object E) as Each.
  destruct (Each "fortunaPosition"%string
              (fun jd coords =>
                 let* longitude := calculateFortuna newDate jd coords in
                 Ok (Some longitude))) as [f Hf].
  { unfold positionEntries. cbn [In]. tauto. }
  destruct (Each "ascendantPosition"%string
              (fun jd coords =>
                 let* longitude := calculateAscendant jd coords in
                 Ok (option_map Finite longitude))) as [a Ha].
  { unfold positionEntries. cbn [In]. tauto. }
  unfold calculateFortuna in Hf.
  destruct (dateToJulianDay newDate "1985-09-15" "00:24") as [reference|]
    eqn:Href; [|discriminate].
  destruct (dateToJulianDay_finite _ _ _ _ Href) as [q ->]. clear Href.
  rename q into reference.
  unfold calculateAscendant, swe_houses in Ha. cbn [lat lon coords] in Ha.
  destruct (gtb (abs (latitude place)) 90 || gtb (abs (longitude place)) 180)
    eqn:C; [discriminate|].
  apply Cusps.coordinates_accepted in C.
  exists place, others, jd, reference. tauto.
Qed.

(** X28.  [calculateNatalChart] returns only if the geocoder found at
    least one place, the first place has a latitude within 90 degrees and
    a longitude within 180, the birth instant converts to a Julian Day,
    and so does the reference instant 1985-09-15 00:24 of Fortuna and the
    Vertex; in every other case it throws. *)
Theorem calculateNatalChart_requires
    (geocode : string -> result (list GeoResult))
    (newDate : string -> option DateFields) (siderealMode : Z)
    (dateOfBirth timeOfBirth placeOfBirth : string) (chart : NatalChart) :
  calculateNatalChart geocode newDate siderealMode dateOfBirth timeOfBirth
    placeOfBirth = Ok chart ->
  exists place others (jd reference : Q),
    geocode placeOfBirth = Ok (place :: others)
    /\ Qabs (latitude place) <= 90 /\ Qabs (longitude place) <= 180
    /\ dateToJulianDay newDate dateOfBirth timeOfBirth = Ok jd
    /\ dateToJulianDay newDate "1985-09-15" "00:24" = Ok reference.
Proof.
  apply calculateNatalChart_inputs.
Qed.

Lemma calculateNatalChart_requires_witness :
  exists chart place others (jd reference : Q),
    calculateNatalChart Samples.geocode Samples.newDateWithReference
      SE_SIDM_FAGAN_BRADLEY "2000-01-01" "12:00" "Greenwich" = Ok chart
    /\ Samples.geocode "Greenwich" = Ok (place :: others)
    /\ Qabs (latitude place) <= 90 /\ Qabs (longitude place) <= 180
    /\ dateToJulianDay Samples.newDateWithReference "2000-01-01" "12:00"
       = Ok jd
    /\ dateToJulianDay Samples.newDateWithReference "1985-09-15" "00:24"
       = Ok reference.
Proof.
  eexists.
  edestruct (calculateNatalChart_requires Samples.geocode
               Samples.newDateWithReference SE_SIDM_FAGAN_BRADLEY
               "2000-01-01" "12:00" "Greenwich")
    as (place & others & jd & reference & H).
  - vm_compute. reflexivity.
  - exists place, others, jd, reference. split; [reflexivity|exact H].
Defined.

Ltac stored_key_is key :=
  exists key; split; [|split];
  [ | |vm_compute; reflexivity];
  [cbv; tauto
  |cbv -[getPlanetHouse inject_Z housePosition]; reflexivity].

Ltac stored_key :=
  first [ stored_key_is "sunPosition"%string
        | stored_key_is "moonPosition"%string
        | stored_key_is "mercuryPosition"%string
        | stored_key_is "venusPosition"%string
        | stored_key_is "marsPosition"%string
        | stored_key_is "jupiterPosition"%string
        | stored_key_is "saturnPosition"%string
        | stored_key_is "uranusPosition"%string
        | stored_key_is "neptunePosition"%string
        | stored_key_is "plutoPosition"%string
        | stored_key_is "chironPosition"%string
        | stored_key_is "fortunaPosition"%string
        | stored_key_is "vertexPosition"%string
        | stored_key_is "ascendantPosition"%string ].

(** X29.  The chart text looks the house of a body up under a key built
    from the lower-cased display name.  On a chart of
    [calculateNatalChart] this finds the stored house for fourteen of the
    sixteen names and finds nothing for "True Node" and "Midheaven", whose
    houses are stored under "trueNodePositionHouse" and
    "midHeavenPositionHouse". *)
Theorem generateNatalChartText_houses_found
    (geocode : string -> result (list GeoResult))
    (newDate : string -> option DateFields) (siderealMode : Z)
    (dateOfBirth timeOfBirth placeOfBirth : string) (chart : NatalChart) :
  calculateNatalChart geocode newDate siderealMode dateOfBirth timeOfBirth
    placeOfBirth = Ok chart ->
  forall planetName house,
    In (planetName, house)
      (generateNatalChartText_houses (chart_positions chart)) ->
    (house = None
     <-> planetName = "True Node"%string \/ planetName = "Midheaven"%string)
    /\ (forall h,
          house = Some h ->
          exists key,
            In key Spec.positionKeys
            /\ object_get (chart_positions chart) (Spec.houseKeyOf key)
               = Some h
            /\ toLowerCase key
               = (removeSpaces (toLowerCase planetName) ++ "position")%string).
Proof.
  intro Hchart.
  destruct (calculateNatalChart_inputs geocode newDate siderealMode
              dateOfBirth timeOfBirth placeOfBirth chart Hchart)
    as (place & others & jd & reference & Hg & Hlat & Hlon & Hjd & Href).
  destruct (calculateNatalChart_explicit geocode newDate siderealMode
              dateOfBirth timeOfBirth placeOfBirth place others jd reference
              Hg Hlat Hlon Hjd Href)
    as (lst & longitudes & _ & _ & Hlen & _ & _ & _ & _ & Hexplicit).
  rewrite Hexplicit in Hchart. injection Hchart as <-.
  cbn [chart_positions].
  set (cusps := map (housePosition lst) (seq 0 12)). clearbody cusps.
  sixteen longitudes. clear Hlen Hexplicit.
  intros planetName house Hin.
  unfold generateNatalChartText_houses, generateNatalChartText_names in Hin.
  cbn [map] in Hin.
  repeat match type of Hin with
         | context [generateNatalChartText_houseKey ?n] =>
             let k := eval vm_compute in (generateNatalChartText_houseKey n) in
             change (generateNatalChartText_houseKey n) with k in Hin
         end.
  cbv -[getPlanetHouse inject_Z In housePosition] in Hin. cbn [In] in Hin.
  split_in Hin; injection Hin as <- <-;
    (split;
     [split; [intro H; first [discriminate H | tauto]
             |intros [H|H]; first [discriminate H | reflexivity]]
     |intros h Hh; first [discriminate Hh | injection Hh as <-; stored_key]]).
Qed.

Lemma generateNatalChartText_houses_found_witness :
  exists chart,
    calculateNatalChart Samples.geocode Samples.newDateWithReference
      SE_SIDM_FAGAN_BRADLEY "2000-01-01" "12:00" "Greenwich" = Ok chart
    /\ In ("True Node"%string, None)
         (generateNatalChartText_houses (chart_positions chart))
    /\ (@None number = None
        <-> "True Node"%string = "True Node"%string
            \/ "True Node"%string = "Midheaven"%string).
Proof.
  eexists. split; [vm_compute; reflexivity|].
  split; [vm_compute; tauto|].
  refine (proj1 (generateNatalChartText_houses_found Samples.geocode
                   Samples.newDateWithReference SE_SIDM_FAGAN_BRADLEY
                   "2000-01-01" "12:00" "Greenwich" _ _
                   "True Node"%string None _)).
  all: first [ solve [vm_compute; reflexivity] | solve [vm_compute; tauto] ].
Defined.

End NatalCharts.

(** ** The synastry-aspect list *)

Module CrossAspects.

Import Js AstrologyEngine.

Lemma synastry_inner_sum (planet1 : string * Q) (planets2 : list (string * Q)) :
  forall st,
    snd (synastry_inner planet1 planets2 st)
    == snd st
       + Spec.sumQ (map (fun planet2 =>
                           strength (findAspect (snd planet1) (snd planet2)))
                      planets2)
    /\ List.length (fst (synastry_inner planet1 planets2 st))
       = (List.length (fst st) + List.length planets2)%nat.
Proof.
  unfold synastry_inner.
  induction planets2 as [|planet2 rest IH]; intros [acc total];
    cbn [fold_left map List.length fst snd].
  - rewrite Synastry.sumQ_nil. split; [ring|lia].
  - match goal with
    | |- context [fold_left ?f rest ?s] => destruct (IH s) as [Ht Hn]
    end.
    cbn [fst snd] in Ht, Hn.
    rewrite Ht, Hn, Synastry.sumQ_cons, length_app.
    cbn [fst snd List.length]. split; [ring|lia].
Qed.

Lemma synastry_outer_sum (planets1 planets2 : list (string * Q)) :
  forall st,
    snd (synastry_outer planets1 planets2 st)
    == snd st
       + Spec.sumQ (map (fun pq =>
                           strength (findAspect (snd (fst pq))
                                       (snd (snd pq))))
                      (list_prod planets1 planets2))
    /\ List.length (fst (synastry_outer planets1 planets2 st))
       = (List.length (fst st)
          + List.length (list_prod planets1 planets2))%nat.
Proof.
  unfold synastry_outer.
  induction planets1 as [|planet1 rest IH]; intro st;
    cbn [fold_left list_prod map List.length].
  - rewrite Synastry.sumQ_nil. split; [ring|lia].
  - destruct (IH (synastry_inner planet1 planets2 st)) as [Ht Hn].
    destruct (synastry_inner_sum planet1 planets2 st) as [Ht' Hn'].
    rewrite Ht, Hn, Ht', Hn'.
    rewrite map_app, Synastry.sumQ_app, map_map, length_app, length_map.
    cbn [fst snd]. split; [ring|lia].
Qed.

Lemma synastry_inner_list (planet1 : string * Q)
    (planets2 : list (string * Q)) :
  forall st,
    fst (synastry_inner planet1 planets2 st)
    = fst st ++ map (Spec.synastryEntry planet1) planets2.
Proof.
  unfold synastry_inner.
  induction planets2 as [|planet2 rest IH]; intros [acc total];
    cbn [fold_left map fst].
  - rewrite app_nil_r. reflexivity.
  - rewrite IH. cbn [fst]. rewrite <- app_assoc. reflexivity.
Qed.

Lemma synastry_outer_list (planets1 planets2 : list (string * Q)) :
  forall st,
    fst (synastry_outer planets1 planets2 st)
    = fst st
      ++ map (fun pq => Spec.synastryEntry (fst pq) (snd pq))
           (list_prod planets1 planets2).
Proof.
  unfold synastry_outer.
  induction planets1 as [|planet1 rest IH]; intro st;
    cbn [fold_left list_prod map].
  - rewrite app_nil_r. reflexivity.
  - rewrite IH, synastry_inner_list, map_app, map_map, <- app_assoc.
    reflexivity.
Qed.

(** X30.  [calculateSynastryAspects] lists the 12 times 12 = 144 pairings
    of the ten planets, the ascendant and the midheaven of the first
    chart with those of the second, in the order of the two loops: each
    entry names the two points and carries the name, the orb and the
    strength [findAspect] gives the pair, pairs without aspect included;
    the count is 144 and the score is the mean of the 144 strengths,
    minor aspects counting. *)
Theorem calculateSynastryAspects_mean (user1 user2 : User) :
  aspects (calculateSynastryAspects user1 user2)
  = map (fun pq => Spec.synastryEntry (fst pq) (snd pq))
      (list_prod (Spec.synastryPoints user1) (Spec.synastryPoints user2))
  /\ List.length (aspects (calculateSynastryAspects user1 user2)) = 144%nat
  /\ count (calculateSynastryAspects user1 user2) = 144%nat
  /\ aspects_score (calculateSynastryAspects user1 user2)
     == Spec.sumQ (map sa_strength
                     (aspects (calculateSynastryAspects user1 user2)))
        / 144.
Proof.
  unfold calculateSynastryAspects.
  change (synastryPlanets user1) with (Spec.synastryPoints user1).
  change (synastryPlanets user2) with (Spec.synastryPoints user2).
  destruct (synastry_outer_sum (Spec.synastryPoints user1)
              (Spec.synastryPoints user2) ([], 0)) as [Ht Hn].
  pose proof (synastry_outer_list (Spec.synastryPoints user1)
                (Spec.synastryPoints user2) ([], 0)) as Hl.
  destruct (synastry_outer (Spec.synastryPoints user1)
              (Spec.synastryPoints user2) ([], 0)) as [acc total].
  cbn [fst snd List.length app] in Ht, Hn, Hl.
  cbn [aspects count aspects_score].
  change (List.length (list_prod (Spec.synastryPoints user1)
                         (Spec.synastryPoints user2))) with 144%nat in Hn.
  rewrite Nat.add_0_l in Hn. rewrite Hn.
  split; [exact Hl|]. split; [reflexivity|]. split; [reflexivity|].
  cbn [Nat.ltb Nat.leb]. rewrite Ht, Hl, map_map. unfold Qdiv.
  change (inject_Z (Z.of_nat 144)) with 144.
  cbn [Spec.synastryEntry sa_strength]. ring.
Qed.

End CrossAspects.
